(** * Latent dynamics planning: reference classes

    A shallow embedding of [LatentDynamicsReferenceClasses.py] (vision
    encoder, world model with an EMA target encoder, inverse dynamics model,
    learning-rate schedule and training step) together with the properties
    its specification states about it.

    Conventions of the embedding.
    - Python integers are [Z]; Python floats and tensor entries are real
      numbers [R] (rounding is not modelled), except the few places where a
      float is only compared or truncated, which use [Q] so they compute,
      and the one product whose truncation decides a count,
      [int(P * top_pct)], which is a binary64 product.
    - A Python exception is a value [Raise e] of the [result] monad.
    - The PyTorch operations the source calls are not part of the
      repository; they enter either as Section variables or as small
      definitions that follow the PyTorch documentation, each marked as
      library behaviour. *)

From Stdlib Require Import ZArith List Lia Reals Lra QArith Qround String.
From Stdlib Require Import SpecFloat Qabs.
From stdpp Require Import base gmap sets list.
Import ListNotations.

(** ** Python values: exceptions, integer operators, indexing *)

Module Py.

Inductive exn :=
| AssertionError (msg : string)
| ZeroDivisionError
| IndexError
| KeyError
| ValueError
| OverflowError
| RuntimeError.

Inductive result (A : Type) :=
| Ok (a : A)
| Raise (e : exn).
Arguments Ok {A} a.
Arguments Raise {A} e.

Definition bind {A B} (r : result A) (k : A -> result B) : result B :=
  match r with
  | Ok a => k a
  | Raise e => Raise e
  end.

Definition failed {A} (r : result A) : Prop :=
  match r with
  | Ok _ => False
  | Raise _ => True
  end.

(** [assert c, msg] *)
Definition assert (c : bool) (msg : string) : result unit :=
  if c then Ok tt else Raise (AssertionError msg).

(** [a % b] and [a // b] on ints: floor division, sign of the divisor. *)
Definition mod_ (a b : Z) : result Z :=
  if (b =? 0)%Z then Raise ZeroDivisionError else Ok (a mod b)%Z.

Definition floordiv (a b : Z) : result Z :=
  if (b =? 0)%Z then Raise ZeroDivisionError else Ok (a / b)%Z.

(** [int(x)] on a float: truncation toward zero. *)
Definition int (x : Q) : Z := Z.quot (Qnum x) (Zpos (Qden x)).

(** Python floats where rounding decides the outcome: binary64 values with
    the operations of [SpecFloat], the specification of IEEE 754 arithmetic
    rounding to nearest, ties to even. *)
Definition float : Type := spec_float.

(** [float(n)] on an int, as [n * x] converts its int operand: raises when
    [n] is too large for a float. *)
Definition float_of_int (n : Z) : result float :=
  match binary_normalize 53 1024 n 0 false with
  | S754_infinity _ => Raise OverflowError
  | x => Ok x
  end.

(** [x * y] on floats *)
Definition float_mul (x y : float) : float := SFmul 53 1024 x y.

(** [int(x)] on a binary64 float: truncation toward zero; raises on an
    infinity and on a nan. *)
Definition int_of_float (x : float) : result Z :=
  match x with
  | S754_zero _ => Ok 0%Z
  | S754_infinity _ => Raise OverflowError
  | S754_nan => Raise ValueError
  | S754_finite s m e =>
      let a := if (0 <=? e)%Z then (Z.pos m * 2 ^ e)%Z
               else (Z.pos m / 2 ^ (- e))%Z in
      Ok (if s then (- a)%Z else a)
  end.

(** The rational number a float stands for (0 for an infinity or a nan). *)
Definition float_value (x : float) : Q :=
  match x with
  | S754_finite s m e =>
      let a := if (0 <=? e)%Z then inject_Z (Z.pos m * 2 ^ e)
               else Qmake (Z.pos m) (Z.to_pos (2 ^ (- e))) in
      if s then Qopp a else a
  | _ => 0%Q
  end.

(** [l[i]] with Python's negative offsets. *)
Definition index {A} (l : list A) (i : Z) : result A :=
  let n := Z.of_nat (length l) in
  let j := if (i <? 0)%Z then (n + i)%Z else i in
  if ((0 <=? j) && (j <? n))%Z
  then match l !! Z.to_nat j with
       | Some a => Ok a
       | None => Raise IndexError
       end
  else Raise IndexError.

(** [[f(x) for x in l]] where [f] may raise. *)
Fixpoint mapM {A B} (f : A -> result B) (l : list A) : result (list B) :=
  match l with
  | [] => Ok []
  | x :: xs =>
      bind (f x) (fun y => bind (mapM f xs) (fun ys => Ok (y :: ys)))
  end.

(** [f(r)] for a pure [f] applied to a result that may have raised. *)
Definition fmap {A B} (f : A -> B) (r : result A) : result B :=
  bind r (fun a => Ok (f a)).

(** [range(n)] *)
Definition range (n : Z) : list Z :=
  map Z.of_nat (seq 0 (Z.to_nat n)).

End Py.

Import Py.

Notation "x <- c1 ;; c2" := (Py.bind c1 (fun x => c2))
  (at level 100, c1 at next level, right associativity).
Notation "c1 ;;; c2" := (Py.bind c1 (fun _ => c2))
  (at level 100, right associativity).

(** ** Transition batches *)

Module Batch.

Section Batch.
(** [Image] is one observation, [Act] the action sequence inferred for
    one sample, [Mask] an action padding mask. *)
Variables Image Act Mask : Type.

(** The fields of the TensorDict the code reads and writes. [obs] is
    stored batch-major: one time sequence of images per sample. *)
Record t := {
  obs : list (list Image);
  la : option (list Act);
  la_mask : option Mask;
}.

(** [batch[obs][:, k]] *)
Definition obs_at (batch : t) (k : Z) : result (list Image) :=
  mapM (fun sample => index sample k) (obs batch).

(** [batch.update(action_dict)] with an [la] entry *)
Definition update (batch : t) (action_dict : list Act) : t :=
  {| obs := obs batch; la := Some action_dict; la_mask := la_mask batch |}.
End Batch.

Arguments obs {Image Act Mask} _.
Arguments la {Image Act Mask} _.
Arguments la_mask {Image Act Mask} _.
Arguments Build_t {Image Act Mask} _ _ _.
Arguments obs_at {Image Act Mask} _ _.
Arguments update {Image Act Mask} _ _.

End Batch.

(** ** Activation tensors *)

Module Tensors.

(** An activation tensor is its shape and its entries by index; entries
    outside the shape are never read. *)
Record Tensor1 := { dims1 : nat; at1 : nat -> R }.
Record Tensor3 := { dims3 : nat * nat * nat; at3 : nat -> nat -> nat -> R }.
Record Tensor4 := { dims4 : nat * nat * nat * nat;
                    at4 : nat -> nat -> nat -> nat -> R }.

(** [sum(f(i) for i in range(n))] *)
Fixpoint sum_n (n : nat) (f : nat -> R) : R :=
  match n with
  | O => 0%R
  | S k => (sum_n k f + f k)%R
  end.

Definition numel3 (t : Tensor3) : nat :=
  let '(a, b, c) := dims3 t in a * b * c.

(** Entry of a contiguous tensor at a flat (row-major) offset. *)
Definition ravel3 (t : Tensor3) (n : nat) : R :=
  let '(_, b, c) := dims3 t in
  at3 t (n / (b * c)) ((n / c) mod b) (n mod c).

(** [t.permute(0, 2, 1, 3)] *)
Definition permute_0213 (t : Tensor4) : Tensor4 :=
  let '(a, b, c, d) := dims4 t in
  {| dims4 := (a, c, b, d); at4 := fun i j k l => at4 t i k j l |}.

Definition numel4 (t : Tensor4) : nat :=
  let '(a, b, c, d) := dims4 t in a * b * c * d.

Definition ravel4 (t : Tensor4) (n : nat) : R :=
  let '(_, b, c, d) := dims4 t in
  at4 t (n / (b * c * d)) ((n / (c * d)) mod b) ((n / d) mod c) (n mod d).

(** [t.reshape(B, P, K)]: raises unless the number of entries agrees. *)
Definition reshape3 (t : Tensor4) (B P K : nat) : result Tensor3 :=
  if decide (numel4 t = B * P * K)
  then Ok {| dims3 := (B, P, K);
             at3 := fun b p k => ravel4 t ((b * P + p) * K + k) |}
  else Raise RuntimeError.

(** [t.view(B, P, D, E)]: raises unless the number of entries agrees. *)
Definition view4 (t : Tensor3) (B P D E : nat) : result Tensor4 :=
  if decide (numel3 t = B * P * D * E)
  then Ok {| dims4 := (B, P, D, E);
             at4 := fun b p d e => ravel3 t (((b * P + p) * D + d) * E + e) |}
  else Raise RuntimeError.

(** [F.mse_loss(input, target, reduction=none)] on tensors of one shape;
    broadcasting is not modelled, any other pair of shapes raises. *)
Definition mse_loss_none (input target : Tensor4) : result Tensor4 :=
  if decide (dims4 input = dims4 target)
  then Ok {| dims4 := dims4 input;
             at4 := fun b d p e => ((at4 input b d p e - at4 target b d p e) ^ 2)%R |}
  else Raise RuntimeError.

(** [t.mean(dim=(0, 2, 3))] *)
Definition mean_023 (t : Tensor4) : Tensor1 :=
  let '(B, D, P, E) := dims4 t in
  {| dims1 := D;
     at1 := fun d =>
       (sum_n B (fun b => sum_n P (fun p => sum_n E (fun e => at4 t b d p e)))
        / INR (B * P * E))%R |}.

(** [torch.cat([x.unsqueeze(1) for x in outs], dim=1)]: raises ValueError
    on an empty list and RuntimeError on operands of different shapes. *)
Definition stack_dim1 (outs : list Tensor3) : result Tensor4 :=
  match outs with
  | [] => Raise ValueError
  | x :: _ =>
      if decide (Forall (fun y => dims3 y = dims3 x) outs)
      then let '(B, P, E) := dims3 x in
           Ok {| dims4 := (B, length outs, P, E);
                 at4 := fun b d p e =>
                   match outs !! d with
                   | Some y => at3 y b p e
                   | None => 0%R
                   end |}
      else Raise RuntimeError
  end.

End Tensors.

Import Tensors.

(** ** VisionEncoder: construction *)

Module VisionEncoder.

(** Library behaviour, kept abstract: what [nn.Conv2d(...)] and
    [nn.TransformerEncoderLayer(...)] build, and whether they raise. *)
Record Torch := {
  Conv2d : Type;
  EncoderLayer : Type;
  (** [nn.Conv2d(in_channels, out_channels, kernel_size, stride)] *)
  Conv2d_new : Z -> Z -> Z -> Z -> result Conv2d;
  (** [nn.TransformerEncoderLayer(d_model, nhead, dim_feedforward)] *)
  TransformerEncoderLayer_new : Z -> Z -> Z -> result EncoderLayer;
}.

(** [torch.arange(n, dtype=float32)]: raises for a negative bound. *)
Definition arange (n : Z) : result (list R) :=
  if (n <? 0)%Z then Raise RuntimeError
  else Ok (map (fun k => IZR k) (range n)).

(** [torch.meshgrid(h, w, indexing=ij)] followed by [flatten] on both
    outputs: row-major enumeration of the grid. *)
Definition meshgrid_flat (h w : list R) : list R * list R :=
  (flat_map (fun x => map (fun _ => x) w) h,
   flat_map (fun _ => w) h).

(** [VisionEncoder._get_1d_sincos_pos_embed] *)
Definition _get_1d_sincos_pos_embed (embed_dim : Z) (pos : list R)
  : result (list (list R)) :=
  m <- mod_ embed_dim 2 ;;
  assert (m =? 0)%Z "Embed dimension must be even for sine and cosine." ;;;
  half <- floordiv embed_dim 2 ;;
  ks <- arange half ;;
  let omega := map (fun k => (k / (IZR embed_dim / 2))%R) ks in
  let omega := map (fun o => (1 / Rpower 10000 o)%R) omega in
  Ok (map (fun p =>
             let row := map (fun o => (p * o)%R) omega in
             map sin row ++ map cos row) pos).

(** [VisionEncoder._get_2d_sincos_pos_embed] *)
Definition _get_2d_sincos_pos_embed (embed_dim grid_size : Z)
  : result (list (list R)) :=
  m <- mod_ embed_dim 2 ;;
  assert (m =? 0)%Z "Embed dimension must be even for sine and cosine." ;;;
  grid_h <- arange grid_size ;;
  grid_w <- arange grid_size ;;
  let '(grid_h, grid_w) := meshgrid_flat grid_h grid_w in
  half <- floordiv embed_dim 2 ;;
  pos_h <- _get_1d_sincos_pos_embed half grid_h ;;
  pos_w <- _get_1d_sincos_pos_embed half grid_w ;;
  Ok (zip_with (fun a b => a ++ b) pos_h pos_w).

Section Init.
Variable T : Torch.

Record t := {
  num_patches : Z;
  patch_size : Z;
  embed_dim : Z;
  depth : Z;
  grid_size : Z;
  patch_embed : Conv2d T;
  pos_embed : list (list R);
  encoder_layers : list (EncoderLayer T);
}.

(** [VisionEncoder.__init__] *)
Definition __init__ (img_size patch_size in_chans embed_dim depth num_heads : Z)
  : result t :=
  m <- mod_ img_size patch_size ;;
  assert (m =? 0)%Z "Image size must be divisible by patch size." ;;;
  g <- floordiv img_size patch_size ;;
  let num_patches := (g ^ 2)%Z in
  grid_size <- floordiv img_size patch_size ;;
  patch_embed <- Conv2d_new T in_chans embed_dim patch_size patch_size ;;
  pos_embed <- _get_2d_sincos_pos_embed embed_dim grid_size ;;
  encoder_layers <-
    mapM (fun _ => TransformerEncoderLayer_new T embed_dim num_heads (embed_dim * 4))
         (range depth) ;;
  Ok {| num_patches := num_patches; patch_size := patch_size;
        embed_dim := embed_dim; depth := depth; grid_size := grid_size;
        patch_embed := patch_embed; pos_embed := pos_embed;
        encoder_layers := encoder_layers |}.
End Init.

Section Forward.
(** [Images] is a batch of images. [self.patch_embed], the convolution,
    and the encoder layers are library modules; [pos_embed] is the table
    [__init__] registers. *)
Variable Images : Type.
Variable patch_embed : Images -> Tensor4.
Variable pos_embed : list (list R).
Variable encoder_layers : list (Tensor3 -> Tensor3).

(** [x + self.pos_embed] for a table of the shape of one sample of [x];
    broadcasting over patches or coordinates is not modelled, any other
    shape raises. *)
Definition add_pos_embed (x : Tensor3) : result Tensor3 :=
  let '(_, P, E) := dims3 x in
  if decide (length pos_embed = P /\ Forall (fun row => length row = E) pos_embed)
  then Ok {| dims3 := dims3 x;
             at3 := fun b p e => (at3 x b p e + nth e (nth p pos_embed []) 0)%R |}
  else Raise RuntimeError.

(** [VisionEncoder.patch_and_embed] *)
Definition patch_and_embed (x : Images) : result Tensor3 :=
  let x := patch_embed x in
  let '(B, E, H_p, W_p) := dims4 x in
  (* flatten(2) and transpose(1, 2) *)
  let x := {| dims3 := (B, H_p * W_p, E);
              at3 := fun b p e => at4 x b e (p / W_p) (p mod W_p) |} in
  x <- add_pos_embed x ;;
  Ok x.

(** The loop of [run_transformer]: the activations after every layer. *)
Fixpoint layer_outputs (layers : list (Tensor3 -> Tensor3)) (x : Tensor3)
  : list Tensor3 :=
  match layers with
  | [] => []
  | layer :: rest => let x := layer x in x :: layer_outputs rest x
  end.

(** [VisionEncoder.run_transformer] *)
Definition run_transformer (x : Tensor3) : result Tensor4 :=
  stack_dim1 (layer_outputs encoder_layers x).

(** [VisionEncoder.forward] *)
Definition forward (x : Images) : result Tensor4 :=
  x <- patch_and_embed x ;;
  stacked_outputs <- run_transformer x ;;
  Ok stacked_outputs.
End Forward.

Arguments patch_and_embed {Images} _ _ _.
Arguments forward {Images} _ _ _ _.

(** A reference instance of the library interface, after the PyTorch
    sources: [Conv2d] builds unless a channel count or the kernel size is
    negative (a weight without entries is built, with a warning);
    [MultiheadAttention], built by every encoder layer, refuses a model
    dimension or a head count that is not positive, and a head count that
    does not divide the model dimension. *)
Definition torch : Torch := {|
  Conv2d := Z * Z * Z * Z;
  EncoderLayer := Z * Z * Z;
  Conv2d_new := fun cin cout k s =>
    if ((0 <=? cin) && (0 <=? cout) && (0 <=? k))%Z then Ok (cin, cout, k, s)
    else Raise RuntimeError;
  TransformerEncoderLayer_new := fun d h ff =>
    if ((d <=? 0) || (h <=? 0))%Z then Raise ValueError
    else if (d mod h =? 0)%Z then Ok (d, h, ff)
    else Raise (AssertionError "embed_dim must be divisible by num_heads");
|}.

End VisionEncoder.

(** ** Learning-rate schedule *)

Module Schedule.

Definition INITIAL_LR : R := 1e-7.
Definition PEAK_LR : R := 1e-4.
Definition FINAL_LR : R := 3e-5.

Section LR.
(** [total_steps = cfg.stage1.steps], a module-level global. *)
Variable total_steps : Z.

(** [int(0.15 * total_steps)] *)
Definition warmup_steps : Z := int ((15 # 100) * inject_Z total_steps).

(** [lr_lambda]: the factor applied to the optimizer's base rate. The two
    true divisions raise on a zero divisor. *)
Definition lr_lambda (step : Z) : result R :=
  if (step <? warmup_steps)%Z then
    if (warmup_steps =? 0)%Z then Raise ZeroDivisionError
    else Ok ((PEAK_LR - INITIAL_LR) / INITIAL_LR
             * (IZR step / IZR warmup_steps) + 1)%R
  else
    if (total_steps - warmup_steps =? 0)%Z then Raise ZeroDivisionError
    else
      let progress := (IZR (step - warmup_steps)
                       / IZR (total_steps - warmup_steps))%R in
      let cosine_decay := (0.5 * (1 + cos (PI * progress + PI)))%R in
      Ok ((PEAK_LR + (FINAL_LR - PEAK_LR) * cosine_decay) / INITIAL_LR)%R.

(** The rate in force at [step]: [LambdaLR(optimizer, lr_lambda)] sets it
    to the optimizer's initial rate, [lr=INITIAL_LR], times
    [lr_lambda(step)] (library behaviour). *)
Definition scheduled_lr (step : Z) : result R :=
  fmap (fun factor => (INITIAL_LR * factor)%R) (lr_lambda step).
End LR.

End Schedule.

(** ** Parameters, the heap they live on, and the library operations on them *)

Module Autograd.

(** A parameter tensor, flattened to its entries. *)
Definition Tensor := list R.

(** [nn.Parameter]: the payload, the [requires_grad] flag and [.grad]. *)
Record Param := {
  data : Tensor;
  requires_grad : bool;
  grad : option Tensor;
}.

Definition set_data (p : Param) (d : Tensor) : Param :=
  {| data := d; requires_grad := requires_grad p; grad := grad p |}.
Definition set_requires_grad (p : Param) (b : bool) : Param :=
  {| data := data p; requires_grad := b; grad := grad p |}.
Definition set_grad (p : Param) (g : option Tensor) : Param :=
  {| data := data p; requires_grad := requires_grad p; grad := g |}.

(** Parameters are Python objects: modules hold references (identities)
    into a heap, so a parameter shared by two modules is one heap cell. *)
Abbreviation Store := (gmap positive Param).

(** [t.mul_(c)] and [t * c] *)
Definition mul_ (t : Tensor) (c : R) : Tensor := map (fun x => (x * c)%R) t.
Definition mul (t : Tensor) (c : R) : Tensor := map (fun x => (x * c)%R) t.

(** [t.add_(other)] for tensors of one shape; broadcasting is not
    modelled, any other pair of shapes raises. *)
Definition add_ (t other : Tensor) : result Tensor :=
  if decide (length t = length other) then Ok (zip_with Rplus t other)
  else Raise RuntimeError.

(** A loop [for p in ids: p := f(p)] over heap cells. *)
Definition modify (f : positive -> Param -> Param)
    (ids : list positive) (h : Store) : Store :=
  foldl (fun h id => match h !! id with
                     | Some p => <[id := f id p]> h
                     | None => h
                     end) h ids.

(** [module.requires_grad_(False)] and the loop
    [for p in module.parameters(): p.requires_grad_(False)] *)
Definition requires_grad_ (b : bool) (ids : list positive) (h : Store) : Store :=
  modify (fun _ p => set_requires_grad p b) ids h.

(** [zero_grad()] of a module or an optimizer (library behaviour: the
    gradients of its parameters are reset to [None]). *)
Definition zero_grad (ids : list positive) (h : Store) : Store :=
  modify (fun _ p => set_grad p None) ids h.

(** [.grad] accumulation *)
Definition accumulate (old : option Tensor) (g : Tensor) : Tensor :=
  match old with
  | None => g
  | Some o => zip_with Rplus o g
  end.

(** [loss.backward()] (library behaviour): a leaf receives a gradient only
    if it has [requires_grad] set and takes part in the graph of the loss;
    [g id] is the gradient of the loss with respect to leaf [id], [None]
    for a leaf outside the graph. *)
Definition backward (g : positive -> option Tensor) (h : Store) : Store :=
  map_imap (fun id p =>
    Some (if requires_grad p
          then match g id with
               | Some gi => set_grad p (Some (accumulate (grad p) gi))
               | None => p
               end
          else p)) h.

(** Fresh heap cells. *)
Record Heap := { cells : Store; next : positive }.

(** A new parameter, as [nn.Parameter(t)] makes it. *)
Definition alloc (p : Param) (h : Heap) : positive * Heap :=
  (next h, {| cells := <[next h := p]> (cells h); next := Pos.succ (next h) |}).

Fixpoint alloc_all (ps : list Param) (h : Heap) : list positive * Heap :=
  match ps with
  | [] => ([], h)
  | p :: ps' =>
      let '(id, h1) := alloc p h in
      let '(ids, h2) := alloc_all ps' h1 in
      (id :: ids, h2)
  end.

Definition fresh (t : Tensor) : Param :=
  {| data := t; requires_grad := true; grad := None |}.

(** Every cell of the heap lies below the next fresh identity. *)
Definition heap_wf (h : Heap) : Prop :=
  forall id p, cells h !! id = Some p -> (id < next h)%positive.

(** A fresh parameter after [requires_grad_(False)]. *)
Definition frozen (t : Tensor) : Param := set_requires_grad (fresh t) false.

(** The state of an encoder and its copy on a heap: online cell [i] holds
    the initial tensor [i] as a fresh parameter, cell [i] of the copy holds
    [g] of the same tensor; the copy has cells of its own. *)
Definition encoders_built (g : Tensor -> Param) (ts : list Tensor)
    (enc ema : list positive) (h : Heap) : Prop :=
  heap_wf h /\
  length enc = length ts /\ length ema = length ts /\
  NoDup ema /\ (forall id, id ∈ ema -> id ∉ enc) /\
  (forall id, id ∈ enc ++ ema -> (id < next h)%positive) /\
  (forall i id, enc !! i = Some id -> cells h !! id = fresh <$> ts !! i) /\
  (forall i id, ema !! i = Some id -> cells h !! id = g <$> ts !! i).

(** [copy.deepcopy(module)]: every parameter is copied to a new cell. *)
Definition deepcopy (ids : list positive) (h : Heap) : list positive * Heap :=
  alloc_all (omap (fun id => cells h !! id) ids) h.

End Autograd.

Import Autograd.

(** ** DoubleCrossDecoder *)

Module DoubleCrossDecoder.

Section Decoder.
Variables ActEmb Mask : Type.

(** The library modules of one [DoubleCrossDecoderLayer]. *)
Record Layer := {
  (** [self.cross_attn_action(query, key, value, key_padding_mask)] *)
  cross_attn_action : Tensor3 -> ActEmb -> ActEmb -> option Mask -> Tensor3;
  (** [self.norm3(a + b)] and [self.norm4(a + b)] *)
  add_norm3 : Tensor3 -> Tensor3 -> Tensor3;
  add_norm4 : Tensor3 -> Tensor3 -> Tensor3;
  linear1 : Tensor3 -> Tensor3;
  linear2 : Tensor3 -> Tensor3;
  activation : Tensor3 -> Tensor3;
  dropout : Tensor3 -> Tensor3;
}.

(** [DoubleCrossDecoderLayer.forward] *)
Definition layer_forward (ly : Layer) (memory_state : Tensor3)
    (memory_action : ActEmb) (action_mask : option Mask) : Tensor3 :=
  let x := cross_attn_action ly memory_state memory_action memory_action
             action_mask in
  let memory_state := add_norm3 ly memory_state x in
  let x := linear2 ly (dropout ly (activation ly (linear1 ly memory_state))) in
  let memory_state := add_norm4 ly memory_state x in
  memory_state.

(** [DoubleCrossDecoder.forward] *)
Definition forward (layers : list Layer) (memory_state : Tensor3)
    (memory_action : ActEmb) (action_mask : option Mask) : Tensor3 :=
  foldl (fun out ly => layer_forward ly out memory_action action_mask)
        memory_state layers.
End Decoder.

Arguments layer_forward {ActEmb Mask} _ _ _ _.
Arguments forward {ActEmb Mask} _ _ _ _.

End DoubleCrossDecoder.

(** ** WorldModel: construction and the EMA update *)

Module WorldModel.

(** The parameters of the submodules, in [parameters()] order. *)
Record t := {
  encoder : list positive;
  ema_encoder : list positive;
  action_encoder : list positive;
  decoder : list positive;
}.

Definition parameters (wm : t) : list positive :=
  remove_dups (encoder wm ++ ema_encoder wm ++ action_encoder wm ++ decoder wm).

(** [WorldModel.__init__], from the initial values the library draws for
    the vision encoder, the action encoder and the decoder. *)
Definition __init__ (encoder_init action_encoder_init decoder_init : list Tensor)
    (h : Heap) : t * Heap :=
  let '(encoder, h) := alloc_all (map fresh encoder_init) h in
  let '(ema_encoder, h) := deepcopy encoder h in
  let h := {| cells := requires_grad_ false ema_encoder (cells h); next := next h |} in
  let '(action_encoder, h) := alloc_all (map fresh action_encoder_init) h in
  let '(decoder, h) := alloc_all (map fresh decoder_init) h in
  ({| encoder := encoder; ema_encoder := ema_encoder;
      action_encoder := action_encoder; decoder := decoder |}, h).

(** One iteration of the loop in [update_ema]:
    [ema_param.data.mul_(momentum).add_(param.data * (1 - momentum))] *)
Definition update_ema_step (momentum : R) (h : Store) (pr : positive * positive)
  : result Store :=
  let '(ema_param, param) := pr in
  match h !! ema_param, h !! param with
  | Some e, Some p =>
      d <- add_ (mul_ (data e) momentum) (mul (data p) (1 - momentum)) ;;
      Ok (<[ema_param := set_data e d]> h)
  | _, _ => Raise RuntimeError
  end.

Fixpoint update_ema_loop (momentum : R) (pairs : list (positive * positive))
    (h : Store) : result Store :=
  match pairs with
  | [] => Ok h
  | pr :: rest =>
      h' <- update_ema_step momentum h pr ;;
      update_ema_loop momentum rest h'
  end.

(** [WorldModel.update_ema] *)
Definition update_ema (wm : t) (momentum : R) (h : Store) : result Store :=
  update_ema_loop momentum (zip (ema_encoder wm) (encoder wm)) h.

(** The value the specification gives for a shadow tensor after the
    update: [m * shadow + (1 - m) * online], entry by entry. *)
Definition interpolate (m : R) (shadow online : Tensor) : Tensor :=
  zip_with (fun s o => (m * s + (1 - m) * o)%R) shadow online.

(** What one pair of the loop needs: both cells exist, with one shape. *)
Definition mirrored (h : Store) (pr : positive * positive) : Prop :=
  exists pe pp, h !! pr.1 = Some pe /\ h !! pr.2 = Some pp /\
                length (data pe) = length (data pp).

(** The shadow encoder mirrors the online encoder: same number of
    parameters, pairwise of one shape, on cells of their own. *)
Definition ema_mirror (wm : t) (h : Store) : Prop :=
  NoDup (ema_encoder wm) /\
  (forall id, id ∈ ema_encoder wm -> id ∉ encoder wm) /\
  Forall2 (fun e p => mirrored h (e, p)) (ema_encoder wm) (encoder wm).

Definition get_encoder (wm : t) := encoder wm.
Definition get_ema_encoder (wm : t) := ema_encoder wm.

(** The data path: [WorldModel.forward] and [WorldModel.label]. *)
Section Forward.
(** [Act] is the action sequence of one sample, [ActEmb] the embedded
    actions of a batch. *)
Variables Image Act Mask ActEmb : Type.

(** [self.ema_encoder]: its convolution, its positional table and its
    layers *)
Variable ema_patch_embed : list Image -> Tensor4.
Variable ema_pos_embed : list (list R).
Variable ema_encoder_layers : list (Tensor3 -> Tensor3).
(** [self.action_encoder] *)
Variable action_encoder_fn : list Act -> ActEmb.
(** [self.decoder] *)
Variable decoder_layers : list (DoubleCrossDecoder.Layer ActEmb Mask).

Definition ema_encoder_fn (x : list Image) : result Tensor4 :=
  VisionEncoder.forward ema_patch_embed ema_pos_embed ema_encoder_layers x.

(** [WorldModel.forward] *)
Definition forward (before_obs : list Image) (action : list Act)
    (action_mask : option Mask) : result Tensor4 :=
  let B := length before_obs in
  state_embed <- ema_encoder_fn before_obs ;;
  let '(_, D, P, E) := dims4 state_embed in
  state_embed <- reshape3 (permute_0213 state_embed) B P (D * E) ;;
  let memory_action := action_encoder_fn action in
  let out := DoubleCrossDecoder.forward decoder_layers state_embed
               memory_action action_mask in
  out <- view4 out B P D E ;;
  let out := permute_0213 out in
  Ok out.

(** [WorldModel.label] *)
Definition label (batch : Batch.t Image Act Mask) : result Tensor1 :=
  la <- match Batch.la batch with
        | Some la => Ok la
        | None => Raise KeyError
        end ;;
  let la_mask := Batch.la_mask batch in
  before_obs <- Batch.obs_at batch (-2) ;;
  target_obs <- Batch.obs_at batch (-1) ;;
  pred <- forward before_obs la la_mask ;;
  target_embed <- ema_encoder_fn target_obs ;;
  diff <- mse_loss_none pred target_embed ;;
  let loss_per_depth := mean_023 diff in
  Ok loss_per_depth.
End Forward.

Arguments ema_encoder_fn {Image} _ _ _ _.
Arguments forward {Image Act Mask ActEmb} _ _ _ _ _ _ _ _.
Arguments label {Image Act Mask ActEmb} _ _ _ _ _ _.

End WorldModel.

(** ** Causal masks *)

(** A float that may be minus infinity. *)
Inductive xfloat := NegInf | Fin (q : Q).

Module Mask.

(** [torch.full((rows, cols), v)] and [torch.ones(rows, cols)] *)
Definition full {A} (rows cols : nat) (v : A) : list (list A) :=
  replicate rows (replicate cols v).

(** [torch.triu(m, diagonal)] (library behaviour): entry [(i, j)] is kept
    when [j - i >= diagonal] and replaced by zero otherwise. *)
Definition triu {A} (zero : A) (diagonal : Z) (m : list (list A)) : list (list A) :=
  imap (fun i row =>
          imap (fun j x => if (diagonal <=? Z.of_nat j - Z.of_nat i)%Z
                           then x else zero) row) m.

(** [t.bool()]: true for every nonzero entry. *)
Definition to_bool (x : xfloat) : bool :=
  match x with
  | NegInf => true
  | Fin q => negb (Qeq_bool q 0)
  end.

(** Entry [(i, j)] of a mask. *)
Definition entry {A} (m : list (list A)) (i j : nat) : option A :=
  row ← m !! i; row !! j.

End Mask.

(** [generate_causal_mask] *)
Definition generate_causal_mask (L : Z) : result (list (list bool)) :=
  if (L <? 0)%Z then Raise RuntimeError
  else
    let mask := Mask.triu (Fin 0) 1
                  (Mask.full (Z.to_nat L) (Z.to_nat L) (Fin 1)) in
    Ok (map (map Mask.to_bool) mask).

(** ** The library's transformer decoder *)

Module TransformerDecoder.

(** Library behaviour, after the PyTorch documentation of
    [nn.TransformerDecoder] with post-norm [nn.TransformerDecoderLayer]s,
    for one sample: masked multi-head self-attention over the target
    sequence, cross-attention to the memory, feed-forward block; the
    learned maps of a layer are its fields. Dropout is taken as the
    identity, which it is in evaluation mode. *)
Section Decoder.
(** Target-sequence vectors and the memory. *)
Variables V M : Type.

Record Layer := {
  nhead : nat;
  head_dim : nat;
  (** scaled dot product of the query of one token and the key of another *)
  score : nat -> V -> V -> R;
  (** one coordinate of the value projection of a token *)
  value : nat -> V -> nat -> R;
  (** [norm1(x + dropout(out_proj(heads)))] *)
  out_proj_norm1 : V -> list (list R) -> V;
  (** [norm2(x + cross_attention(x, memory))] *)
  cross_norm2 : V -> M -> V;
  (** [norm3(x + feed_forward(x))] *)
  ff_norm3 : V -> V;
}.

(** [sum(f(j, xs[j]) for j in range(len(xs)))], indices starting at [k] *)
Fixpoint isum (k : nat) (f : nat -> V -> R) (xs : list V) : R :=
  match xs with
  | [] => 0%R
  | x :: rest => (f k x + isum (S k) f rest)%R
  end.

(** The unnormalised softmax weight of key [j] for query [i]: the additive
    mask entry joins the score before the exponential, and the
    exponential of minus infinity is 0. *)
Definition weight (ly : Layer) (mask : list (list xfloat)) (h i : nat) (xi : V)
    (j : nat) (xj : V) : R :=
  match Mask.entry mask i j with
  | Some (Fin m) => exp (score ly h xi xj + Q2R m)
  | Some NegInf => 0%R
  | None => 0%R
  end.

Definition head_out (ly : Layer) mask (xs : list V) (h i : nat) (xi : V) : list R :=
  let z := isum 0 (fun j xj => weight ly mask h i xi j xj) xs in
  map (fun c =>
         (isum 0 (fun j xj => weight ly mask h i xi j xj * value ly h xj c) xs / z)%R)
      (seq 0 (head_dim ly)).

Definition self_attention (ly : Layer) mask (xs : list V) (i : nat) (xi : V)
  : list (list R) :=
  map (fun h => head_out ly mask xs h i xi) (seq 0 (nhead ly)).

Definition layer_forward (ly : Layer) mask (memory : M) (xs : list V) : list V :=
  imap (fun i xi =>
          let x := out_proj_norm1 ly xi (self_attention ly mask xs i xi) in
          let x := cross_norm2 ly x memory in
          ff_norm3 ly x) xs.

(** The mask must be square of the target length. *)
Definition mask_fits (mask : list (list xfloat)) (T : nat) : bool :=
  bool_decide (length mask = T) && forallb (fun row => bool_decide (length row = T)) mask.

(** [decoder(tgt=tgt, memory=memory, tgt_mask=mask)] *)
Definition forward (layers : list Layer) (norm : V -> V)
    (tgt : list V) (memory : M) (tgt_mask : list (list xfloat)) : result (list V) :=
  if mask_fits tgt_mask (length tgt)
  then Ok (map norm (foldl (fun xs ly => layer_forward ly tgt_mask memory xs) tgt layers))
  else Raise RuntimeError.
End Decoder.

Arguments nhead {V M} _.
Arguments head_dim {V M} _.
Arguments isum {V} _ _ _.
Arguments weight {V M} _ _ _ _ _ _ _.
Arguments head_out {V M} _ _ _ _ _ _.
Arguments self_attention {V M} _ _ _ _ _.
Arguments layer_forward {V M} _ _ _ _.
Arguments forward {V M} _ _ _ _ _.

End TransformerDecoder.

(** ** Library operations used by the inverse dynamics model *)

Module Torch.

(** The order [topk] puts [(value, index)] pairs in: ascending in the
    value; which of two equal values comes first is the library's choice,
    given by [tie]: the index with the smaller [tie] comes first. *)
Definition comes_first (tie : nat -> nat) (x y : Q * nat) : bool :=
  Qle_bool x.1 y.1 && (negb (Qle_bool y.1 x.1) || (tie x.2 <=? tie y.2)%nat).

(** Insertion of a pair into a list in that order. *)
Fixpoint insert_asc (tie : nat -> nat) (x : Q * nat) (l : list (Q * nat))
  : list (Q * nat) :=
  match l with
  | [] => [x]
  | y :: rest =>
      if comes_first tie x y then x :: l else y :: insert_asc tie x rest
  end.

Definition sort_asc (tie : nat -> nat) (l : list (Q * nat)) : list (Q * nat) :=
  foldr (insert_asc tie) [] l.

(** [row.topk(k, largest=False)] (library behaviour): the indices of the
    [k] smallest entries, in ascending order of the entries, equal entries
    in the order of [tie]; raises when [k] is out of range. *)
Definition topk_smallest (tie : nat -> nat) (k : Z) (row : list Q)
  : result (list nat) :=
  if ((k <? 0) || (Z.of_nat (length row) <? k))%Z then Raise RuntimeError
  else Ok (take (Z.to_nat k) (sort_asc tie (imap (fun i v => (v, i)) row)).*2).

(** [torch.gather(t, 1, idxs)] along the patch axis of one sample. *)
Definition gather {A} (t : list A) (idxs : list nat) : result (list A) :=
  mapM (fun i => match t !! i with
                 | Some x => Ok x
                 | None => Raise RuntimeError
                 end) idxs.

(** [t.scatter_(1, idxs, src)] along the patch axis of one sample:
    [t[idxs[j]] = src[j]]. *)
Fixpoint scatter_ {A} (t : list A) (idxs : list nat) (src : list A) : result (list A) :=
  match idxs, src with
  | i :: idxs', x :: src' =>
      if decide (i < length t) then scatter_ (<[i := x]> t) idxs' src'
      else Raise RuntimeError
  | [], _ => Ok t
  | _ :: _, [] => Raise RuntimeError
  end.

(** [torch.randint(low, high, (1,))] (library behaviour): one integer drawn
    uniformly from [low .. high - 1], given here as the list of its
    equiprobable outcomes; raises when the range is empty. *)
Definition randint (low high : Z) : result (list Z) :=
  if (low <? high)%Z then Ok (map (fun k => (low + k)%Z) (range (high - low)))
  else Raise RuntimeError.

(** The outcome of the draw whose random bits are the integer [raw]
    (library behaviour): [low + raw % (high - low)], the outcome at offset
    [raw % (high - low)]. *)
Definition sample (outcomes : result (list Z)) (raw : Z) : result Z :=
  outs <- outcomes ;;
  match outs !! Z.to_nat (raw mod Z.of_nat (length outs)) with
  | Some x => Ok x
  | None => Raise RuntimeError
  end.

(** [torch.cat(ts, dim=1)] on batch-major tensors: raises ValueError on an
    empty list. *)
Definition cat_dim1 {A} (ts : list (list (list A))) : result (list (list A)) :=
  match ts with
  | [] => Raise ValueError
  | t :: rest => Ok (foldl (zip_with app) t rest)
  end.

(** [t.view(B, -1)] with [B] the batch size of a batch-major tensor: the
    entries of every sample laid end to end. For an empty batch the size
    that -1 stands for cannot be inferred, and the call raises. *)
Definition view_flat {A} (t : list (list (list A))) : result (list (list A)) :=
  match t with
  | [] => Raise RuntimeError
  | _ => Ok (map (fun row => concat row) t)
  end.

End Torch.

(** ** The inverse dynamics model *)

Module IDM.

(** The parameters of the module and of its submodules. *)
Record t := {
  mask_token : positive;
  drop_token : positive;
  encoder : list positive;
  ema_encoder : list positive;
  transformer : list positive;
  action_head : list positive;
}.

Definition parameters (idm : t) : list positive :=
  remove_dups (mask_token idm :: drop_token idm :: encoder idm ++ ema_encoder idm
               ++ transformer idm ++ action_head idm).

(** [IDM.__init__]: the two encoders are the objects passed in. *)
Definition __init__ (encoder ema_encoder : list positive)
    (transformer_init : list Tensor) (mask_token_init drop_token_init : Tensor)
    (action_head_init : list Tensor) (h : Heap) : t * Heap :=
  let h := {| cells := requires_grad_ false ema_encoder (cells h); next := next h |} in
  let '(transformer, h) := alloc_all (map fresh transformer_init) h in
  let '(mask_token, h) := alloc (fresh mask_token_init) h in
  let '(drop_token, h) := alloc (fresh drop_token_init) h in
  let '(action_head, h) := alloc_all (map fresh action_head_init) h in
  ({| mask_token := mask_token; drop_token := drop_token; encoder := encoder;
      ema_encoder := ema_encoder; transformer := transformer;
      action_head := action_head |}, h).

(** [IDM._make_causal_mask] *)
Definition _make_causal_mask (size : Z) : result (list (list xfloat)) :=
  if (size <? 0)%Z then Raise RuntimeError
  else
    let mask := Mask.full (Z.to_nat size) (Z.to_nat size) NegInf in
    let mask := Mask.triu (Fin 0) 1 mask in
    Ok mask.

(** The random numbers one call of [_encode_vision_context] consumes in
    training: the augmentation parameters and [torch.rand(B, P)]; and the
    choice [topk] makes among equal random numbers of a sample, [tie b]
    for sample [b]. *)
Record Draw (AugParams : Type) := {
  aug_params : AugParams;
  rand : nat -> nat -> Q;
  tie : nat -> nat -> nat;
}.
Arguments aug_params {AugParams} _.
Arguments rand {AugParams} _ _ _.
Arguments tie {AugParams} _ _ _.

Section Context.
(** [Patch] is one patch embedding with its position added, [Ctx] the
    [depth x embed_dim] block of layerwise embeddings of one patch, [Src]
    one context vector of dimension [2 * depth * embed_dim]. *)
Variables Image Patch Ctx Src AugParams : Type.

(** [self.aug_fn.transforms(x, params=params)] *)
Variable transforms : AugParams -> list Image -> list Image.
(** [self.encoder.patch_and_embed] on one sample *)
Variable patch_and_embed : Image -> list Patch.
(** [self.encoder.run_transformer] on the patches of one sample, followed
    by [transpose(1, 2).reshape(B, n, depth, embed_dim)] *)
Variable run_transformer : list Patch -> list Ctx.
(** [self.drop_token[0, 0].reshape(depth, embed_dim)] *)
Variable drop_token_reshaped : Ctx.
(** [stack([before, after], dim=3)] and the two reshapes, for one patch *)
Variable interleave : Ctx -> Ctx -> Src.
(** [self.top_pct], a float *)
Variable top_pct : Py.float.

(** [PairedBYOLAugment.forward] with the drawn parameters *)
Definition aug_fn (params : AugParams) (x1 x2 : list Image)
  : list Image * list Image :=
  let x1_out := transforms params x1 in
  let x2_out := transforms params x2 in
  (x1_out, x2_out).

(** [max(1, int(P * self.top_pct))]: the product is a product of floats,
    rounded to the nearest binary64 value before [int] truncates it. *)
Definition top_k (P : nat) : result Z :=
  p <- Py.float_of_int (Z.of_nat P) ;;
  k <- Py.int_of_float (Py.float_mul p top_pct) ;;
  Ok (Z.max 1 k).

(** [keep_mask = zeros(P); keep_mask[idxs] = True] for one sample *)
Definition keep_mask (P : nat) (idxs : list nat) : list bool :=
  foldl (fun m i => <[i := true]> m) (replicate P false) idxs.

(** The after branch of one sample in training: gather the kept patches,
    run the transformer on them, scatter into a tensor filled with the
    drop token. *)
Definition after_ctx_training (after_patch : list Patch) (idxs : list nat)
  : result (list Ctx) :=
  let P := length after_patch in
  after_patch_kept <- Torch.gather after_patch idxs ;;
  let after_ctx_kept := run_transformer after_patch_kept in
  let full_after := replicate P drop_token_reshaped in
  Torch.scatter_ full_after idxs after_ctx_kept.

(** The indices kept for sample [b] *)
Definition kept_idxs (draw : Draw AugParams) (b P : nat) : result (list nat) :=
  let rand_vals := map (rand draw b) (seq 0 P) in
  top_k <- top_k P ;;
  Torch.topk_smallest (tie draw b) top_k rand_vals.

(** [torch.stack([before_ctx, after_ctx], dim=3)] needs one shape. *)
Definition same_shape (before_ctx after_ctx : list (list Ctx)) : bool :=
  bool_decide (map length before_ctx = map length after_ctx).

(** [IDM._encode_vision_context]: one list of context vectors per sample *)
Definition _encode_vision_context (x_before x_after : list Image)
    (training : bool) (draw : Draw AugParams) : result (list (list Src)) :=
  let '(x_b_aug, x_a_aug) :=
    if training then aug_fn (aug_params draw) x_before x_after
    else (x_before, x_after) in
  let before_patch := map patch_and_embed x_b_aug in
  let after_patch := map patch_and_embed x_a_aug in
  let before_ctx := map run_transformer before_patch in
  after_ctx <-
    (if training then
       mapM (fun '(b, after_patch_b) =>
               let P := length after_patch_b in
               idxs <- kept_idxs draw b P ;;
               let keep_mask := keep_mask P idxs in
               after_ctx_training after_patch_b idxs)
            (imap pair after_patch)
     else Ok (map run_transformer after_patch)) ;;
  if same_shape before_ctx after_ctx
  then Ok (zip_with (zip_with interleave) before_ctx after_ctx)
  else Raise RuntimeError.

(** *** Autoregressive decoding *)

(** [V] is one vector of the target sequence. *)
Variable V : Type.
(** [self.mask_token[0, 0]] *)
Variable mask_token_value : V.
(** [self.transformer.decoder]: its layers and final norm *)
Variable decoder_layers : list (TransformerDecoder.Layer V (list Src)).
Variable decoder_norm : V -> V.
(** [self.action_head] on one vector *)
Variable action_head_value : V -> list R.
Variables min_tokens max_tokens num_eval_tokens : Z.

(** The loop state: [tgt_so_far] and [out_tokens]. *)
Definition LoopState : Type := list (list V) * list (list (list (list R))).

(** The invariant of both loops: [B] target rows of length [T], and [k]
    emitted slices holding one action per sample. *)
Definition loop_inv (B T k : nat) (st : LoopState) : Prop :=
  length st.1 = B /\ Forall (fun row => length row = T) st.1 /\
  length st.2 = k /\
  Forall (fun action => length action = B /\
                        Forall (fun r => length r = 1%nat) action) st.2.

(** The body of both loops after the context is known. *)
Definition decode_step (memory : list (list Src)) (st : LoopState) : result LoopState :=
  let '(tgt_so_far, out_tokens) := st in
  let T := match tgt_so_far with row :: _ => length row | [] => O end in
  causal_mask <- _make_causal_mask (Z.of_nat T) ;;
  decoder_out <-
    mapM (fun '(tgt, mem) =>
            TransformerDecoder.forward decoder_layers decoder_norm tgt mem causal_mask)
         (zip tgt_so_far memory) ;;
  let last_token := map (fun out => drop (length out - 1) out) decoder_out in
  let action := map (map action_head_value) last_token in
  let out_tokens := out_tokens ++ [action] in
  let new_embed := last_token in
  let tgt_so_far := zip_with app tgt_so_far new_embed in
  Ok (tgt_so_far, out_tokens).

(** [for step_i in range(num_tokens)] around a body that may raise *)
Fixpoint for_range (steps : list Z) (body : Z -> LoopState -> result LoopState)
    (st : LoopState) : result LoopState :=
  match steps with
  | [] => Ok st
  | step_i :: rest => st' <- body step_i st ;; for_range rest body st'
  end.

(** The TensorDict [forward] returns. *)
Record Actions := { la : list (list (list R)); la_flat : option (list (list R)) }.

(** [IDM.forward]. [training] is [self.training]; [num_tokens_draw] is
    the random integer [torch.randint] reduces to its outcome and
    [draws step_i] the random numbers of the context encoding at step
    [step_i]. *)
Definition forward (training : bool) (num_tokens_draw : Z)
    (draws : Z -> Draw AugParams) (x_before x_after : list Image) : result Actions :=
  let B := length x_before in
  if negb training then
    let num_tokens := num_eval_tokens in
    src <- _encode_vision_context x_before x_after false (draws 0%Z) ;;
    let memory := src in
    let tgt_so_far := replicate B [mask_token_value] in
    st <- for_range (range num_tokens) (fun step_i => decode_step memory)
            (tgt_so_far, []) ;;
    la <- Torch.cat_dim1 st.2 ;;
    la_flat <- Torch.view_flat la ;;
    Ok {| la := la; la_flat := Some la_flat |}
  else
    num_tokens <- Torch.sample (Torch.randint min_tokens (max_tokens + 1))
                    num_tokens_draw ;;
    let tgt_so_far := replicate B [mask_token_value] in
    st <- for_range (range num_tokens)
            (fun step_i st =>
               src <- _encode_vision_context x_before x_after true (draws step_i) ;;
               let memory := src in
               decode_step memory st)
            (tgt_so_far, []) ;;
    la <- Torch.cat_dim1 st.2 ;;
    Ok {| la := la; la_flat := None |}.
End Context.

Arguments aug_fn {Image AugParams} _ _ _ _.
Arguments after_ctx_training {Patch Ctx} _ _ _ _.
Arguments kept_idxs {AugParams} _ _ _ _.
Arguments same_shape {Ctx} _ _.
Arguments _encode_vision_context {Image Patch Ctx Src AugParams} _ _ _ _ _ _ _ _ _ _.
Arguments LoopState V : clear implicits.
Arguments loop_inv {V} _ _ _ _.
Arguments decode_step {Src V} _ _ _ _ _.
Arguments for_range {V} _ _ _.
Arguments forward {Image Patch Ctx Src AugParams} _ _ _ _ _ _ {V} _ _ _ _ _ _ _ _ _ _ _ _.

Section Label.
Variables Image Act Mask : Type.

(** [self(x_before, x_after)]: [IDM.forward] with the module's state and
    its random draws, reduced to the [la] entry of the result. *)
Variable self : list Image -> list Image -> result (list Act).

(** [normalize_obs], a helper of the repository that is not in the file;
    it acts on every image of the slice. *)
Variable normalize_obs : Image -> Image.

Abbreviation Batch := (Batch.t Image Act Mask).

(** [IDM.label] *)
Definition label (batch : Batch) : result Batch :=
  x_before <- Batch.obs_at batch (-2) ;;
  x_after <- Batch.obs_at batch (-1) ;;
  action_dict <- self x_before x_after ;;
  Ok (Batch.update batch action_dict).

(** [_label], the closure inside [IDM.label_chunked] *)
Definition _label (data_batch : Batch) : result (list Act) :=
  after_obs <- fmap (map normalize_obs) (Batch.obs_at data_batch (-2)) ;;
  before_obs <- fmap (map normalize_obs) (Batch.obs_at data_batch (-1)) ;;
  preds <- self before_obs after_obs ;;
  Ok preds.

(** [data.split(chunksize)] (library behaviour): consecutive chunks along
    the batch axis; an empty batch gives one empty chunk, and a chunk size
    that is not positive raises. *)
Fixpoint split_rows (fuel chunksize : nat) (rows : list (list Image))
  : list (list (list Image)) :=
  match fuel, rows with
  | S fuel', _ :: _ =>
      take chunksize rows :: split_rows fuel' chunksize (drop chunksize rows)
  | _, _ => []
  end.

Definition split (data : Batch) (chunksize : Z) : result (list Batch) :=
  if (chunksize <=? 0)%Z then Raise ValueError
  else match Batch.obs data with
       | [] => Ok [Batch.Build_t [] None None]
       | _ :: _ =>
           Ok (map (fun rows => Batch.Build_t rows None None)
                 (split_rows (length (Batch.obs data)) (Z.to_nat chunksize)
                    (Batch.obs data)))
       end.

(** [torch.cat(out_dicts)]: raises on an empty list. *)
Definition cat (out_dicts : list (list Act)) : result (list Act) :=
  match out_dicts with
  | [] => Raise ValueError
  | _ => Ok (concat out_dicts)
  end.

(** [IDM.label_chunked] *)
Definition label_chunked (data : Batch) (chunksize : Z) : result Batch :=
  chunks <- split data chunksize ;;
  out_dicts <- mapM _label chunks ;;
  action_dicts <- cat out_dicts ;;
  Ok (Batch.update data action_dicts).
End Label.

Arguments label {Image Act Mask} _ _.
Arguments _label {Image Act Mask} _ _ _.
Arguments label_chunked {Image Act Mask} _ _ _ _.

(** A probe in place of the network: it answers, for every sample, with the
    pair (image it was given as before, image it was given as after). *)
Definition probe (x_before x_after : list nat) : result (list (nat * nat)) :=
  Ok (combine x_before x_after).

End IDM.

(** ** The training script *)

(** What the script uses of [nn.Module]: [parameters()]. *)
Class NNModule (M : Type) := parameters : M -> list positive.

#[global] Instance IDM_NNModule : NNModule IDM.t := IDM.parameters.
#[global] Instance WorldModel_NNModule : NNModule WorldModel.t := WorldModel.parameters.

(** [get_unique_params]: Python sets of parameters compare by identity. *)
Definition get_unique_params {M1 M2} `{NNModule M1, NNModule M2}
    (model1 : M1) (model2 : M2) : list positive :=
  let params1 : gset positive := list_to_set (parameters model1) in
  let params2 : gset positive := list_to_set (parameters model2) in
  elements (params1 ∪ params2).

(** The initial values the library draws for the modules of both models. *)
Record Init := {
  encoder_init : list Tensor;
  action_encoder_init : list Tensor;
  decoder_init : list Tensor;
  transformer_init : list Tensor;
  mask_token_init : Tensor;
  drop_token_init : Tensor;
  action_head_init : list Tensor;
}.

(** [create_dynamics_models] with [state_dicts=None], as the script calls
    it. *)
Definition create_dynamics_models (init : Init) (h : Heap)
  : (IDM.t * WorldModel.t) * Heap :=
  let '(wm, h) := WorldModel.__init__ (encoder_init init)
                    (action_encoder_init init) (decoder_init init) h in
  let encoder := WorldModel.get_encoder wm in
  let ema_encoder := WorldModel.get_ema_encoder wm in
  let '(idm, h) := IDM.__init__ encoder ema_encoder (transformer_init init)
                     (mask_token_init init) (drop_token_init init)
                     (action_head_init init) h in
  ((idm, wm), h).

Definition start_momentum : R := 0.99.

Module Train.

(** The calls of one training step that touch parameters, as a trace. *)
Inductive Event :=
| IdmLabel
| WmLabel
| OptimizerZeroGrad
| LossBackward
| OptimizerStep
| UpdateEma (momentum : R)
| WmZeroGrad
| IdmZeroGrad.

Section Training.
Variable TrainBatch : Type.

(** Library behaviour, kept abstract. [loss_grad h batch id] is the
    gradient autograd derives for leaf [id] from the loss that
    [idm.label(batch)], [wm.label(batch)] and [.mean()] build on the
    weights [h]; [None] for a leaf outside the graph. [adamw] is the
    AdamW rule for one parameter with a gradient. *)
Variable loss_grad : Store -> TrainBatch -> positive -> option Tensor.
Variable OptState : Type.
Variable adamw : OptState -> positive -> Param -> Tensor -> Tensor.
Variable adamw_advance : OptState -> OptState.

(** [torch.optim.AdamW(params, ...)]: the parameters it was given and its
    internal state. *)
Record Optimizer := { param_groups : list positive; state : OptState }.

Record World := {
  heap : Store;
  optimizer : Optimizer;
  trace : list Event;
}.

Definition emit (ev : Event) (h : Store) (w : World) : World :=
  {| heap := h; optimizer := optimizer w; trace := trace w ++ [ev] |}.

(** [optimizer.zero_grad()] *)
Definition optimizer_zero_grad (w : World) : World :=
  emit OptimizerZeroGrad (zero_grad (param_groups (optimizer w)) (heap w)) w.

(** [loss.backward()] for the loss built on the weights [h0] *)
Definition loss_backward (h0 : Store) (batch : TrainBatch) (w : World) : World :=
  emit LossBackward (backward (loss_grad h0 batch) (heap w)) w.

(** [optimizer.step()] (library behaviour): a parameter whose [.grad] is
    [None] is skipped. *)
Definition step_one (st : OptState) (id : positive) (p : Param) : Param :=
  match grad p with
  | Some g => set_data p (adamw st id p g)
  | None => p
  end.

Definition optimizer_step (w : World) : World :=
  let opt := optimizer w in
  let h := modify (step_one (state opt)) (param_groups opt) (heap w) in
  {| heap := h;
     optimizer := {| param_groups := param_groups opt;
                     state := adamw_advance (state opt) |};
     trace := trace w ++ [OptimizerStep] |}.

(** [train_step]; logging and cache clearing do not touch parameters.
    The forward passes of [idm.label(batch)] and [wm.label(batch)] and
    [loss.backward()] are taken to return: a step in which one of them
    raises stops before any parameter is touched and has no value here,
    so what is stated of [train_step] is stated of the steps that get past
    them. *)
Definition train_step (idm : IDM.t) (wm : WorldModel.t) (index : Z)
    (batch : TrainBatch) (w : World) : result World :=
  let momentum := start_momentum in
  let h0 := heap w in
  let w := emit IdmLabel (heap w) w in
  let w := emit WmLabel (heap w) w in
  let w := optimizer_zero_grad w in
  let w := loss_backward h0 batch w in
  let w := optimizer_step w in
  h <- WorldModel.update_ema wm momentum (heap w) ;;
  let w := emit (UpdateEma momentum) h w in
  let w := emit WmZeroGrad (zero_grad (parameters wm) (heap w)) w in
  let w := emit IdmZeroGrad (zero_grad (parameters idm) (heap w)) w in
  Ok w.

(** [for step in range(cfg.stage1.steps + 1): train_step(step)], over
    the batches [next(train_iter)] yields. *)
Fixpoint train_loop (idm : IDM.t) (wm : WorldModel.t) (index : Z)
    (batches : list TrainBatch) (w : World) : result World :=
  match batches with
  | [] => Ok w
  | batch :: rest =>
      w' <- train_step idm wm index batch w ;;
      train_loop idm wm (index + 1) rest w'
  end.

Definition is_optimizer_step (ev : Event) : bool :=
  match ev with OptimizerStep => true | _ => false end.
Definition is_update_ema (ev : Event) : bool :=
  match ev with UpdateEma _ => true | _ => false end.

(** The shadow parameters are frozen and hold no gradient. *)
Definition ema_frozen (wm : WorldModel.t) (h : Store) : Prop :=
  forall id, id ∈ WorldModel.ema_encoder wm ->
    exists p, h !! id = Some p /\ requires_grad p = false /\ grad p = None.
End Training.

Arguments heap {OptState} _.
Arguments optimizer {OptState} _.
Arguments trace {OptState} _.
Arguments param_groups {OptState} _.
Arguments state {OptState} _.

End Train.

(** ** Small concrete instances *)

Module Examples.

(** Two models built by [create_dynamics_models] on an empty heap: the
    encoder has one parameter of two entries. *)
Definition init : Init := {|
  encoder_init := [[1; 2]%R];
  action_encoder_init := [[5]%R];
  decoder_init := [];
  transformer_init := [[7]%R];
  mask_token_init := [0%R];
  drop_token_init := [0%R];
  action_head_init := [];
|}.

Definition models : (IDM.t * WorldModel.t) * Heap :=
  create_dynamics_models init {| cells := ∅; next := 1%positive |}.
Definition idm : IDM.t := models.1.1.
Definition wm : WorldModel.t := models.1.2.
Definition heap : Store := cells models.2.

(** A stand-in for autograd and for AdamW: the gradient of a leaf is its
    data, and a step halves the data. *)
Definition loss_grad (h : Store) (_ : unit) (id : positive) : option Tensor :=
  data <$> h !! id.
Definition adamw (_ : unit) (_ : positive) (p : Param) (_ : Tensor) : Tensor :=
  map (fun x => (x / 2)%R) (data p).

Definition world : Train.World unit :=
  Train.Build_World unit heap
    (Train.Build_Optimizer unit (get_unique_params idm wm) tt) [].

(** An inverse dynamics model on images of four patches, with numbers for
    images, patches and vectors. *)
Definition transforms (_ : unit) (x : list nat) : list nat := x.
Definition patch_and_embed (img : nat) : list nat :=
  map (fun k => (img + k)%nat) (seq 0 4).
Definition run_transformer (ps : list nat) : list nat :=
  map (fun p => (10 * p)%nat) ps.
Definition draw : IDM.Draw unit :=
  {| IDM.aug_params := tt;
     IDM.rand := fun b p => inject_Z (Z.of_nat ((7 * p + 3 * b) mod 5));
     IDM.tie := fun b p => p |}.
(** The float 0.5 *)
Definition top_pct : Py.float := S754_finite false 4503599627370496 (-53).

(** The floats the literals 0.29 and 0.15 denote, and images of 100
    patches. *)
Definition pct_029 : Py.float := S754_finite false 5224175567749775 (-54).
Definition pct_015 : Py.float := S754_finite false 5404319552844595 (-55).
Definition hundred_patches (img : nat) : list nat :=
  map (fun k => (img + k)%nat) (seq 0 100).

Definition decoder_layer : TransformerDecoder.Layer nat (list (nat * nat)) :=
  TransformerDecoder.Build_Layer nat (list (nat * nat)) 1 1
    (fun _ _ _ => 0%R) (fun _ v _ => INR v)
    (fun x _ => S x) (fun x _ => x) (fun x => x).
Definition action_head (v : nat) : list R := [INR v].

(** A forward model on numbers. *)
Definition ema_patch_embed (x : list nat) : Tensor4 :=
  {| dims4 := (length x, 2%nat, 2%nat, 1%nat);
     at4 := fun b e h w => INR (b + e + h + w) |}.
Definition ema_pos_embed : list (list R) := [[0; 1]%R; [1; 0]%R].
Definition ema_encoder_layers : list (Tensor3 -> Tensor3) :=
  [fun t => t; fun t => t; fun t => t].
Definition batch : Batch.t nat unit unit :=
  Batch.Build_t [[1; 2]%nat] (Some [tt]) None.

End Examples.

(** * Further properties: auxiliary notions *)

(** Entries of a table between -1 and 1. *)
Definition unit_bounded (rows : list (list R)) : Prop :=
  Forall (Forall (fun v => (-1 <= v <= 1)%R)) rows.

(** The sine-cosine code of one coordinate [p] on [d] entries: the
    frequencies [1 / 10000 ** (k / (d / 2))] for [k < d // 2], all sines
    first, then all cosines. *)
Definition sincos_code (d : Z) (p : R) : list R :=
  let omega :=
    map (fun k => (1 / Rpower 10000 (IZR k / (IZR d / 2)))%R) (range (d / 2)) in
  map (fun o => sin (p * o)) omega ++ map (fun o => cos (p * o)) omega.

(** ** Further concrete instances *)

Module MoreExamples.

(** The heap of [Examples] after the online encoder has moved away from
    its shadow. *)
Definition drifted : Store :=
  <[1%positive := fresh [3; 4]%R]> Examples.heap.

(** An encoder configuration for the reference library: images of 4 by 4
    pixels in patches of 2 by 2, embedding dimension 4, one layer. *)
Definition small_encoder : result (VisionEncoder.t VisionEncoder.torch) :=
  VisionEncoder.__init__ VisionEncoder.torch 4 2 3 4 1 1.

(** A batch of three samples of two observations each, and a network that
    pairs the two images it is given for every sample. *)
Definition three_samples : Batch.t nat (nat * nat) unit :=
  Batch.Build_t [[1; 2]; [3; 4]; [5; 6]]%nat None None.
Definition pairing (x_before x_after : list nat) : result (list (nat * nat)) :=
  Ok (zip_with pair x_before x_after).

(** A sample with a single observation. *)
Definition short_batch : Batch.t nat (nat * nat) unit :=
  Batch.Build_t [[1]%nat] (Some [(0, 0)%nat]) None.

(** A retention fraction above 1: the float 1.5. *)
Definition big_pct : Py.float := S754_finite false 6755399441055744 (-52).

End MoreExamples.

(** * Properties *)

(** ** The result monad *)

Lemma mapM_length {A B} (f : A -> result B) l ys :
  mapM f l = Ok ys -> length ys = length l.
Proof.
  revert ys. induction l as [|x xs IH]; intros ys; simpl.
  - intros [= <-]. reflexivity.
  - destruct (f x) as [y|e]; simpl; [|discriminate].
    destruct (mapM f xs) as [zs|e]; simpl; [|discriminate].
    intros [= <-]. simpl. f_equal. apply IH. reflexivity.
Qed.

Lemma mapM_cons_failed {A B} (f : A -> result B) x l :
  failed (f x) -> failed (mapM f (x :: l)).
Proof. simpl. destruct (f x); [intros [] | intros _; exact I]. Qed.

Lemma bind_failed_l {A B} (r : result A) (k : A -> result B) :
  failed r -> failed (Py.bind r k).
Proof. destruct r; [intros [] | intros _; exact I]. Qed.

Lemma bind_failed_r {A B} (r : result A) (k : A -> result B) :
  (forall a, r = Ok a -> failed (k a)) -> failed (Py.bind r k).
Proof. destruct r as [a|e]; simpl; [intros H; apply H; reflexivity | intros _; exact I]. Qed.

Lemma mapM_Forall2 {A B} (f : A -> result B) (l : list A) :
  (forall x, x ∈ l -> exists y, f x = Ok y) ->
  exists ys, mapM f l = Ok ys /\ Forall2 (fun x y => f x = Ok y) l ys.
Proof.
  induction l as [|x l IH]; intros Hall; simpl.
  - exists []. split; [reflexivity | constructor].
  - destruct (Hall x) as [y Hy]; [left|].
    destruct IH as (ys & Hys & HF); [intros z Hz; apply Hall; right; exact Hz|].
    rewrite Hy, Hys. cbn [Py.bind]. exists (y :: ys).
    split; [reflexivity | constructor; assumption].
Qed.

(** ** IDM labelling *)

Section LabelFacts.
Context {Image Act Mask : Type}.
Variable self : list Image -> list Image -> result (list Act).
Variable normalize_obs : Image -> Image.

(** [IDM.label] hands offset -2 to inference as [x_before] and offset -1
    as [x_after]. *)
Lemma label_before_then_after (batch : Batch.t Image Act Mask) xb xa :
  Batch.obs_at batch (-2) = Ok xb ->
  Batch.obs_at batch (-1) = Ok xa ->
  IDM.label self batch =
    (action_dict <- self xb xa ;; Ok (Batch.update batch action_dict)).
Proof. intros Hb Ha. unfold IDM.label. rewrite Hb, Ha. reflexivity. Qed.

(** The closure of [IDM.label_chunked] hands offset -1 to inference as
    [x_before] and offset -2 as [x_after]. *)
Lemma _label_after_then_before (data_batch : Batch.t Image Act Mask) x2 x1 :
  Batch.obs_at data_batch (-2) = Ok x2 ->
  Batch.obs_at data_batch (-1) = Ok x1 ->
  IDM._label self normalize_obs data_batch =
    self (map normalize_obs x1) (map normalize_obs x2).
Proof.
  intros H2 H1. unfold IDM._label. rewrite H2, H1. simpl.
  destruct (self _ _); reflexivity.
Qed.
End LabelFacts.

(** C1 (the code departs from the claim). On a batch of one sample whose
    observation sequence is [10; 20], [IDM.label] gives inference the image
    at offset -2 as before and the one at offset -1 as after, while
    [IDM.label_chunked] gives it the image at offset -1 as before and the
    one at offset -2 as after. *)
Theorem label_chunked_swaps_before_and_after :
  let data : Batch.t nat (nat * nat) unit := Batch.Build_t [[10; 20]%nat] None None in
  IDM.label IDM.probe data
    = Ok (Batch.Build_t [[10; 20]%nat] (Some [(10, 20)%nat]) None) /\
  IDM.label_chunked IDM.probe (fun x => x) data 128
    = Ok (Batch.Build_t [[10; 20]%nat] (Some [(20, 10)%nat]) None).
Proof. split; reflexivity. Qed.

(** ** VisionEncoder construction *)

Section InitFacts.
Variable T : VisionEncoder.Torch.

(** What the construction relies on from the library: an encoder layer
    cannot be built with a head count that does not divide its model
    dimension. *)
Hypothesis heads_checked : forall d h ff,
  ~ (h | d)%Z -> failed (VisionEncoder.TransformerEncoderLayer_new T d h ff).

Lemma pos_embed_odd embed_dim grid_size :
  ~ (2 | embed_dim)%Z ->
  failed (VisionEncoder._get_2d_sincos_pos_embed embed_dim grid_size).
Proof.
  intros Hodd. unfold VisionEncoder._get_2d_sincos_pos_embed, mod_. simpl.
  destruct (embed_dim mod 2 =? 0)%Z eqn:Hm; [|exact I].
  exfalso. apply Hodd. apply Z.eqb_eq in Hm. apply Z.mod_divide; [lia|assumption].
Qed.

Lemma range_pos n : (1 <= n)%Z -> exists rest, range n = 0%Z :: rest.
Proof.
  intros Hn. unfold range.
  destruct (Z.to_nat n) as [|k] eqn:Hk; [lia|]. simpl. eauto.
Qed.

(** C2 (as amended). An odd embedding dimension, an image size the patch
    size does not divide, and, when the encoder has at least one layer, a
    head count that does not divide the embedding dimension each make
    [VisionEncoder.__init__] raise: no encoder is returned, so no forward
    pass can run on it. *)
Theorem init_rejects_invalid_config img_size patch_size in_chans embed_dim depth num_heads :
  ~ (2 | embed_dim)%Z \/ ~ (patch_size | img_size)%Z \/
  ((1 <= depth)%Z /\ ~ (num_heads | embed_dim)%Z) ->
  failed (VisionEncoder.__init__ T img_size patch_size in_chans embed_dim depth num_heads).
Proof.
  intros Hbad. unfold VisionEncoder.__init__.
  destruct (mod_ img_size patch_size) as [m|e] eqn:Hmod; [|exact I].
  cbn [Py.bind].
  destruct (assert (m =? 0)%Z _) as [[]|e] eqn:Hassert; [|exact I].
  cbn [Py.bind].
  assert (Hdiv : (patch_size | img_size)%Z).
  { unfold mod_ in Hmod. destruct (patch_size =? 0)%Z eqn:Hp; [discriminate|].
    injection Hmod as <-. unfold assert in Hassert.
    destruct (img_size mod patch_size =? 0)%Z eqn:Hm; [|discriminate].
    apply Z.eqb_neq in Hp. apply Z.eqb_eq in Hm. apply Z.mod_divide; assumption. }
  apply bind_failed_r; intros g _. apply bind_failed_r; intros grid _.
  apply bind_failed_r; intros conv _.
  destruct Hbad as [Hodd | [Hpatch | [Hdepth Hheads]]].
  - apply bind_failed_l. apply pos_embed_odd. exact Hodd.
  - contradiction.
  - apply bind_failed_r; intros pe _. apply bind_failed_l.
    destruct (range_pos depth Hdepth) as [rest ->].
    apply mapM_cons_failed. apply heads_checked. exact Hheads.
Qed.
(** A constructed encoder has [depth] layers. *)
Lemma init_layers_count img_size patch_size in_chans embed_dim depth num_heads enc :
  VisionEncoder.__init__ T img_size patch_size in_chans embed_dim depth num_heads
    = Ok enc ->
  length (VisionEncoder.encoder_layers T enc) = Z.to_nat depth /\
  VisionEncoder.depth T enc = depth.
Proof.
  unfold VisionEncoder.__init__. intros Hinit.
  repeat match type of Hinit with
         | Py.bind ?r _ = Ok _ =>
             let H := fresh "H" in
             destruct r eqn:H; cbn [Py.bind] in Hinit; [|discriminate]
         end.
  injection Hinit as <-. simpl. split; [|reflexivity].
  match goal with
  | H : mapM _ (range depth) = Ok _ |- _ =>
      apply mapM_length in H; rewrite H
  end.
  unfold range. rewrite length_map, length_seq. reflexivity.
Qed.
End InitFacts.

Lemma torch_heads_checked d h ff :
  ~ (h | d)%Z ->
  failed (VisionEncoder.TransformerEncoderLayer_new VisionEncoder.torch d h ff).
Proof.
  intros Hnd. simpl.
  destruct ((d <=? 0) || (h <=? 0))%Z eqn:Hpos; [exact I|].
  destruct (d mod h =? 0)%Z eqn:Hm; [|exact I].
  exfalso. apply Hnd. apply Z.eqb_eq in Hm. apply Z.mod_divide; [lia|assumption].
Qed.

Lemma not_divide_3_256 : ~ (3 | 256)%Z.
Proof. intros [k Hk]. lia. Qed.

Lemma init_rejects_invalid_config_witness :
  failed (VisionEncoder.__init__ VisionEncoder.torch 64 16 3 256 6 3).
Proof.
  apply (init_rejects_invalid_config VisionEncoder.torch torch_heads_checked
           64 16 3 256 6 3).
  right. right. split; [lia|]. intros [k Hk]. lia.
Defined.

(** C2 (as stated) fails on an encoder without layers: no layer is built,
    so nothing compares the head count 3 with the embedding dimension 256,
    and the construction returns an encoder. *)
Lemma init_accepts_bad_heads_at_depth_0 :
  ~ (3 | 256)%Z /\
  ~ failed (VisionEncoder.__init__ VisionEncoder.torch 64 16 3 256 0 3).
Proof.
  split; [exact not_divide_3_256|].
  lazy. intros H. exact H.
Qed.

(** ** Learning-rate schedule *)

Section ScheduleFacts.
Import Schedule.
Local Open Scope R_scope.

Lemma warmup_steps_eq total_steps :
  warmup_steps total_steps = Z.quot (15 * total_steps) 100.
Proof.
  unfold warmup_steps, Py.int. simpl. reflexivity.
Qed.

Lemma warmup_steps_lt total_steps :
  (1 <= total_steps)%Z ->
  (0 <= warmup_steps total_steps < total_steps)%Z.
Proof.
  rewrite warmup_steps_eq. intros Ht.
  rewrite Z.quot_div_nonneg by lia. split.
  - apply Z.div_pos; lia.
  - apply Z.div_lt_upper_bound; lia.
Qed.

Lemma lr_warmup_value total_steps step :
  (0 <= step < warmup_steps total_steps)%Z ->
  scheduled_lr total_steps step =
    Ok (INITIAL_LR + (PEAK_LR - INITIAL_LR)
                     * (IZR step / IZR (warmup_steps total_steps))).
Proof.
  intros [H0 Hlt]. unfold scheduled_lr, lr_lambda.
  apply Z.ltb_lt in Hlt as Hltb. rewrite Hltb.
  destruct (warmup_steps total_steps =? 0)%Z eqn:Hz.
  { apply Z.eqb_eq in Hz. lia. }
  unfold fmap, Py.bind. f_equal.
  set (p := IZR step / IZR _). unfold INITIAL_LR, PEAK_LR. lra.
Qed.

Lemma lr_decay_value total_steps step :
  (1 <= total_steps)%Z ->
  (warmup_steps total_steps <= step)%Z ->
  scheduled_lr total_steps step =
    Ok (FINAL_LR + (PEAK_LR - FINAL_LR)
        * ((1 + cos (PI * (IZR (step - warmup_steps total_steps)
                           / IZR (total_steps - warmup_steps total_steps)))) / 2)).
Proof.
  intros Ht Hge. pose proof (warmup_steps_lt _ Ht) as Hlt.
  unfold scheduled_lr, lr_lambda.
  destruct (step <? warmup_steps total_steps)%Z eqn:Hb.
  { apply Z.ltb_lt in Hb. lia. }
  destruct (total_steps - warmup_steps total_steps =? 0)%Z eqn:Hz.
  { apply Z.eqb_eq in Hz. lia. }
  unfold fmap, Py.bind. f_equal. rewrite neg_cos.
  set (c := cos _). unfold INITIAL_LR, PEAK_LR, FINAL_LR. lra.
Qed.

(** C3 (as amended). For a run of at least one step the rate is a linear
    interpolation from the initial to the peak rate on the steps below
    [int(0.15 * total_steps)] and a cosine decay from the peak to the
    final rate on the later steps up to [total_steps]; it equals the peak
    rate at the warmup boundary and the final rate at step [total_steps],
    and, when the warmup phase is not empty, the initial rate at step 0. *)
Theorem lr_schedule_piecewise total_steps :
  (1 <= total_steps)%Z ->
  let w := warmup_steps total_steps in
  (forall step, (0 <= step < w)%Z ->
     scheduled_lr total_steps step =
       Ok (INITIAL_LR + (PEAK_LR - INITIAL_LR) * (IZR step / IZR w))) /\
  (forall step, (w <= step <= total_steps)%Z ->
     scheduled_lr total_steps step =
       Ok (FINAL_LR + (PEAK_LR - FINAL_LR)
           * ((1 + cos (PI * (IZR (step - w) / IZR (total_steps - w)))) / 2))) /\
  ((1 <= w)%Z -> scheduled_lr total_steps 0 = Ok INITIAL_LR) /\
  scheduled_lr total_steps w = Ok PEAK_LR /\
  scheduled_lr total_steps total_steps = Ok FINAL_LR.
Proof.
  intros Ht w. pose proof (warmup_steps_lt _ Ht) as Hlt. fold w in Hlt.
  split; [|split; [|split; [|split]]].
  - intros step Hs. apply lr_warmup_value. exact Hs.
  - intros step [Hs _]. apply lr_decay_value; assumption.
  - intros Hw. rewrite lr_warmup_value by (fold w; lia). f_equal. fold w.
    unfold Rdiv. rewrite Rmult_0_l. lra.
  - rewrite lr_decay_value by (fold w; lia). f_equal. fold w.
    rewrite Z.sub_diag. unfold Rdiv. rewrite Rmult_0_l, Rmult_0_r, cos_0. lra.
  - rewrite lr_decay_value by (fold w; lia). f_equal. fold w.
    assert (IZR (total_steps - w) <> 0) by (apply not_0_IZR; lia).
    replace (IZR (total_steps - w) / IZR (total_steps - w)) with 1
      by (field; assumption).
    rewrite Rmult_1_r, cos_PI. lra.
Qed.

Lemma lr_schedule_piecewise_witness :
  scheduled_lr 1000 0 = Ok INITIAL_LR /\
  scheduled_lr 1000 150 = Ok PEAK_LR /\
  scheduled_lr 1000 1000 = Ok FINAL_LR.
Proof.
  assert (Ht : (1 <= 1000)%Z) by lia.
  assert (Hw : (1 <= warmup_steps 1000)%Z) by (vm_compute; discriminate).
  destruct (lr_schedule_piecewise 1000 Ht) as (_ & _ & H0 & Hb & Ht').
  split; [exact (H0 Hw)|]. split; [exact Hb | exact Ht'].
Defined.

(** C3 (as stated) fails for a run of 5 steps: [int(0.15 * 5)] is 0, the
    warmup phase is empty, and the rate at step 0 is already the peak
    rate, not the initial one. *)
Lemma lr_at_step_0_is_peak_for_5_steps :
  scheduled_lr 5 0 = Ok PEAK_LR /\ scheduled_lr 5 0 <> Ok INITIAL_LR.
Proof.
  assert (H : scheduled_lr 5 0 = Ok PEAK_LR).
  { unfold scheduled_lr, lr_lambda.
    replace (warmup_steps 5) with 0%Z by reflexivity.
    unfold fmap, Py.bind. cbn [Z.ltb Z.compare Z.sub Z.eqb Z.add Z.opp].
    f_equal.
    change (IZR (0 - 0)) with 0. change (IZR (5 - 0)) with 5.
    replace (PI * (0 / 5) + PI) with PI by lra.
    rewrite cos_PI.
    unfold INITIAL_LR, PEAK_LR, FINAL_LR. lra. }
  split; [exact H|]. rewrite H. intros [= Heq].
  unfold INITIAL_LR, PEAK_LR in Heq. lra.
Qed.
End ScheduleFacts.

(** ** The EMA update *)

Section EmaFacts.
Import WorldModel.
Local Open Scope R_scope.

Lemma add_mul_interpolate m (s o : Tensor) :
  length s = length o ->
  add_ (mul_ s m) (mul o (1 - m)) = Ok (interpolate m s o).
Proof.
  intros Hlen. unfold add_, mul_, mul.
  rewrite !length_map. destruct (decide _) as [_|Hne]; [|contradiction].
  f_equal. unfold interpolate. clear Hlen. revert o.
  induction s as [|x s IH]; intros [|y o]; simpl; try reflexivity.
  f_equal; [lra | apply IH].
Qed.

Lemma update_ema_loop_spec m pairs : forall h,
  NoDup pairs.*1 ->
  (forall e, e ∈ pairs.*1 -> e ∉ pairs.*2) ->
  Forall (mirrored h) pairs ->
  exists h', update_ema_loop m pairs h = Ok h' /\
    (forall e p pe pp, (e, p) ∈ pairs -> h !! e = Some pe -> h !! p = Some pp ->
       h' !! e = Some (set_data pe (interpolate m (data pe) (data pp)))) /\
    (forall id, id ∉ pairs.*1 -> h' !! id = h !! id).
Proof.
  induction pairs as [|[e p] rest IH]; intros h Hnd Hdisj Hall.
  - exists h. split; [reflexivity|]. split; [|reflexivity].
    intros e p pe pp Hin. inversion Hin.
  - simpl in Hnd. apply NoDup_cons in Hnd as [He Hnd].
    apply Forall_cons in Hall as [(pe & pp & Hpe & Hpp & Hlen) Hall].
    simpl in Hpe, Hpp.
    assert (Hpe_ne : p <> e).
    { intros ->. apply (Hdisj e); simpl; left. }
    set (h1 := <[e := set_data pe (interpolate m (data pe) (data pp))]> h).
    assert (Hstep : update_ema_step m h (e, p) = Ok h1).
    { unfold update_ema_step. rewrite Hpe, Hpp.
      rewrite add_mul_interpolate by exact Hlen. reflexivity. }
    destruct (IH h1) as (h' & Hrun & Hpairs & Hother).
    + exact Hnd.
    + intros e' He' Hp'. apply (Hdisj e'); simpl; right; assumption.
    + apply Forall_forall. intros [e' p'] Hin.
      rewrite Forall_forall in Hall.
      destruct (Hall _ Hin) as (pe' & pp' & H1 & H2 & H3). simpl in H1, H2.
      exists pe', pp'. simpl. unfold h1.
      assert (e <> e').
      { intros <-. apply He. apply list_elem_of_fmap. exists (e, p'). auto. }
      assert (e <> p').
      { intros <-. apply (Hdisj e); simpl; [left|right].
        apply list_elem_of_fmap. exists (e', e). auto. }
      rewrite !lookup_insert_ne by assumption. auto.
    + exists h'. split; [cbn [update_ema_loop]; rewrite Hstep; exact Hrun|]. split.
      * intros e' p' pe' pp' Hin He' Hp'.
        apply elem_of_cons in Hin as [[= -> ->]|Hin].
        -- rewrite Hother by exact He. unfold h1. rewrite lookup_insert_eq.
           rewrite Hpe in He'. rewrite Hpp in Hp'.
           injection He' as <-. injection Hp' as <-. reflexivity.
        -- assert (e <> e').
           { intros <-. apply He. apply list_elem_of_fmap. exists (e, p'). auto. }
           assert (e <> p').
           { intros <-. apply (Hdisj e); simpl; [left|right].
             apply list_elem_of_fmap. exists (e', e). auto. }
           apply (Hpairs e' p'); [exact Hin| |]; unfold h1;
             rewrite lookup_insert_ne by assumption; assumption.
      * intros id Hid. simpl in Hid. apply not_elem_of_cons in Hid as [Hne Hid].
        rewrite Hother by exact Hid. unfold h1.
        rewrite lookup_insert_ne by (intros ->; apply Hne; reflexivity).
        reflexivity.
Qed.

Lemma update_ema_spec (wm : WorldModel.t) (m : R) (h : Store) :
  ema_mirror wm h ->
  exists h', update_ema wm m h = Ok h' /\
    (forall i e p pe pp,
       ema_encoder wm !! i = Some e -> encoder wm !! i = Some p ->
       h !! e = Some pe -> h !! p = Some pp ->
       h' !! e = Some (set_data pe (interpolate m (data pe) (data pp)))) /\
    (forall id, id ∉ ema_encoder wm -> h' !! id = h !! id).
Proof.
  intros (Hnd & Hdisj & Hmir).
  pose proof (Forall2_length _ _ _ Hmir) as Hlen.
  assert (Hfst : (zip (ema_encoder wm) (encoder wm)).*1 = ema_encoder wm)
    by (apply fst_zip; lia).
  assert (Hsnd : (zip (ema_encoder wm) (encoder wm)).*2 = encoder wm)
    by (apply snd_zip; lia).
  destruct (update_ema_loop_spec m (zip (ema_encoder wm) (encoder wm)) h)
    as (h' & Hrun & Hpairs & Hother).
  - rewrite Hfst. exact Hnd.
  - rewrite Hfst, Hsnd. exact Hdisj.
  - apply Forall_forall. intros [e p] Hin.
    apply elem_of_lookup_zip_with in Hin as (i & e' & p' & [= -> ->] & He & Hp).
    exact (Forall2_lookup_lr _ _ _ _ _ _ Hmir He Hp).
  - exists h'. split; [exact Hrun|]. split.
    + intros i e p pe pp He Hp. apply Hpairs.
      apply elem_of_lookup_zip_with. exists i, e, p. auto.
    + intros id Hid. apply Hother. rewrite Hfst. exact Hid.
Qed.

(** C4. For every momentum, [update_ema] returns, and afterwards every
    shadow parameter holds [m * old_shadow + (1 - m) * online] entry by
    entry, with its flag, gradient and shape as before, while every cell
    that is not a shadow parameter is left as it was. *)
Theorem update_ema_is_interpolation (wm : WorldModel.t) (m : R) (h : Store) :
  ema_mirror wm h ->
  exists h', update_ema wm m h = Ok h' /\
    (forall i e p pe pp,
       ema_encoder wm !! i = Some e -> encoder wm !! i = Some p ->
       h !! e = Some pe -> h !! p = Some pp ->
       exists pe',
         h' !! e = Some pe' /\
         data pe' = interpolate m (data pe) (data pp) /\
         requires_grad pe' = requires_grad pe /\ grad pe' = grad pe /\
         length (data pe') = length (data pe)) /\
    (forall id, id ∉ ema_encoder wm -> h' !! id = h !! id).
Proof.
  intros Hmir.
  destruct (update_ema_spec wm m h Hmir) as (h' & Hrun & Hema & Hother).
  exists h'. split; [exact Hrun|]. split; [|exact Hother].
  intros i e p pe pp He Hp Hpe Hpp.
  exists (set_data pe (interpolate m (data pe) (data pp))).
  split; [exact (Hema i e p pe pp He Hp Hpe Hpp)|].
  destruct Hmir as (_ & _ & Hpairs).
  destruct (Forall2_lookup_lr _ _ _ _ _ _ Hpairs He Hp)
    as (pe0 & pp0 & Hpe0 & Hpp0 & Hlen). cbn [fst snd] in Hpe0, Hpp0.
  rewrite Hpe in Hpe0. rewrite Hpp in Hpp0.
  injection Hpe0 as <-. injection Hpp0 as <-.
  simpl. repeat split.
  unfold interpolate. rewrite length_zip_with. lia.
Qed.
End EmaFacts.

(** ** The parameters handed to the optimizer *)

Section UniqueParams.
Context {M1 M2 : Type} `{NNModule M1, NNModule M2}.

Lemma get_unique_params_NoDup (model1 : M1) (model2 : M2) :
  NoDup (get_unique_params model1 model2).
Proof. unfold get_unique_params. apply NoDup_elements. Qed.

Lemma elem_of_get_unique_params (model1 : M1) (model2 : M2) p :
  p ∈ get_unique_params model1 model2 <->
  p ∈ parameters model1 \/ p ∈ parameters model2.
Proof.
  unfold get_unique_params.
  rewrite elem_of_elements, elem_of_union, !elem_of_list_to_set. reflexivity.
Qed.

Lemma count_get_unique_params (model1 : M1) (model2 : M2) p :
  count_occ Pos.eq_dec (get_unique_params model1 model2) p =
    if bool_decide (p ∈ parameters model1 \/ p ∈ parameters model2)
    then 1%nat else 0%nat.
Proof.
  case_bool_decide as Hin.
  - apply NoDup_count_occ'; [apply NoDup_ListNoDup, get_unique_params_NoDup|].
    apply list_elem_of_In, elem_of_get_unique_params, Hin.
  - apply count_occ_not_In. intros Hp. apply Hin.
    apply elem_of_get_unique_params, list_elem_of_In, Hp.
Qed.
End UniqueParams.

Lemma create_dynamics_models_shares init h :
  let '((idm, wm), _) := create_dynamics_models init h in
  IDM.encoder idm = WorldModel.encoder wm /\
  IDM.ema_encoder idm = WorldModel.ema_encoder wm.
Proof.
  unfold create_dynamics_models, WorldModel.__init__, IDM.__init__, alloc.
  repeat match goal with
         | |- context [alloc_all ?a ?b] => destruct (alloc_all a b)
         | |- context [deepcopy ?a ?b] => destruct (deepcopy a b)
         end.
  simpl. split; reflexivity.
Qed.

(** C10. In the list [get_unique_params] returns, a parameter of either
    model occurs exactly once and nothing else occurs; for the two models
    [create_dynamics_models] builds, which share the vision encoder, every
    encoder parameter belongs to both models and reaches the optimizer
    once. *)
Theorem get_unique_params_once :
  (forall (M1 M2 : Type) (I1 : NNModule M1) (I2 : NNModule M2)
          (model1 : M1) (model2 : M2) p,
     count_occ Pos.eq_dec (get_unique_params model1 model2) p =
       if bool_decide (p ∈ parameters model1 \/ p ∈ parameters model2)
       then 1%nat else 0%nat) /\
  (forall init h p,
     let '((idm, wm), _) := create_dynamics_models init h in
     p ∈ WorldModel.encoder wm ->
     p ∈ parameters idm /\ p ∈ parameters wm /\
     count_occ Pos.eq_dec (get_unique_params idm wm) p = 1%nat).
Proof.
  split.
  - intros. apply count_get_unique_params.
  - intros init h p.
    pose proof (create_dynamics_models_shares init h) as Hshare.
    destruct (create_dynamics_models init h) as [[idm wm] h'].
    destruct Hshare as [Henc _]. intros Hp.
    assert (Hidm : p ∈ parameters idm).
    { unfold parameters, IDM_NNModule, IDM.parameters.
      rewrite elem_of_remove_dups, !elem_of_cons, !elem_of_app, Henc. auto. }
    assert (Hwm : p ∈ parameters wm).
    { unfold parameters, WorldModel_NNModule, WorldModel.parameters.
      rewrite elem_of_remove_dups, !elem_of_app. auto. }
    split; [exact Hidm|]. split; [exact Hwm|].
    rewrite count_get_unique_params.
    rewrite bool_decide_eq_true_2 by (left; exact Hidm). reflexivity.
Qed.

(** ** The training step *)

Section ModifyFacts.
Variable f : positive -> Param -> Param.

Lemma modify_lookup_notin ids : forall (h : Store) id,
  id ∉ ids -> modify f ids h !! id = h !! id.
Proof.
  unfold modify. induction ids as [|j ids IH]; intros h id Hid; [reflexivity|].
  apply not_elem_of_cons in Hid as [Hne Hid]. simpl.
  rewrite IH by exact Hid.
  destruct (h !! j); [|reflexivity].
  rewrite lookup_insert_ne by (intros ->; apply Hne; reflexivity). reflexivity.
Qed.

(** A property of one cell that every pass of the loop body keeps. *)
Lemma modify_lookup_inv (Q : Param -> Prop) id :
  (forall q, Q q -> Q (f id q)) ->
  forall ids (h : Store) p, h !! id = Some p -> Q p ->
  exists p', modify f ids h !! id = Some p' /\ Q p'.
Proof.
  intros HQ. unfold modify.
  induction ids as [|j ids IH]; intros h p Hp Hq; simpl; [eauto|].
  destruct (decide (j = id)) as [->|Hne].
  - rewrite Hp. apply (IH _ (f id p)); [apply lookup_insert_eq | apply HQ, Hq].
  - destruct (h !! j); [|eauto].
    apply (IH _ p); [rewrite lookup_insert_ne by exact Hne; exact Hp | exact Hq].
Qed.

Lemma modify_lookup_fixed ids (h : Store) id p :
  h !! id = Some p -> f id p = p -> modify f ids h !! id = Some p.
Proof.
  intros Hp Hfix.
  destruct (modify_lookup_inv (fun q => q = p) id) with (ids := ids) (h := h) (p := p)
    as (p' & Hp' & ->); auto.
  intros q ->. exact Hfix.
Qed.
End ModifyFacts.

Lemma set_grad_None_id p : grad p = None -> set_grad p None = p.
Proof. destruct p as [d r g]. simpl. intros ->. reflexivity. Qed.

Lemma backward_lookup g (h : Store) id :
  backward g h !! id =
    (fun p => if requires_grad p
              then match g id with
                   | Some gi => set_grad p (Some (accumulate (grad p) gi))
                   | None => p
                   end
              else p) <$> h !! id.
Proof.
  unfold backward. rewrite map_lookup_imap.
  destruct (h !! id); reflexivity.
Qed.

Lemma backward_lookup_frozen g (h : Store) id p :
  h !! id = Some p -> requires_grad p = false -> backward g h !! id = Some p.
Proof. intros Hp Hrg. rewrite backward_lookup, Hp. simpl. rewrite Hrg. reflexivity. Qed.

Lemma backward_lookup_data g (h : Store) id p :
  h !! id = Some p ->
  exists p', backward g h !! id = Some p' /\ data p' = data p.
Proof.
  intros Hp. rewrite backward_lookup, Hp. simpl. eexists. split; [reflexivity|].
  destruct (requires_grad p); [|reflexivity]. destruct (g id); reflexivity.
Qed.

Section TrainFacts.
Import Train.
Variable TrainBatch : Type.
Variable loss_grad : Store -> TrainBatch -> positive -> option Tensor.
Variable OptState : Type.
Variable adamw : OptState -> positive -> Param -> Tensor -> Tensor.
Variable adamw_advance : OptState -> OptState.

(** The optimizer updates a tensor in place: its shape stays. *)
Hypothesis adamw_shape : forall st id p g,
  length (adamw st id p g) = length (data p).

Abbreviation zero_grad_world := (optimizer_zero_grad OptState).
Abbreviation backward_world := (loss_backward TrainBatch loss_grad OptState).
Abbreviation step_world := (optimizer_step OptState adamw adamw_advance).
Abbreviation train_step' :=
  (train_step TrainBatch loss_grad OptState adamw adamw_advance).

(** A frozen cell without gradient goes unchanged through
    [optimizer.zero_grad()], [loss.backward()] and [optimizer.step()]. *)
Lemma frozen_through_gradient_phase (w : World OptState) h0 batch id p :
  heap w !! id = Some p -> requires_grad p = false -> grad p = None ->
  heap (zero_grad_world w) !! id = Some p /\
  heap (backward_world h0 batch (zero_grad_world w)) !! id = Some p /\
  heap (step_world (backward_world h0 batch (zero_grad_world w))) !! id = Some p.
Proof.
  intros Hp Hrg Hg.
  assert (H1 : heap (zero_grad_world w) !! id = Some p).
  { simpl. unfold zero_grad. apply modify_lookup_fixed; [exact Hp|].
    apply set_grad_None_id, Hg. }
  assert (H2 : heap (backward_world h0 batch (zero_grad_world w)) !! id = Some p).
  { simpl. apply backward_lookup_frozen; [exact H1 | exact Hrg]. }
  split; [exact H1|]. split; [exact H2|].
  simpl. apply modify_lookup_fixed; [exact H2|].
  unfold step_one. rewrite Hg. reflexivity.
Qed.

(** Any cell keeps the shape of its data through the same three calls. *)
Lemma shape_through_gradient_phase (w : World OptState) h0 batch id p :
  heap w !! id = Some p ->
  exists p', heap (step_world (backward_world h0 batch (zero_grad_world w))) !! id
               = Some p' /\
             length (data p') = length (data p).
Proof.
  intros Hp.
  destruct (modify_lookup_inv (fun _ q => set_grad q None)
              (fun q => data q = data p) id) with
    (ids := param_groups (optimizer w)) (h := heap w) (p := p)
    as (p1 & Hp1 & Hd1); [intros q Hq; exact Hq | exact Hp | reflexivity |].
  destruct (backward_lookup_data (loss_grad h0 batch) _ id p1 Hp1) as (p2 & Hp2 & Hd2).
  destruct (modify_lookup_inv (step_one OptState adamw (state (optimizer w)))
              (fun q => length (data q) = length (data p)) id) with
    (ids := param_groups (optimizer w))
    (h := backward (loss_grad h0 batch)
            (zero_grad (param_groups (optimizer w)) (heap w))) (p := p2)
    as (p3 & Hp3 & Hd3).
  - intros q Hq. unfold step_one. destruct (grad q); [|exact Hq].
    simpl. rewrite adamw_shape. exact Hq.
  - exact Hp2.
  - rewrite Hd2, Hd1. reflexivity.
  - exists p3. split; [exact Hp3 | exact Hd3].
Qed.

Lemma zero_grad_frozen_fixed ids (h : Store) id p :
  h !! id = Some p -> grad p = None -> zero_grad ids h !! id = Some p.
Proof.
  intros Hp Hg. unfold zero_grad. apply modify_lookup_fixed; [exact Hp|].
  apply set_grad_None_id, Hg.
Qed.

Lemma zero_grad_data ids (h : Store) id p :
  h !! id = Some p ->
  exists p', zero_grad ids h !! id = Some p' /\ data p' = data p.
Proof.
  intros Hp. unfold zero_grad.
  apply (modify_lookup_inv _ (fun q => data q = data p) id) with (p := p);
    [intros q Hq; exact Hq | exact Hp | reflexivity].
Qed.

Lemma interpolate_length m (s o : Tensor) :
  length s = length o -> length (WorldModel.interpolate m s o) = length s.
Proof. intros Hlen. unfold WorldModel.interpolate. rewrite length_zip_with. lia. Qed.

(** One training step from the starting conditions. *)
Lemma train_step_spec idm wm index batch (w : World OptState) :
  WorldModel.ema_mirror wm (heap w) ->
  ema_frozen wm (heap w) ->
  let w_bwd := backward_world (heap w) batch (zero_grad_world w) in
  let w_opt := step_world w_bwd in
  exists w', train_step' idm wm index batch w = Ok w' /\
    ema_frozen wm (heap w_bwd) /\
    (forall e, e ∈ WorldModel.ema_encoder wm -> heap w_opt !! e = heap w !! e) /\
    (forall i e p pe pp,
       WorldModel.ema_encoder wm !! i = Some e -> WorldModel.encoder wm !! i = Some p ->
       heap w !! e = Some pe -> heap w_opt !! p = Some pp ->
       heap w' !! e
         = Some (set_data pe (WorldModel.interpolate start_momentum (data pe) (data pp)))) /\
    trace w' = trace w ++ [IdmLabel; WmLabel; OptimizerZeroGrad; LossBackward;
                           OptimizerStep; UpdateEma start_momentum;
                           WmZeroGrad; IdmZeroGrad] /\
    WorldModel.ema_mirror wm (heap w') /\
    ema_frozen wm (heap w').
Proof.
  intros Hmir Hfrozen w_bwd w_opt.
  assert (Hkeep : forall e, e ∈ WorldModel.ema_encoder wm ->
            exists pe, heap w !! e = Some pe /\ requires_grad pe = false /\
                       grad pe = None /\
                       heap w_bwd !! e = Some pe /\ heap w_opt !! e = Some pe).
  { intros e He. destruct (Hfrozen e He) as (pe & Hpe & Hrg & Hg).
    destruct (frozen_through_gradient_phase w (heap w) batch e pe Hpe Hrg Hg)
      as (_ & H2 & H3).
    exists pe. auto 6. }
  destruct Hmir as (Hnd & Hdisj & Hpairs).
  assert (Hmir_opt : WorldModel.ema_mirror wm (heap w_opt)).
  { split; [exact Hnd|]. split; [exact Hdisj|].
    apply Forall2_same_length_lookup. split; [exact (Forall2_length _ _ _ Hpairs)|].
    intros i e p He Hp.
    destruct (Forall2_lookup_lr _ _ _ _ _ _ Hpairs He Hp)
      as (pe & pp & Hpe & Hpp & Hlen). cbn [fst snd] in Hpe, Hpp.
    destruct (Hkeep e) as (pe' & Hpe' & _ & _ & _ & Hopt);
      [apply list_elem_of_lookup; eauto|].
    rewrite Hpe in Hpe'. injection Hpe' as <-.
    destruct (shape_through_gradient_phase w (heap w) batch p pp Hpp)
      as (pp' & Hpp' & Hlen').
    exists pe, pp'. simpl. split; [exact Hopt|]. split; [exact Hpp'|]. lia. }
  destruct (update_ema_spec wm start_momentum (heap w_opt) Hmir_opt)
    as (h4 & Hrun & Hema & Hother).
  set (h5 := zero_grad (parameters wm) h4).
  set (h6 := zero_grad (parameters idm) h5).
  assert (Hfinal : forall i e p pe pp,
            WorldModel.ema_encoder wm !! i = Some e -> WorldModel.encoder wm !! i = Some p ->
            heap w !! e = Some pe -> heap w_opt !! p = Some pp ->
            h6 !! e = Some (set_data pe (WorldModel.interpolate start_momentum (data pe) (data pp)))).
  { intros i e p pe pp He Hp Hpe Hpp.
    destruct (Hkeep e) as (pe' & Hpe' & _ & Hg & _ & Hopt);
      [apply list_elem_of_lookup; eauto|].
    rewrite Hpe in Hpe'. injection Hpe' as <-.
    pose proof (Hema i e p pe pp He Hp Hopt Hpp) as H4.
    unfold h6, h5.
    apply zero_grad_frozen_fixed; [|exact Hg].
    apply zero_grad_frozen_fixed; [exact H4 | exact Hg]. }
  eexists. split.
  { unfold train_step.
    match goal with
    | |- Py.bind (WorldModel.update_ema _ _ ?h) _ = _ =>
        change h with (heap w_opt)
    end.
    rewrite Hrun. cbn [Py.bind]. reflexivity. }
  cbn [heap emit optimizer trace optimizer_step loss_backward optimizer_zero_grad].
  split.
  { intros e He. destruct (Hkeep e He) as (pe & _ & Hrg & Hg & Hb & _). eauto. }
  split.
  { intros e He. destruct (Hkeep e He) as (pe & Hpe & _ & _ & _ & Hopt). congruence. }
  split; [exact Hfinal|].
  split.
  { rewrite <- !app_assoc. reflexivity. }
  fold h5. fold h6.
  split.
  - split; [exact Hnd|]. split; [exact Hdisj|].
    apply Forall2_same_length_lookup. split; [exact (Forall2_length _ _ _ Hpairs)|].
    intros i e p He Hp.
    destruct Hmir_opt as (_ & _ & Hpairs_opt).
    destruct (Forall2_lookup_lr _ _ _ _ _ _ Hpairs_opt He Hp)
      as (pe & pp & Hpe & Hpp & Hlen). cbn [fst snd] in Hpe, Hpp.
    destruct (Hkeep e) as (pe' & Hpe' & _ & _ & _ & Hopt);
      [apply list_elem_of_lookup; eauto|].
    rewrite Hopt in Hpe. injection Hpe as <-.
    assert (Hp4 : h4 !! p = Some pp).
    { rewrite Hother; [exact Hpp|]. intros Hin. apply (Hdisj p Hin).
      apply list_elem_of_lookup. eauto. }
    destruct (zero_grad_data (parameters wm) h4 p pp Hp4) as (p5 & Hp5 & Hd5).
    destruct (zero_grad_data (parameters idm) h5 p p5 Hp5) as (p6 & Hp6 & Hd6).
    eexists _, p6. simpl.
    split; [exact (Hfinal i e p pe' pp He Hp Hpe' Hpp)|].
    split; [exact Hp6|]. simpl.
    rewrite interpolate_length by exact Hlen. rewrite Hd6, Hd5. exact Hlen.
  - intros e He.
    apply list_elem_of_lookup in He as Hi. destruct Hi as [i Hi].
    destruct (Hkeep e He) as (pe & Hpe & Hrg & Hg & _ & Hopt).
    destruct (Forall2_lookup_l _ _ _ _ _ Hpairs Hi) as (p & Hp & _).
    destruct (Forall2_lookup_lr _ _ _ _ _ _ Hpairs Hi Hp)
      as (? & pp0 & _ & Hpp0 & _). cbn [fst snd] in Hpp0.
    destruct (shape_through_gradient_phase w (heap w) batch p pp0 Hpp0)
      as (pp & Hpp & _).
    eexists. split; [exact (Hfinal i e p pe pp Hi Hp Hpe Hpp)|].
    simpl. auto.
Qed.
(** Over the whole loop: it runs to its end, the starting conditions hold
    after it, and the trace has gained one [optimizer.step()] and one
    [update_ema] per batch. *)
Lemma train_loop_spec idm wm batches : forall index (w : World OptState),
  WorldModel.ema_mirror wm (heap w) ->
  ema_frozen wm (heap w) ->
  exists w',
    train_loop TrainBatch loss_grad OptState adamw adamw_advance idm wm index batches w
      = Ok w' /\
    WorldModel.ema_mirror wm (heap w') /\ ema_frozen wm (heap w') /\
    length (filter is_optimizer_step (trace w'))
      = (length (filter is_optimizer_step (trace w)) + length batches)%nat /\
    length (filter is_update_ema (trace w'))
      = (length (filter is_update_ema (trace w)) + length batches)%nat.
Proof.
  induction batches as [|batch rest IH]; intros index w Hmir Hfrozen; simpl.
  - exists w. rewrite !Nat.add_0_r. auto.
  - destruct (train_step_spec idm wm index batch w Hmir Hfrozen)
      as (w1 & -> & _ & _ & _ & Htrace & Hmir1 & Hfrozen1).
    cbn [Py.bind].
    destruct (IH (index + 1)%Z w1 Hmir1 Hfrozen1) as (w' & Hrun & Hm & Hf & Hs & He).
    exists w'. split; [exact Hrun|]. split; [exact Hm|]. split; [exact Hf|].
    rewrite Hs, He, Htrace, !filter_app, !length_app. simpl. lia.
Qed.
End TrainFacts.

(** ** Construction of the two models *)

Section ConstructionFacts.
Lemma modify_lookup_is_Some f ids : forall (h : Store) id,
  is_Some (modify f ids h !! id) <-> is_Some (h !! id).
Proof.
  unfold modify. induction ids as [|j ids IH]; intros h id; simpl; [reflexivity|].
  rewrite IH. destruct (h !! j) as [q|] eqn:Hj; [|reflexivity].
  destruct (decide (j = id)) as [->|Hne].
  - rewrite lookup_insert_eq, Hj. split; eauto.
  - rewrite lookup_insert_ne by exact Hne. reflexivity.
Qed.

Lemma modify_lookup_in f ids : forall (h : Store) id,
  NoDup ids -> id ∈ ids -> modify f ids h !! id = f id <$> h !! id.
Proof.
  unfold modify. induction ids as [|j ids IH]; intros h id Hnd Hin; [inversion Hin|].
  apply NoDup_cons in Hnd as [Hj Hnd]. simpl.
  apply elem_of_cons in Hin as [->|Hin].
  - pose proof (modify_lookup_notin f ids) as Hout. unfold modify in Hout.
    rewrite Hout by exact Hj.
    destruct (h !! j) as [q|] eqn:Hq; [|rewrite Hq; reflexivity].
    rewrite lookup_insert_eq. reflexivity.
  - rewrite IH by assumption.
    destruct (h !! j); [|reflexivity].
    rewrite lookup_insert_ne by (intros ->; contradiction). reflexivity.
Qed.

Lemma alloc_all_spec ps : forall h ids h',
  heap_wf h -> alloc_all ps h = (ids, h') ->
  heap_wf h' /\ (next h <= next h')%positive /\
  length ids = length ps /\ NoDup ids /\
  (forall id, id ∈ ids -> (next h <= id < next h')%positive) /\
  (forall i id, ids !! i = Some id -> cells h' !! id = ps !! i) /\
  (forall id, (id < next h)%positive -> cells h' !! id = cells h !! id).
Proof.
  induction ps as [|p ps IH]; intros h ids h' Hwf Halloc; simpl in Halloc.
  - injection Halloc as <- <-.
    split; [exact Hwf|]. split; [lia|]. split; [reflexivity|].
    split; [constructor|]. split; [intros id Hid; inversion Hid|].
    split; [intros i id Hi; inversion Hi | reflexivity].
  - set (h1 := {| cells := <[next h := p]> (cells h); next := Pos.succ (next h) |}) in *.
    destruct (alloc_all ps h1) as [ids1 h2] eqn:Hrec.
    injection Halloc as <- <-.
    assert (Hwf1 : heap_wf h1).
    { intros id q Hq. simpl in *.
      destruct (decide (next h = id)) as [<-|Hne]; [lia|].
      rewrite lookup_insert_ne in Hq by exact Hne.
      specialize (Hwf id q Hq). lia. }
    destruct (IH h1 ids1 h2 Hwf1 Hrec) as (Hwf2 & Hle & Hlen & Hnd & Hrange & Hnew & Hold).
    simpl in Hle, Hrange, Hold.
    split; [exact Hwf2|]. split; [lia|]. split; [simpl; f_equal; exact Hlen|].
    split.
    { apply NoDup_cons. split; [|exact Hnd].
      intros Hin. specialize (Hrange _ Hin). lia. }
    split.
    { intros id Hid. apply elem_of_cons in Hid as [->|Hid]; [lia|].
      specialize (Hrange _ Hid). lia. }
    split.
    { intros [|i] id Hi; simpl in *.
      - injection Hi as <-. rewrite Hold by lia. apply lookup_insert_eq.
      - apply Hnew, Hi. }
    intros id Hid. rewrite Hold by lia.
    apply lookup_insert_ne. lia.
Qed.

Lemma omap_lookup_all (cs : Store) (ids : list positive) (ps : list Param) :
  length ids = length ps ->
  (forall i id, ids !! i = Some id -> cs !! id = ps !! i) ->
  omap (fun id => cs !! id) ids = ps.
Proof.
  revert ps. induction ids as [|id ids IH]; intros [|p ps] Hlen Hall;
    try discriminate; [reflexivity|].
  simpl. rewrite (Hall O id eq_refl). simpl. f_equal.
  apply IH; [simpl in Hlen; lia|]. intros i j Hi. apply (Hall (S i) j Hi).
Qed.

Lemma encoders_built_alloc_all g ts enc ema ps h ids h' :
  encoders_built g ts enc ema h -> alloc_all ps h = (ids, h') ->
  encoders_built g ts enc ema h'.
Proof.
  intros (Hwf & Hl1 & Hl2 & Hnd & Hdisj & Hlt & Henc & Hema) Halloc.
  destruct (alloc_all_spec ps h ids h' Hwf Halloc) as (Hwf' & Hle & _ & _ & _ & _ & Hold).
  split; [exact Hwf'|]. split; [exact Hl1|]. split; [exact Hl2|].
  split; [exact Hnd|]. split; [exact Hdisj|].
  split; [intros id Hid; specialize (Hlt id Hid); lia|].
  split.
  - intros i id Hi. rewrite Hold; [apply Henc, Hi|].
    apply Hlt, elem_of_app. left. apply list_elem_of_lookup. eauto.
  - intros i id Hi. rewrite Hold; [apply Hema, Hi|].
    apply Hlt, elem_of_app. right. apply list_elem_of_lookup. eauto.
Qed.

Lemma encoders_built_alloc g ts enc ema p h :
  encoders_built g ts enc ema h -> encoders_built g ts enc ema (alloc p h).2.
Proof.
  intros Hb. apply (encoders_built_alloc_all g ts enc ema [p] h [next h]); [exact Hb|].
  reflexivity.
Qed.

Lemma encoders_built_freeze g ts enc ema h :
  encoders_built g ts enc ema h ->
  encoders_built (fun t => set_requires_grad (g t) false) ts enc ema
    {| cells := requires_grad_ false ema (cells h); next := next h |}.
Proof.
  intros (Hwf & Hl1 & Hl2 & Hnd & Hdisj & Hlt & Henc & Hema).
  unfold requires_grad_.
  split.
  { intros id p Hp. simpl in *.
    assert (His : is_Some (cells h !! id)).
    { apply (modify_lookup_is_Some (fun _ q => set_requires_grad q false) ema). eauto. }
    destruct His as [q Hq]. apply (Hwf id q Hq). }
  split; [exact Hl1|]. split; [exact Hl2|]. split; [exact Hnd|].
  split; [exact Hdisj|]. split; [exact Hlt|]. simpl. split.
  - intros i id Hi. rewrite modify_lookup_notin; [apply Henc, Hi|].
    intros Hin. apply (Hdisj id Hin). apply list_elem_of_lookup. eauto.
  - intros i id Hi. rewrite modify_lookup_in; [|exact Hnd|apply list_elem_of_lookup; eauto].
    rewrite (Hema i id Hi). destruct (ts !! i); reflexivity.
Qed.

Lemma WorldModel_init_built encoder_init action_encoder_init decoder_init h wm h' :
  heap_wf h ->
  WorldModel.__init__ encoder_init action_encoder_init decoder_init h = (wm, h') ->
  encoders_built frozen encoder_init (WorldModel.encoder wm)
    (WorldModel.ema_encoder wm) h'.
Proof.
  intros Hwf. unfold WorldModel.__init__.
  destruct (alloc_all (map fresh encoder_init) h) as [enc h1] eqn:H1.
  destruct (deepcopy enc h1) as [ema h2] eqn:H2.
  set (h3 := {| cells := requires_grad_ false ema (cells h2); next := next h2 |}).
  destruct (alloc_all (map fresh action_encoder_init) h3) as [ae h4] eqn:H4.
  destruct (alloc_all (map fresh decoder_init) h4) as [dec h5] eqn:H5.
  intros [= <- <-]. simpl.
  destruct (alloc_all_spec _ _ _ _ Hwf H1) as (Hwf1 & Hle1 & Hlen1 & Hnd1 & Hr1 & Hnew1 & Hold1).
  rewrite length_map in Hlen1.
  assert (Hcopy : omap (fun id => cells h1 !! id) enc = map fresh encoder_init).
  { apply omap_lookup_all; [rewrite length_map; exact Hlen1|]. exact Hnew1. }
  unfold deepcopy in H2. rewrite Hcopy in H2.
  destruct (alloc_all_spec _ _ _ _ Hwf1 H2) as (Hwf2 & Hle2 & Hlen2 & Hnd2 & Hr2 & Hnew2 & Hold2).
  rewrite length_map in Hlen2.
  assert (Hb2 : encoders_built fresh encoder_init enc ema
                  {| cells := cells h2; next := next h2 |}).
  { split; [exact Hwf2|]. split; [exact Hlen1|]. split; [exact Hlen2|].
    split; [exact Hnd2|]. split.
    { intros id Hema Henc. specialize (Hr1 id Henc). specialize (Hr2 id Hema). lia. }
    split.
    { intros id Hid. simpl. apply elem_of_app in Hid as [Hid|Hid].
      - specialize (Hr1 id Hid). lia.
      - specialize (Hr2 id Hid). lia. }
    simpl. split.
    - intros i id Hi. rewrite Hold2.
      + rewrite (Hnew1 i id Hi). apply list_lookup_fmap.
      + apply Hr1, list_elem_of_lookup. eauto.
    - intros i id Hi. rewrite (Hnew2 i id Hi). apply list_lookup_fmap. }
  eapply encoders_built_alloc_all; [|exact H5].
  eapply encoders_built_alloc_all; [|exact H4].
  apply (encoders_built_freeze fresh _ _ _ {| cells := cells h2; next := next h2 |}).
  exact Hb2.
Qed.
Lemma IDM_init_built ts enc ema tr mt dt ah h idm h' :
  encoders_built frozen ts enc ema h ->
  IDM.__init__ enc ema tr mt dt ah h = (idm, h') ->
  encoders_built frozen ts enc ema h' /\
  IDM.encoder idm = enc /\ IDM.ema_encoder idm = ema.
Proof.
  intros Hb. unfold IDM.__init__.
  set (h1 := {| cells := requires_grad_ false ema (cells h); next := next h |}).
  destruct (alloc_all (map fresh tr) h1) as [trs h2] eqn:H2.
  destruct (alloc (fresh mt) h2) as [m h3] eqn:H3.
  destruct (alloc (fresh dt) h3) as [d h4] eqn:H4.
  destruct (alloc_all (map fresh ah) h4) as [ahs h5] eqn:H5.
  intros [= <- <-]. simpl. split; [|split; reflexivity].
  eapply encoders_built_alloc_all; [|exact H5].
  replace h4 with (alloc (fresh dt) h3).2 by (rewrite H4; reflexivity).
  apply encoders_built_alloc.
  replace h3 with (alloc (fresh mt) h2).2 by (rewrite H3; reflexivity).
  apply encoders_built_alloc.
  eapply encoders_built_alloc_all; [|exact H2].
  exact (encoders_built_freeze frozen ts enc ema h Hb).
Qed.

(** The models [create_dynamics_models] builds satisfy the starting
    conditions of the training step. *)
Lemma create_dynamics_models_invariants init h :
  heap_wf h ->
  let '((idm, wm), h') := create_dynamics_models init h in
  IDM.ema_encoder idm = WorldModel.ema_encoder wm /\
  WorldModel.ema_mirror wm (cells h') /\ Train.ema_frozen wm (cells h').
Proof.
  intros Hwf. unfold create_dynamics_models.
  destruct (WorldModel.__init__ _ _ _ h) as [wm h1] eqn:Hwm.
  pose proof (WorldModel_init_built _ _ _ _ _ _ Hwf Hwm) as Hb1.
  unfold WorldModel.get_encoder, WorldModel.get_ema_encoder.
  destruct (IDM.__init__ _ _ _ _ _ _ h1) as [idm h2] eqn:Hidm.
  destruct (IDM_init_built _ _ _ _ _ _ _ _ _ _ Hb1 Hidm)
    as ((Hwf2 & Hl1 & Hl2 & Hnd & Hdisj & _ & Henc & Hema) & _ & Hshare).
  split; [exact Hshare|]. split.
  - split; [exact Hnd|]. split; [exact Hdisj|].
    apply Forall2_same_length_lookup. split; [congruence|].
    intros i e p He Hp.
    destruct (lookup_lt_is_Some_2 (encoder_init init) i) as [t Ht].
    { rewrite <- Hl1. apply (lookup_lt_Some _ _ _ Hp). }
    exists (frozen t), (fresh t). simpl.
    rewrite (Hema i e He), (Henc i p Hp), Ht. auto.
  - intros e He. apply list_elem_of_lookup in He as [i He].
    destruct (lookup_lt_is_Some_2 (encoder_init init) i) as [t Ht].
    { rewrite <- Hl2. apply (lookup_lt_Some _ _ _ He). }
    exists (frozen t). rewrite (Hema i e He), Ht. auto.
Qed.
End ConstructionFacts.

(** C5. The two models [create_dynamics_models] builds start with the
    shadow encoder mirroring the online encoder, frozen and without
    gradients. In a training step that starts so: the step returns; after
    [loss.backward()] the shadow parameters still have no gradient;
    [optimizer.step()] leaves them as they were; their only change is the
    interpolation of [update_ema] against the online weights the optimizer
    has just produced; the trace of the step has one [optimizer.step()]
    followed by one [update_ema]; and the starting conditions hold again
    for the next step. *)
Theorem ema_moved_only_by_update_ema :
  (forall init h, heap_wf h ->
     let '((idm, wm), h') := create_dynamics_models init h in
     IDM.ema_encoder idm = WorldModel.ema_encoder wm /\
     WorldModel.ema_mirror wm (cells h') /\ Train.ema_frozen wm (cells h')) /\
  (forall (TrainBatch : Type)
          (loss_grad : Store -> TrainBatch -> positive -> option Tensor)
          (OptState : Type)
          (adamw : OptState -> positive -> Param -> Tensor -> Tensor)
          (adamw_advance : OptState -> OptState),
     (forall st id p g, length (adamw st id p g) = length (data p)) ->
     forall idm wm index batch (w : Train.World OptState),
       WorldModel.ema_mirror wm (Train.heap w) ->
       Train.ema_frozen wm (Train.heap w) ->
       let w_bwd := Train.loss_backward TrainBatch loss_grad OptState
                      (Train.heap w) batch (Train.optimizer_zero_grad OptState w) in
       let w_opt := Train.optimizer_step OptState adamw adamw_advance w_bwd in
       exists w',
         Train.train_step TrainBatch loss_grad OptState adamw adamw_advance
           idm wm index batch w = Ok w' /\
         Train.ema_frozen wm (Train.heap w_bwd) /\
         (forall e, e ∈ WorldModel.ema_encoder wm ->
            Train.heap w_opt !! e = Train.heap w !! e) /\
         (forall i e p pe pp,
            WorldModel.ema_encoder wm !! i = Some e ->
            WorldModel.encoder wm !! i = Some p ->
            Train.heap w !! e = Some pe -> Train.heap w_opt !! p = Some pp ->
            Train.heap w' !! e
              = Some (set_data pe
                        (WorldModel.interpolate start_momentum (data pe) (data pp)))) /\
         Train.trace w'
           = Train.trace w ++ [Train.IdmLabel; Train.WmLabel; Train.OptimizerZeroGrad;
                               Train.LossBackward; Train.OptimizerStep;
                               Train.UpdateEma start_momentum;
                               Train.WmZeroGrad; Train.IdmZeroGrad] /\
         WorldModel.ema_mirror wm (Train.heap w') /\
         Train.ema_frozen wm (Train.heap w')).
Proof.
  split.
  - exact create_dynamics_models_invariants.
  - intros TrainBatch loss_grad OptState adamw adamw_advance Hshape
      idm wm index batch w Hmir Hfrozen.
    exact (train_step_spec TrainBatch loss_grad OptState adamw adamw_advance
             Hshape idm wm index batch w Hmir Hfrozen).
Qed.

(** ** The forward model's loss *)

Section LossFacts.
Context {Image Act Mask ActEmb : Type}.
Variable ema_patch_embed : list Image -> Tensor4.
Variable ema_pos_embed : list (list R).
Variable ema_encoder_layers : list (Tensor3 -> Tensor3).
Variable action_encoder_fn : list Act -> ActEmb.
Variable decoder_layers : list (DoubleCrossDecoder.Layer ActEmb Mask).

(** Grid height and width in patches and embedding dimension of the
    encoder; [P] is the number of patches. *)
Variables H_p W_p E : nat.
Abbreviation P := (H_p * W_p)%nat.

(** The positional table has one row of [E] entries per patch. *)
Hypothesis pos_embed_shape :
  length ema_pos_embed = P /\ Forall (fun row => length row = E) ema_pos_embed.

(** Library behaviour the shapes rest on. *)
Hypothesis patch_embed_shape :
  forall x, dims4 (ema_patch_embed x) = (length x, E, H_p, W_p).
Hypothesis encoder_layer_shape :
  Forall (fun layer => forall t, dims3 (layer t) = dims3 t) ema_encoder_layers.
Hypothesis decoder_layer_shape :
  Forall (fun ly => forall ms ma mask,
            dims3 (DoubleCrossDecoder.layer_forward ly ms ma mask) = dims3 ms)
         decoder_layers.
(** The encoder has at least one layer. *)
Hypothesis depth_pos : ema_encoder_layers <> [].

Abbreviation ema :=
  (WorldModel.ema_encoder_fn ema_patch_embed ema_pos_embed ema_encoder_layers).
Abbreviation wm_forward :=
  (WorldModel.forward ema_patch_embed ema_pos_embed ema_encoder_layers
     action_encoder_fn decoder_layers).
Abbreviation wm_label :=
  (WorldModel.label ema_patch_embed ema_pos_embed ema_encoder_layers
     action_encoder_fn decoder_layers).

Lemma patch_and_embed_shape x :
  exists t, VisionEncoder.patch_and_embed ema_patch_embed ema_pos_embed x = Ok t /\
            dims3 t = (length x, P, E).
Proof.
  unfold VisionEncoder.patch_and_embed, VisionEncoder.add_pos_embed.
  rewrite patch_embed_shape. cbn [dims3].
  destruct (decide _) as [_|Hno]; [|contradiction].
  cbn [Py.bind]. eexists. split; reflexivity.
Qed.

Lemma layer_outputs_shape layers : forall x,
  Forall (fun layer => forall t, dims3 (layer t) = dims3 t) layers ->
  length (VisionEncoder.layer_outputs layers x) = length layers /\
  Forall (fun y => dims3 y = dims3 x) (VisionEncoder.layer_outputs layers x).
Proof.
  induction layers as [|layer rest IH]; intros x Hall; simpl.
  - split; [reflexivity | constructor].
  - apply Forall_cons in Hall as [Hl Hrest].
    destruct (IH (layer x) Hrest) as [Hlen Hdims].
    split; [f_equal; exact Hlen|].
    constructor; [apply Hl|].
    eapply Forall_impl; [exact Hdims|]. intros y Hy. simpl in Hy.
    rewrite Hy. apply Hl.
Qed.

Lemma ema_encoder_shape x :
  exists t, ema x = Ok t /\
            dims4 t = (length x, length ema_encoder_layers, P, E).
Proof.
  unfold WorldModel.ema_encoder_fn, VisionEncoder.forward,
    VisionEncoder.run_transformer.
  destruct (patch_and_embed_shape x) as (x0 & -> & Hx0). cbn [Py.bind].
  destruct (layer_outputs_shape ema_encoder_layers x0 encoder_layer_shape)
    as [Hlen Hdims].
  unfold stack_dim1.
  destruct (VisionEncoder.layer_outputs ema_encoder_layers x0)
    as [|y outs] eqn:Houts.
  { destruct ema_encoder_layers; [contradiction | discriminate]. }
  assert (Hy : dims3 y = (length x, P, E)).
  { apply Forall_cons in Hdims as [Hy _]. rewrite Hy. exact Hx0. }
  destruct (decide _) as [_|Hno].
  - rewrite Hy. simpl. eexists. split; [reflexivity|]. simpl.
    simpl in Hlen. rewrite Hlen. reflexivity.
  - exfalso. apply Hno. apply Forall_cons in Hdims as [Hy0 Hrest].
    constructor; [reflexivity|].
    eapply Forall_impl; [exact Hrest|]. intros z Hz. simpl in Hz. congruence.
Qed.

Lemma decoder_shape ms ma mask :
  dims3 (DoubleCrossDecoder.forward decoder_layers ms ma mask) = dims3 ms.
Proof.
  unfold DoubleCrossDecoder.forward. revert ms.
  pose proof decoder_layer_shape as Hall.
  induction decoder_layers as [|ly rest IH]; intros ms; simpl.
  - reflexivity.
  - apply Forall_cons in Hall as [Hly Hrest].
    rewrite IH by exact Hrest. apply Hly.
Qed.

Lemma forward_shape before_obs action action_mask :
  exists pred, wm_forward before_obs action action_mask = Ok pred /\
    dims4 pred = (length before_obs, length ema_encoder_layers, P, E).
Proof.
  unfold WorldModel.forward.
  destruct (ema_encoder_shape before_obs) as (t & -> & Ht). cbn [Py.bind].
  rewrite Ht. unfold reshape3, numel4, permute_0213. rewrite Ht. cbn [dims4].
  destruct (decide _) as [_|Hno]; [|exfalso; apply Hno; lia]. cbn [Py.bind].
  unfold view4, numel3. rewrite decoder_shape. cbn [dims3].
  destruct (decide _) as [_|Hno]; [|exfalso; apply Hno; lia]. cbn [Py.bind].
  eexists. split; [reflexivity|]. reflexivity.
Qed.

(** C8. [WorldModel.label] returns a tensor with one entry per encoder
    layer; entry [d] is the squared difference between the prediction
    and the EMA encoding of the observation at offset -1, averaged over
    the batch, the patches and the embedding coordinates of layer [d]. *)
Theorem label_is_per_layer_mse (batch : Batch.t Image Act Mask) la xb xa :
  Batch.la batch = Some la ->
  Batch.obs_at batch (-2) = Ok xb ->
  Batch.obs_at batch (-1) = Ok xa ->
  let B := length (Batch.obs batch) in
  exists pred target loss,
    wm_forward xb la (Batch.la_mask batch) = Ok pred /\
    ema xa = Ok target /\
    wm_label batch = Ok loss /\
    dims1 loss = length ema_encoder_layers /\
    forall d,
      at1 loss d =
        (sum_n B (fun b => sum_n P (fun p => sum_n E (fun e =>
           (at4 pred b d p e - at4 target b d p e) ^ 2)))
         / INR (B * P * E))%R.
Proof.
  intros Hla Hb Ha B.
  destruct (forward_shape xb la (Batch.la_mask batch)) as (pred & Hpred & Hdp).
  destruct (ema_encoder_shape xa) as (target & Htarget & Hdt).
  assert (Hlb : length xb = B) by (apply mapM_length in Hb; exact Hb).
  assert (Hlt : length xa = B) by (apply mapM_length in Ha; exact Ha).
  rewrite Hlb in Hdp. rewrite Hlt in Hdt.
  exists pred, target. eexists.
  split; [exact Hpred|]. split; [exact Htarget|].
  split.
  { unfold WorldModel.label. rewrite Hla, Hb, Ha. cbn [Py.bind].
    rewrite Hpred. cbn [Py.bind]. rewrite Htarget. cbn [Py.bind].
    unfold mse_loss_none. rewrite Hdp, Hdt.
    destruct (decide _) as [_|Hno]; [|contradiction]. cbn [Py.bind].
    reflexivity. }
  unfold mean_023. cbn [dims4 at4 dims1 at1].
  split; reflexivity.
Qed.
End LossFacts.

(** ** Causal masking *)

Section MaskFacts.
Lemma triu_full_entry {A} (zero v : A) (diagonal : Z) (L i j : nat) :
  (i < L)%nat -> (j < L)%nat ->
  Mask.entry (Mask.triu zero diagonal (Mask.full L L v)) i j =
    Some (if (diagonal <=? Z.of_nat j - Z.of_nat i)%Z then v else zero).
Proof.
  intros Hi Hj. unfold Mask.entry, Mask.triu, Mask.full.
  rewrite list_lookup_imap, lookup_replicate_2 by exact Hi. simpl.
  rewrite list_lookup_imap, lookup_replicate_2 by exact Hj. reflexivity.
Qed.

Lemma triu_full_entry_outside {A} (zero v : A) (diagonal : Z) (L i j : nat) :
  (L <= i)%nat \/ (L <= j)%nat ->
  Mask.entry (Mask.triu zero diagonal (Mask.full L L v)) i j = None.
Proof.
  intros Hout. unfold Mask.entry, Mask.triu, Mask.full.
  rewrite list_lookup_imap.
  destruct (decide (i < L)%nat) as [Hi|Hi].
  - rewrite lookup_replicate_2 by exact Hi. simpl.
    rewrite list_lookup_imap.
    assert (replicate L v !! j = None) as -> by (apply lookup_replicate_None; lia).
    reflexivity.
  - assert (replicate L (replicate L v) !! i = None) as ->
      by (apply lookup_replicate_None; lia).
    reflexivity.
Qed.

Lemma _make_causal_mask_entry (L i j : nat) :
  (i < L)%nat -> (j < L)%nat ->
  exists m, IDM._make_causal_mask (Z.of_nat L) = Ok m /\
    Mask.entry m i j = Some (if bool_decide (i < j)%nat then NegInf else Fin 0).
Proof.
  intros Hi Hj. unfold IDM._make_causal_mask.
  destruct (Z.of_nat L <? 0)%Z eqn:Hneg; [apply Z.ltb_lt in Hneg; lia|].
  rewrite Nat2Z.id. eexists. split; [reflexivity|].
  rewrite triu_full_entry by assumption.
  case_bool_decide; destruct (1 <=? _)%Z eqn:Hd; try reflexivity;
    [apply Z.leb_gt in Hd | apply Z.leb_le in Hd]; lia.
Qed.

Lemma generate_causal_mask_entry (L i j : nat) :
  (i < L)%nat -> (j < L)%nat ->
  exists m, generate_causal_mask (Z.of_nat L) = Ok m /\
    Mask.entry m i j = Some (bool_decide (i < j)%nat).
Proof.
  intros Hi Hj. unfold generate_causal_mask.
  destruct (Z.of_nat L <? 0)%Z eqn:Hneg; [apply Z.ltb_lt in Hneg; lia|].
  rewrite Nat2Z.id. eexists. split; [reflexivity|].
  pose proof (triu_full_entry (Fin 0) (Fin 1) 1 L i j Hi Hj) as Hentry.
  unfold Mask.entry in *. rewrite list_lookup_fmap.
  destruct (Mask.triu _ _ _ !! i) as [row|]; [|discriminate]. simpl in *.
  rewrite list_lookup_fmap, Hentry. simpl. f_equal.
  case_bool_decide; destruct (1 <=? _)%Z eqn:Hd; try reflexivity;
    [apply Z.leb_gt in Hd | apply Z.leb_le in Hd]; lia.
Qed.
End MaskFacts.

Section CausalFacts.
Import TransformerDecoder.
Context {V M : Type}.
Local Open Scope R_scope.

(** Under the causal mask a later key has weight 0 for an earlier query. *)
Lemma causal_weight_zero (ly : Layer V M) (L : nat) m h i j xi xj :
  IDM._make_causal_mask (Z.of_nat L) = Ok m ->
  (i < j)%nat -> weight ly m h i xi j xj = 0.
Proof.
  unfold IDM._make_causal_mask.
  destruct (Z.of_nat L <? 0)%Z; [discriminate|]. intros [= <-] Hij.
  rewrite Nat2Z.id. unfold weight.
  destruct (decide (i < L /\ j < L)%nat) as [[Hi Hj]|Hout].
  - rewrite triu_full_entry by assumption.
    destruct (1 <=? _)%Z eqn:Hd; [reflexivity|]. apply Z.leb_gt in Hd. lia.
  - rewrite triu_full_entry_outside by lia. reflexivity.
Qed.

(** A sum whose terms vanish after position [i] only sees the prefix. *)
Lemma isum_prefix (f : nat -> V -> R) (i : nat) :
  (forall j x, (i < j)%nat -> f j x = 0) ->
  forall (xs xs' : list V) k,
    length xs = length xs' ->
    (forall n, (k + n <= i)%nat -> xs !! n = xs' !! n) ->
    isum k f xs = isum k f xs'.
Proof.
  intros Hzero. induction xs as [|x xs IH]; intros [|x' xs'] k Hlen Hagree;
    try discriminate; [reflexivity|].
  simpl. f_equal.
  - destruct (decide (k <= i)%nat) as [Hk|Hk].
    + specialize (Hagree O ltac:(lia)). simpl in Hagree.
      injection Hagree as ->. reflexivity.
    + rewrite !Hzero by lia. reflexivity.
  - apply IH; [simpl in Hlen; lia|].
    intros n Hn. apply (Hagree (S n)). lia.
Qed.

Lemma self_attention_prefix (ly : Layer V M) (L : nat) m (xs xs' : list V) i xi :
  IDM._make_causal_mask (Z.of_nat L) = Ok m ->
  length xs = length xs' ->
  (forall j, (j <= i)%nat -> xs !! j = xs' !! j) ->
  self_attention ly m xs i xi = self_attention ly m xs' i xi.
Proof.
  intros Hm Hlen Hagree. unfold self_attention, head_out.
  apply map_ext. intros h.
  assert (Hz : isum 0 (fun j xj => weight ly m h i xi j xj) xs
               = isum 0 (fun j xj => weight ly m h i xi j xj) xs').
  { apply (isum_prefix _ i); [|exact Hlen|intros n Hn; apply Hagree; lia].
    intros j x Hj. eapply causal_weight_zero; eassumption. }
  rewrite Hz. apply map_ext. intros c. f_equal.
  apply (isum_prefix _ i); [|exact Hlen|intros n Hn; apply Hagree; lia].
  intros j x Hj. erewrite causal_weight_zero by eassumption. apply Rmult_0_l.
Qed.

Lemma layer_forward_prefix (ly : Layer V M) (L : nat) m memory (xs xs' : list V) i :
  IDM._make_causal_mask (Z.of_nat L) = Ok m ->
  length xs = length xs' ->
  (forall j, (j <= i)%nat -> xs !! j = xs' !! j) ->
  length (layer_forward ly m memory xs) = length (layer_forward ly m memory xs') /\
  (forall j, (j <= i)%nat ->
     layer_forward ly m memory xs !! j = layer_forward ly m memory xs' !! j).
Proof.
  intros Hm Hlen Hagree. unfold layer_forward.
  split; [rewrite !length_imap; exact Hlen|].
  intros j Hj. rewrite !list_lookup_imap, <- (Hagree j Hj).
  destruct (xs !! j) as [xj|]; [|reflexivity]. simpl.
  rewrite (self_attention_prefix ly L m xs xs' j xj Hm Hlen); [reflexivity|].
  intros n Hn. apply Hagree. lia.
Qed.

Lemma layers_prefix (layers : list (Layer V M)) (L : nat) m memory i :
  IDM._make_causal_mask (Z.of_nat L) = Ok m ->
  forall xs xs' : list V,
  length xs = length xs' ->
  (forall j, (j <= i)%nat -> xs !! j = xs' !! j) ->
  forall j, (j <= i)%nat ->
    foldl (fun xs ly => layer_forward ly m memory xs) xs layers !! j
    = foldl (fun xs ly => layer_forward ly m memory xs) xs' layers !! j.
Proof.
  intros Hm. induction layers as [|ly rest IH]; intros xs xs' Hlen Hagree; simpl.
  - exact Hagree.
  - destruct (layer_forward_prefix ly L m memory xs xs' i Hm Hlen Hagree)
      as [Hlen' Hagree'].
    apply IH; assumption.
Qed.

Lemma causal_mask_fits (L : nat) m :
  IDM._make_causal_mask (Z.of_nat L) = Ok m -> mask_fits m L = true.
Proof.
  unfold IDM._make_causal_mask.
  destruct (Z.of_nat L <? 0)%Z; [discriminate|]. intros [= <-].
  rewrite Nat2Z.id. unfold mask_fits, Mask.triu, Mask.full.
  apply andb_true_intro. split.
  - apply bool_decide_eq_true_2. rewrite length_imap, length_replicate. reflexivity.
  - apply forallb_forall. intros row Hrow.
    apply list_elem_of_In, list_elem_of_lookup in Hrow as [i Hi].
    rewrite list_lookup_imap in Hi.
    destruct (replicate L (replicate L NegInf) !! i) as [r|] eqn:Hr; [|discriminate].
    apply lookup_replicate in Hr as [-> _]. injection Hi as <-.
    apply bool_decide_eq_true_2. rewrite length_imap, length_replicate. reflexivity.
Qed.

(** C9. For every length [L] both masks mark exactly the entries with
    [j > i] (minus infinity, respectively [True]; 0, respectively
    [False], elsewhere); and the decoder run under the mask of
    [_make_causal_mask] on two target sequences of one length that agree
    on the positions up to [i] returns, for both, outputs that agree on
    the positions up to [i]. *)
Theorem causal_mask_hides_future :
  (forall L i j : nat, (i < L)%nat -> (j < L)%nat ->
     exists m b,
       IDM._make_causal_mask (Z.of_nat L) = Ok m /\
       generate_causal_mask (Z.of_nat L) = Ok b /\
       Mask.entry m i j = Some (if bool_decide (i < j)%nat then NegInf else Fin 0) /\
       Mask.entry b i j = Some (bool_decide (i < j)%nat)) /\
  (forall (layers : list (Layer V M)) (norm : V -> V) (memory : M)
          (tgt tgt' : list V) (i : nat),
     length tgt = length tgt' ->
     (forall j, (j <= i)%nat -> tgt !! j = tgt' !! j) ->
     exists m out out',
       IDM._make_causal_mask (Z.of_nat (length tgt)) = Ok m /\
       forward layers norm tgt memory m = Ok out /\
       forward layers norm tgt' memory m = Ok out' /\
       length out = length tgt /\ length out' = length tgt /\
       forall j, (j <= i)%nat -> out !! j = out' !! j).
Proof.
  split.
  - intros L i j Hi Hj.
    destruct (_make_causal_mask_entry L i j Hi Hj) as (m & Hm & Hme).
    destruct (generate_causal_mask_entry L i j Hi Hj) as (b & Hb & Hbe).
    exists m, b. auto.
  - intros layers norm memory tgt tgt' i Hlen Hagree.
    assert (Hm : exists m, IDM._make_causal_mask (Z.of_nat (length tgt)) = Ok m).
    { unfold IDM._make_causal_mask.
      destruct (Z.of_nat (length tgt) <? 0)%Z eqn:Hneg;
        [apply Z.ltb_lt in Hneg; lia | eauto]. }
    destruct Hm as [m Hm]. pose proof (causal_mask_fits _ _ Hm) as Hfits.
    exists m. unfold forward. rewrite <- Hlen, Hfits.
    eexists _, _. split; [exact Hm|]. split; [reflexivity|]. split; [reflexivity|].
    assert (Hfold_len : forall (ls : list (Layer V M)) (xs : list V),
              length (foldl (fun xs ly => layer_forward ly m memory xs) xs ls)
              = length xs).
    { induction ls as [|ly ls IH]; intros xs; simpl; [reflexivity|].
      rewrite IH. unfold layer_forward. apply length_imap. }
    split; [rewrite length_map, Hfold_len; reflexivity|].
    split; [rewrite length_map, Hfold_len; symmetry; exact Hlen|].
    intros j Hj. rewrite !list_lookup_fmap. f_equal.
    apply (layers_prefix layers (length tgt) m memory i Hm); assumption.
Qed.
End CausalFacts.

(** ** Patch retention in [_encode_vision_context] *)

Section TopkFacts.
Lemma insert_asc_Permutation tie x l : Torch.insert_asc tie x l ≡ₚ x :: l.
Proof.
  induction l as [|y l IH]; simpl; [reflexivity|].
  destruct (Torch.comes_first tie x y); [reflexivity|].
  rewrite IH. apply Permutation_swap.
Qed.

Lemma sort_asc_Permutation tie l : Torch.sort_asc tie l ≡ₚ l.
Proof.
  induction l as [|x l IH]; simpl; [reflexivity|].
  rewrite insert_asc_Permutation, IH. reflexivity.
Qed.

Lemma imap_indices (row : list Q) k :
  (imap (fun i v => (v, (k + i)%nat)) row).*2 = seq k (length row).
Proof.
  revert k. induction row as [|v row IH]; intros k; simpl; [reflexivity|].
  rewrite Nat.add_0_r. f_equal.
  rewrite <- (IH (S k)). f_equal. apply imap_ext. intros i x _. simpl.
  f_equal. lia.
Qed.

Lemma sorted_indices_Permutation tie (row : list Q) :
  (Torch.sort_asc tie (imap (fun i v => (v, i)) row)).*2 ≡ₚ seq 0 (length row).
Proof.
  rewrite sort_asc_Permutation.
  rewrite <- (imap_indices row 0). reflexivity.
Qed.

(** [topk] with [k] in range returns [k] distinct positions of the row,
    whatever order it puts equal entries in. *)
Lemma topk_smallest_spec tie (k : Z) (row : list Q) :
  (0 <= k <= Z.of_nat (length row))%Z ->
  exists idxs, Torch.topk_smallest tie k row = Ok idxs /\
    NoDup idxs /\ length idxs = Z.to_nat k /\
    (forall i, i ∈ idxs -> (i < length row)%nat).
Proof.
  intros [Hk0 Hk]. unfold Torch.topk_smallest.
  destruct ((k <? 0) || (Z.of_nat (length row) <? k))%Z eqn:Hbad.
  { apply orb_true_iff in Hbad as [Hb|Hb]; apply Z.ltb_lt in Hb; lia. }
  pose proof (sorted_indices_Permutation tie row) as Hperm.
  set (sorted := (Torch.sort_asc tie (imap (fun i v => (v, i)) row)).*2) in *.
  exists (take (Z.to_nat k) sorted). split; [reflexivity|].
  assert (Hnd : NoDup sorted).
  { rewrite Hperm. apply NoDup_ListNoDup, seq_NoDup. }
  split; [|split].
  - exact (sublist_NoDup _ _ Hnd (sublist_take _ _)).
  - rewrite length_take. rewrite (Permutation_length Hperm), length_seq. lia.
  - intros i Hi. apply elem_of_take in Hi as (j & Hj & _).
    assert (Hin : i ∈ sorted) by (apply list_elem_of_lookup; eauto).
    rewrite Hperm in Hin. apply elem_of_seq in Hin. lia.
Qed.
End TopkFacts.

Section KeepMaskFacts.
Context {Image Patch Ctx Src AugParams : Type}.
Variable transforms : AugParams -> list Image -> list Image.
Variable patch_and_embed : Image -> list Patch.
Variable run_transformer : list Patch -> list Ctx.
Variable drop_token_reshaped : Ctx.
Variable interleave : Ctx -> Ctx -> Src.
Variable top_pct : Py.float.

Abbreviation top_k := (IDM.top_k top_pct).
Abbreviation kept_idxs := (IDM.kept_idxs (AugParams := AugParams) top_pct).
Abbreviation after_ctx_training :=
  (IDM.after_ctx_training run_transformer drop_token_reshaped).

(** The count [top_k] returns: at least 1, and the truncation of the
    rounded product when that is more. *)
Lemma top_k_spec P k :
  top_k P = Ok k ->
  (1 <= k)%Z /\
  exists p n, Py.float_of_int (Z.of_nat P) = Ok p /\
    Py.int_of_float (Py.float_mul p top_pct) = Ok n /\ k = Z.max 1 n.
Proof.
  unfold IDM.top_k.
  destruct (Py.float_of_int (Z.of_nat P)) as [p|]; [|discriminate].
  cbn [Py.bind].
  destruct (Py.int_of_float (Py.float_mul p top_pct)) as [n|] eqn:Hn;
    [|discriminate].
  cbn [Py.bind]. intros [= <-]. split; [lia|].
  exists p, n. split; [reflexivity|]. split; [exact Hn | reflexivity].
Qed.
(** *** Marking and scattering *)

Lemma count_true_insert (m : list bool) a :
  m !! a = Some false ->
  count_occ Bool.bool_dec (<[a := true]> m) true
    = S (count_occ Bool.bool_dec m true).
Proof.
  intros Ha. pose proof (lookup_lt_Some _ _ _ Ha) as Hlt.
  rewrite insert_take_drop by exact Hlt.
  rewrite <- (take_drop_middle m a false Ha) at 3.
  rewrite !count_occ_app. simpl. lia.
Qed.

Lemma mark_spec (idxs : list nat) : forall m : list bool,
  NoDup idxs -> (forall i, i ∈ idxs -> (i < length m)%nat) ->
  let m' := foldl (fun m i => <[i := true]> m) m idxs in
  length m' = length m /\
  (forall i, i ∈ idxs -> m' !! i = Some true) /\
  (forall i, i ∉ idxs -> m' !! i = m !! i) /\
  ((forall i, i ∈ idxs -> m !! i = Some false) ->
   count_occ Bool.bool_dec m' true
     = (count_occ Bool.bool_dec m true + length idxs)%nat).
Proof.
  induction idxs as [|a rest IH]; intros m Hnd Hrange; simpl.
  - split; [reflexivity|]. split; [intros i Hi; inversion Hi|].
    split; [reflexivity|]. intros _. lia.
  - apply NoDup_cons in Hnd as [Ha Hnd].
    assert (Hlt : (a < length m)%nat) by (apply Hrange; left).
    destruct (IH (<[a := true]> m) Hnd) as (Hlen & Hin & Hout & Hcount).
    { intros i Hi. rewrite length_insert. apply Hrange. right. exact Hi. }
    rewrite length_insert in Hlen.
    split; [exact Hlen|]. split; [|split].
    + intros i Hi. apply elem_of_cons in Hi as [->|Hi]; [|apply Hin, Hi].
      rewrite Hout by exact Ha. apply list_lookup_insert_eq, Hlt.
    + intros i Hi. apply not_elem_of_cons in Hi as [Hne Hi].
      rewrite Hout by exact Hi. apply list_lookup_insert_ne. congruence.
    + intros Hfalse. rewrite Hcount.
      * rewrite count_true_insert by (apply Hfalse; left). lia.
      * intros i Hi. rewrite list_lookup_insert_ne by (intros ->; contradiction).
        apply Hfalse. right. exact Hi.
Qed.

Lemma count_true_replicate_false P :
  count_occ Bool.bool_dec (replicate P false) true = O.
Proof. induction P as [|P IH]; simpl; [reflexivity | exact IH]. Qed.

Lemma keep_mask_spec P idxs :
  NoDup idxs -> (forall i, i ∈ idxs -> (i < P)%nat) ->
  length (IDM.keep_mask P idxs) = P /\
  (forall i, IDM.keep_mask P idxs !! i = Some true <-> i ∈ idxs) /\
  count_occ Bool.bool_dec (IDM.keep_mask P idxs) true = length idxs.
Proof.
  intros Hnd Hrange. unfold IDM.keep_mask.
  destruct (mark_spec idxs (replicate P false) Hnd) as (Hlen & Hin & Hout & Hcount).
  { intros i Hi. rewrite length_replicate. apply Hrange, Hi. }
  rewrite length_replicate in Hlen.
  split; [exact Hlen|]. split.
  - intros i. split; [|apply Hin].
    intros Htrue. destruct (decide (i ∈ idxs)) as [Hi|Hi]; [exact Hi|].
    rewrite Hout in Htrue by exact Hi.
    apply lookup_replicate in Htrue as [Hbad _]. discriminate.
  - rewrite Hcount, count_true_replicate_false; [reflexivity|].
    intros i Hi. apply lookup_replicate_2, Hrange, Hi.
Qed.

Lemma gather_spec {A} (t : list A) idxs :
  (forall i, i ∈ idxs -> (i < length t)%nat) ->
  exists kept, Torch.gather t idxs = Ok kept /\
    length kept = length idxs /\
    (forall j i, idxs !! j = Some i -> kept !! j = t !! i).
Proof.
  unfold Torch.gather. induction idxs as [|a rest IH]; intros Hrange; simpl.
  - exists []. split; [reflexivity|]. split; [reflexivity|]. intros j i Hj. inversion Hj.
  - destruct (lookup_lt_is_Some_2 t a) as [x Hx]; [apply Hrange; left|].
    rewrite Hx. cbn [Py.bind].
    destruct IH as (kept & -> & Hlen & Hk).
    { intros i Hi. apply Hrange. right. exact Hi. }
    cbn [Py.bind]. exists (x :: kept). split; [reflexivity|].
    split; [simpl; f_equal; exact Hlen|].
    intros [|j] i Hj; simpl in *; [injection Hj as <-; symmetry; exact Hx|].
    apply Hk, Hj.
Qed.

Lemma scatter__spec {A} (idxs : list nat) : forall (src t : list A),
  NoDup idxs -> (forall i, i ∈ idxs -> (i < length t)%nat) ->
  length src = length idxs ->
  exists t', Torch.scatter_ t idxs src = Ok t' /\
    length t' = length t /\
    (forall j i, idxs !! j = Some i -> t' !! i = src !! j) /\
    (forall i, i ∉ idxs -> t' !! i = t !! i).
Proof.
  induction idxs as [|a rest IH]; intros src t Hnd Hrange Hlen.
  - destruct src; [|discriminate]. exists t. simpl.
    split; [reflexivity|]. split; [reflexivity|].
    split; [intros j i Hj; inversion Hj | reflexivity].
  - destruct src as [|x src]; [discriminate|].
    apply NoDup_cons in Hnd as [Ha Hnd].
    assert (Hlt : (a < length t)%nat) by (apply Hrange; left).
    simpl. destruct (decide (a < length t)%nat) as [_|Hno]; [|contradiction].
    destruct (IH src (<[a := x]> t) Hnd) as (t' & Hrun & Hl & Hin & Hout).
    { intros i Hi. rewrite length_insert. apply Hrange. right. exact Hi. }
    { simpl in Hlen. lia. }
    rewrite length_insert in Hl.
    exists t'. split; [exact Hrun|]. split; [exact Hl|]. split.
    + intros [|j] i Hj; simpl in *.
      * injection Hj as <-. rewrite Hout by exact Ha.
        apply list_lookup_insert_eq, Hlt.
      * apply Hin, Hj.
    + intros i Hi. apply not_elem_of_cons in Hi as [Hne Hi].
      rewrite Hout by exact Hi. apply list_lookup_insert_ne. congruence.
Qed.

(** The transformer returns one block per patch it is given. *)
Hypothesis run_transformer_length : forall ps,
  length (run_transformer ps) = length ps.

(** What one sample's after branch computes in training. *)
Lemma retention_per_sample (draw : IDM.Draw AugParams) (b : nat)
    (after_patch : list Patch) (k : Z) :
  let P := length after_patch in
  top_k P = Ok k -> (k <= Z.of_nat P)%Z ->
  exists idxs kept after_ctx,
    kept_idxs draw b P = Ok idxs /\
    Z.of_nat (length idxs) = k /\
    NoDup idxs /\
    length (IDM.keep_mask P idxs) = P /\
    (forall i, IDM.keep_mask P idxs !! i = Some true <-> i ∈ idxs) /\
    count_occ Bool.bool_dec (IDM.keep_mask P idxs) true = length idxs /\
    Torch.gather after_patch idxs = Ok kept /\
    (forall j i, idxs !! j = Some i -> kept !! j = after_patch !! i) /\
    after_ctx_training after_patch idxs = Ok after_ctx /\
    length after_ctx = P /\
    (forall i, (i < P)%nat -> i ∉ idxs -> after_ctx !! i = Some drop_token_reshaped) /\
    (forall j i, idxs !! j = Some i ->
       is_Some (after_ctx !! i) /\ after_ctx !! i = run_transformer kept !! j).
Proof.
  intros P Htop Hk.
  destruct (top_k_spec P k Htop) as [Hk1 _].
  destruct (topk_smallest_spec (IDM.tie draw b) k (map (IDM.rand draw b) (seq 0 P)))
    as (idxs & Htopk & Hnd & Hlen & Hrange).
  { rewrite length_map, length_seq. lia. }
  rewrite length_map, length_seq in Hrange.
  destruct (keep_mask_spec P idxs Hnd Hrange) as (Hml & Hmt & Hmc).
  destruct (gather_spec after_patch idxs Hrange) as (kept & Hg & Hgl & Hgk).
  destruct (scatter__spec idxs (run_transformer kept)
              (replicate P drop_token_reshaped) Hnd)
    as (after_ctx & Hs & Hsl & Hsin & Hsout).
  { intros i Hi. rewrite length_replicate. apply Hrange, Hi. }
  { rewrite run_transformer_length. exact Hgl. }
  rewrite length_replicate in Hsl.
  exists idxs, kept, after_ctx.
  split; [unfold IDM.kept_idxs; fold P; rewrite Htop; exact Htopk|].
  split; [rewrite Hlen; lia|].
  split; [exact Hnd|]. split; [exact Hml|]. split; [exact Hmt|].
  split; [exact Hmc|]. split; [exact Hg|]. split; [exact Hgk|].
  split.
  { unfold IDM.after_ctx_training. rewrite Hg. cbn [Py.bind]. exact Hs. }
  split; [exact Hsl|]. split.
  - intros i Hi Hout. rewrite Hsout by exact Hout.
    apply lookup_replicate_2, Hi.
  - intros j i Hj. split; [|apply Hsin, Hj].
    apply lookup_lt_is_Some_2. rewrite Hsl. apply Hrange.
    apply list_elem_of_lookup. eauto.
Qed.
(** The augmentation keeps the batch size, and every image is cut into
    [P] patches. *)
Hypothesis transforms_length : forall params x,
  length (transforms params x) = length x.
Variable P : nat.
Hypothesis patch_count : forall img, length (patch_and_embed img) = P.

Abbreviation encode :=
  (IDM._encode_vision_context transforms patch_and_embed run_transformer
     drop_token_reshaped interleave top_pct).

(** A training pass returns: the after-contexts [acs] of the samples are
    what the retention of each sample computes, and the result interleaves
    them with the before-contexts. *)
Lemma encode_training_runs
    (x_before x_after : list Image) (draw : IDM.Draw AugParams) (k : Z) :
  top_k P = Ok k -> (k <= Z.of_nat P)%Z ->
  length x_before = length x_after ->
  let xb := transforms (IDM.aug_params draw) x_before in
  let xa := transforms (IDM.aug_params draw) x_after in
  exists src acs, encode x_before x_after true draw = Ok src /\
    length src = length x_after /\
    length acs = length x_after /\
    (forall b img_a ac, xa !! b = Some img_a -> acs !! b = Some ac ->
       (idxs <- kept_idxs draw b P ;;
        after_ctx_training (patch_and_embed img_a) idxs) = Ok ac) /\
    src = zip_with (zip_with interleave)
            (map run_transformer (map patch_and_embed xb)) acs.
Proof.
  intros HP Hpct HB xb xa. unfold IDM._encode_vision_context, IDM.aug_fn.
  fold xb. fold xa.
  set (f := fun '(b, after_patch_b) =>
              idxs <- IDM.kept_idxs top_pct draw b (length after_patch_b) ;;
              after_ctx_training after_patch_b idxs).
  assert (Hf : forall b img_a,
            f (b, patch_and_embed img_a)
            = (idxs <- kept_idxs draw b P ;;
               after_ctx_training (patch_and_embed img_a) idxs)).
  { intros b img_a. unfold f. rewrite patch_count. reflexivity. }
  assert (Hsample : forall b img_a,
            exists after_ctx, f (b, patch_and_embed img_a) = Ok after_ctx /\
                              length after_ctx = P).
  { intros b img_a.
    destruct (retention_per_sample draw b (patch_and_embed img_a) k)
      as (idxs & kept & after_ctx & H1 & _ & _ & _ & _ & _ & _ & _ & H9 & H10 & _);
      [rewrite patch_count; exact HP | rewrite patch_count; exact Hpct |].
    rewrite patch_count in *.
    exists after_ctx. rewrite Hf, H1. cbn [Py.bind]. auto. }
  destruct (mapM_Forall2 f (imap pair (map patch_and_embed xa))) as (acs & Hrun & HF).
  { intros [b ap] Hin. apply list_elem_of_lookup in Hin as [i Hi].
    rewrite list_lookup_imap, list_lookup_fmap in Hi.
    destruct (xa !! i) as [img_a|] eqn:Hxa; [|discriminate].
    injection Hi as <- <-.
    destruct (Hsample i img_a) as (after_ctx & Hok & _). eauto. }
  replace (mapM _ (imap pair (map patch_and_embed xa))) with (Ok acs).
  cbn [Py.bind].
  assert (Hacs : forall b img_a ac, xa !! b = Some img_a -> acs !! b = Some ac ->
            f (b, patch_and_embed img_a) = Ok ac).
  { intros b img_a ac Hxa Hac.
    apply (Forall2_lookup_lr (fun x y => f x = Ok y) _ _ b
             (b, patch_and_embed img_a) ac HF); [|exact Hac].
    rewrite list_lookup_imap, list_lookup_fmap, Hxa. reflexivity. }
  assert (Hlen_acs : length acs = length xa).
  { rewrite <- (Forall2_length _ _ _ HF), length_imap, length_map. reflexivity. }
  assert (Hlen_xa : length xa = length x_after) by apply transforms_length.
  assert (Hlen_xb : length xb = length x_after).
  { unfold xb. rewrite transforms_length. exact HB. }
  assert (Hshape : IDM.same_shape (map run_transformer (map patch_and_embed xb)) acs
                   = true).
  { unfold IDM.same_shape. apply bool_decide_eq_true_2.
    apply list_eq. intros i. rewrite !list_lookup_fmap.
    destruct (xb !! i) as [img_b|] eqn:Hxb; simpl.
    - pose proof (lookup_lt_Some _ _ _ Hxb) as Hi.
      destruct (lookup_lt_is_Some_2 xa i) as [img_a Hxa]; [lia|].
      destruct (lookup_lt_is_Some_2 acs i) as [ac Hac]; [lia|].
      rewrite Hac. simpl. f_equal.
      rewrite run_transformer_length, patch_count.
      destruct (Hsample i img_a) as (ac' & Hok & Hlen').
      rewrite (Hacs i img_a ac Hxa Hac) in Hok. injection Hok as <-.
      symmetry. exact Hlen'.
    - apply lookup_ge_None in Hxb.
      rewrite (proj2 (lookup_ge_None acs i)) by lia. reflexivity. }
  rewrite Hshape. eexists _, acs. split; [reflexivity|].
  split; [rewrite length_zip_with, !length_map; lia|].
  split; [lia|]. split; [|reflexivity].
  intros b img_a ac Hxa Hac. rewrite <- Hf. apply Hacs; assumption.
Qed.

(** C6 (as amended). The number of patches a training pass keeps is
    [k = max(1, int(P * top_pct))] with the product taken as the code takes
    it, a binary64 product rounded before [int] truncates it. When [k] does
    not exceed the number [P] of patches, the pass returns, and for every
    sample of the batch: the kept indices are [k] distinct patch positions
    and the keep-mask is true exactly there; the after-context has [P]
    entries; every position that is not kept holds the one drop token; the
    position of the [j]-th kept patch holds the [j]-th output of the
    transformer run on the kept patches; and the sample's context
    interleaves the before-context with this after-context. This holds
    whichever of several equal random numbers [topk] prefers. *)
Theorem encode_keeps_top_k_and_fills_drop_token
    (x_before x_after : list Image) (draw : IDM.Draw AugParams) (k : Z) :
  IDM.top_k top_pct P = Ok k -> (k <= Z.of_nat P)%Z ->
  length x_before = length x_after ->
  (exists p n, Py.float_of_int (Z.of_nat P) = Ok p /\
     Py.int_of_float (Py.float_mul p top_pct) = Ok n /\ k = Z.max 1 n) /\
  exists src, encode x_before x_after true draw = Ok src /\
    length src = length x_after /\
    forall b img_b img_a,
      transforms (IDM.aug_params draw) x_before !! b = Some img_b ->
      transforms (IDM.aug_params draw) x_after !! b = Some img_a ->
      let after_patch := patch_and_embed img_a in
      exists idxs kept after_ctx,
        kept_idxs draw b P = Ok idxs /\
        Z.of_nat (length idxs) = k /\
        NoDup idxs /\
        length (IDM.keep_mask P idxs) = P /\
        (forall i, IDM.keep_mask P idxs !! i = Some true <-> i ∈ idxs) /\
        count_occ Bool.bool_dec (IDM.keep_mask P idxs) true = length idxs /\
        Torch.gather after_patch idxs = Ok kept /\
        (forall j i, idxs !! j = Some i -> kept !! j = after_patch !! i) /\
        length after_ctx = P /\
        (forall i, (i < P)%nat -> i ∉ idxs ->
           after_ctx !! i = Some drop_token_reshaped) /\
        (forall j i, idxs !! j = Some i ->
           is_Some (after_ctx !! i) /\
           after_ctx !! i = run_transformer kept !! j) /\
        src !! b = Some (zip_with interleave
                           (run_transformer (patch_and_embed img_b)) after_ctx).
Proof.
  intros HP Hpct HB.
  split; [exact (proj2 (top_k_spec P k HP))|].
  destruct (encode_training_runs x_before x_after draw k HP Hpct HB)
    as (src & acs & Hrun & Hlen & Hlen_acs & Hacs & Hsrc).
  exists src. split; [exact Hrun|]. split; [exact Hlen|].
  intros b img_b img_a Hxb Hxa after_patch.
  destruct (retention_per_sample draw b after_patch k)
    as (idxs & kept & after_ctx & H1 & H2 & H3 & H4 & H5 & H6 & H7 & H8
        & H9 & H10 & H11 & H12);
    [unfold after_patch; rewrite patch_count; exact HP
    | unfold after_patch; rewrite patch_count; exact Hpct |].
  unfold after_patch in *. rewrite patch_count in *.
  exists idxs, kept, after_ctx.
  repeat (split; [assumption|]).
  destruct (lookup_lt_is_Some_2 acs b) as [ac Hac].
  { rewrite Hlen_acs, <- (transforms_length (IDM.aug_params draw)).
    apply (lookup_lt_Some _ _ _ Hxa). }
  pose proof (Hacs b img_a ac Hxa Hac) as Hok.
  rewrite H1 in Hok. cbn [Py.bind] in Hok. rewrite H9 in Hok. injection Hok as <-.
  rewrite Hsrc, lookup_zip_with, !list_lookup_fmap, Hxb, Hac. reflexivity.
Qed.
End KeepMaskFacts.

(** ** The number of action tokens [IDM.forward] returns *)

Section DecoderLength.
Context {V M : Type}.

Lemma decoder_forward_length (layers : list (TransformerDecoder.Layer V M))
    (norm : V -> V) (tgt : list V) (memory : M) (L : nat) m :
  IDM._make_causal_mask (Z.of_nat L) = Ok m ->
  length tgt = L ->
  exists out, TransformerDecoder.forward layers norm tgt memory m = Ok out /\
              length out = L.
Proof.
  intros Hm Hlen. unfold TransformerDecoder.forward.
  rewrite Hlen, (causal_mask_fits _ _ Hm).
  eexists. split; [reflexivity|]. rewrite length_map.
  clear Hm. revert tgt Hlen.
  induction layers as [|ly ls IH]; intros tgt Hlen; simpl; [exact Hlen|].
  apply IH. unfold TransformerDecoder.layer_forward. rewrite length_imap. exact Hlen.
Qed.
End DecoderLength.

Section ForwardFacts.
Context {Image Patch Ctx Src AugParams V : Type}.
Variable transforms : AugParams -> list Image -> list Image.
Variable patch_and_embed : Image -> list Patch.
Variable run_transformer : list Patch -> list Ctx.
Variable drop_token_reshaped : Ctx.
Variable interleave : Ctx -> Ctx -> Src.
Variable top_pct : Py.float.
Variable mask_token_value : V.
Variable decoder_layers : list (TransformerDecoder.Layer V (list Src)).
Variable decoder_norm : V -> V.
Variable action_head_value : V -> list R.
Variables min_tokens max_tokens num_eval_tokens : Z.

Hypothesis run_transformer_length : forall ps,
  length (run_transformer ps) = length ps.
Hypothesis transforms_length : forall params x,
  length (transforms params x) = length x.
Variable P : nat.
Hypothesis patch_count : forall img, length (patch_and_embed img) = P.

Abbreviation encode' :=
  (IDM._encode_vision_context transforms patch_and_embed run_transformer
     drop_token_reshaped interleave top_pct).
Abbreviation decode_step' :=
  (IDM.decode_step decoder_layers decoder_norm action_head_value).
Abbreviation forward' :=
  (IDM.forward transforms patch_and_embed run_transformer drop_token_reshaped
     interleave top_pct mask_token_value decoder_layers decoder_norm
     action_head_value min_tokens max_tokens num_eval_tokens).

Abbreviation loop_inv := (IDM.loop_inv (V := V)).

Lemma decode_step_spec (memory : list (list Src)) B T k st :
  loop_inv B T k st -> (1 <= T)%nat -> length memory = B ->
  exists st', decode_step' memory st = Ok st' /\ loop_inv B (S T) (S k) st'.
Proof.
  intros (HB & Hrows & Hk & Hout) HT Hmem. destruct st as [tgt out].
  simpl in HB, Hrows, Hk, Hout. unfold IDM.decode_step.
  set (T' := match tgt with row :: _ => length row | [] => O end).
  assert (Hrows' : Forall (fun row => length row = T') tgt).
  { destruct tgt as [|row rest]; [constructor|].
    pose proof Hrows as Hr. apply Forall_cons in Hr as [Hrow _].
    subst T'. simpl. rewrite Hrow. exact Hrows. }
  assert (Hm : exists m, IDM._make_causal_mask (Z.of_nat T') = Ok m).
  { unfold IDM._make_causal_mask.
    destruct (Z.of_nat T' <? 0)%Z eqn:Hneg; [apply Z.ltb_lt in Hneg; lia | eauto]. }
  destruct Hm as [m Hm]. rewrite Hm. cbn [Py.bind].
  set (f := fun '(tgt0, mem) =>
              TransformerDecoder.forward decoder_layers decoder_norm tgt0 mem m).
  destruct (mapM_Forall2 f (zip tgt memory)) as (decoder_out & Hrun & HF).
  { intros [t mem] Hin. apply elem_of_zip_l in Hin.
    rewrite Forall_forall in Hrows'.
    destruct (decoder_forward_length decoder_layers decoder_norm t mem T' m Hm)
      as (y & Hy & _); [apply Hrows', Hin | eauto]. }
  replace (mapM _ (zip tgt memory)) with (Ok decoder_out).
  cbn [Py.bind].
  assert (Hdlen : length decoder_out = B).
  { rewrite <- (Forall2_length _ _ _ HF), length_zip. lia. }
  assert (Hdrows : Forall (fun y => length y = T) decoder_out).
  { apply Forall_forall. intros y Hy.
    apply list_elem_of_lookup in Hy as [i Hi].
    destruct (Forall2_lookup_r _ _ _ _ _ HF Hi) as ([t mem] & Hz & Hf).
    assert (Ht : t ∈ tgt).
    { apply (elem_of_zip_l _ mem _ memory). apply list_elem_of_lookup. eauto. }
    rewrite Forall_forall in Hrows, Hrows'.
    destruct (decoder_forward_length decoder_layers decoder_norm t mem T' m Hm
                (Hrows' _ Ht)) as (y' & Hy' & Hlen').
    unfold f in Hf. rewrite Hy' in Hf. injection Hf as <-.
    rewrite Hlen', <- (Hrows' _ Ht). apply Hrows, Ht. }
  set (last_token := map (fun out => drop (length out - 1) out) decoder_out).
  assert (Hlast : Forall (fun r => length r = 1%nat) last_token).
  { apply Forall_fmap. eapply Forall_impl; [exact Hdrows|].
    intros y Hy. cbn beta in Hy. unfold compose. rewrite length_drop. lia. }
  eexists. split; [reflexivity|]. unfold IDM.loop_inv. cbn [fst snd].
  split; [rewrite length_zip_with; unfold last_token; rewrite length_map; lia|].
  split.
  { apply Forall_forall. intros row Hrow.
    apply elem_of_lookup_zip_with in Hrow as (i & t & l & -> & Ht & Hl).
    rewrite length_app. rewrite Forall_forall in Hrows, Hlast.
    rewrite (Hrows t), (Hlast l); [lia | |]; apply list_elem_of_lookup; eauto. }
  split; [rewrite length_app, Hk; simpl; lia|].
  apply Forall_app. split; [exact Hout|]. constructor; [|constructor].
  split; [unfold last_token; rewrite !length_map; exact Hdlen|].
  apply Forall_fmap. eapply Forall_impl; [exact Hlast|].
  intros r Hr. cbn beta in Hr. unfold compose. rewrite length_map. exact Hr.
Qed.

Lemma for_range_spec (steps : list Z) (body : Z -> IDM.LoopState V -> result (IDM.LoopState V)) B :
  (forall step T k st, loop_inv B T k st -> (1 <= T)%nat ->
     exists st', body step st = Ok st' /\ loop_inv B (S T) (S k) st') ->
  forall T k st, loop_inv B T k st -> (1 <= T)%nat ->
    exists st', IDM.for_range steps body st = Ok st' /\
                loop_inv B (T + length steps) (k + length steps) st'.
Proof.
  intros Hbody. induction steps as [|step rest IH]; intros T k st Hinv HT; simpl.
  - exists st. split; [reflexivity|]. rewrite !Nat.add_0_r. exact Hinv.
  - destruct (Hbody step T k st Hinv HT) as (st1 & -> & Hinv1). cbn [Py.bind].
    destruct (IH (S T) (S k) st1 Hinv1 ltac:(lia)) as (st' & Hrun & Hinv').
    exists st'. split; [exact Hrun|].
    replace (T + S (length rest))%nat with (S T + length rest)%nat by lia.
    replace (k + S (length rest))%nat with (S k + length rest)%nat by lia.
    exact Hinv'.
Qed.

Lemma foldl_zip_app_length {A} (rest : list (list (list A))) : forall t B c,
  length t = B -> Forall (fun r => length r = c) t ->
  Forall (fun a => length a = B /\ Forall (fun r => length r = 1%nat) a) rest ->
  length (foldl (zip_with app) t rest) = B /\
  Forall (fun row => length row = (c + length rest)%nat)
         (foldl (zip_with app) t rest).
Proof.
  induction rest as [|a rest IH]; intros t B c HB Hrows Hrest; simpl.
  - rewrite Nat.add_0_r. auto.
  - apply Forall_cons in Hrest as [[Ha Har] Hrest].
    replace (c + S (length rest))%nat with (S c + length rest)%nat by lia.
    apply IH; [rewrite length_zip_with; lia | | exact Hrest].
    apply Forall_forall. intros row Hrow.
    apply elem_of_lookup_zip_with in Hrow as (i & x & y & -> & Hx & Hy).
    rewrite length_app. rewrite Forall_forall in Hrows, Har.
    rewrite (Hrows x), (Har y); [lia | |]; apply list_elem_of_lookup; eauto.
Qed.

Lemma cat_dim1_spec B n (out_tokens : list (list (list (list R)))) :
  (1 <= n)%nat -> length out_tokens = n ->
  Forall (fun a => length a = B /\ Forall (fun r => length r = 1%nat) a) out_tokens ->
  exists la, Torch.cat_dim1 out_tokens = Ok la /\ length la = B /\
             Forall (fun row => length row = n) la.
Proof.
  intros Hn Hlen Hall. destruct out_tokens as [|t rest]; [simpl in Hlen; lia|].
  apply Forall_cons in Hall as [[Ht Htr] Hrest]. simpl.
  eexists. split; [reflexivity|].
  destruct (foldl_zip_app_length rest t B 1 Ht Htr Hrest) as [H1 H2].
  split; [exact H1|]. simpl in Hlen.
  replace n with (1 + length rest)%nat by lia. exact H2.
Qed.

Lemma range_length n : length (range n) = Z.to_nat n.
Proof. unfold range. rewrite length_map, length_seq. reflexivity. Qed.

Lemma init_inv B : loop_inv B 1 0 (replicate B [mask_token_value], []).
Proof.
  unfold IDM.loop_inv. simpl. split; [apply length_replicate|].
  split; [|split; [reflexivity | constructor]].
  apply Forall_forall. intros row Hrow.
  apply elem_of_replicate in Hrow as [-> _]. reflexivity.
Qed.

Lemma encode_eval_spec x_before x_after draw :
  length x_before = length x_after ->
  exists src, encode' x_before x_after false draw = Ok src /\
              length src = length x_before.
Proof.
  intros HB. unfold IDM._encode_vision_context. cbn [Py.bind].
  assert (Hshape : IDM.same_shape
                     (map run_transformer (map patch_and_embed x_before))
                     (map run_transformer (map patch_and_embed x_after)) = true).
  { unfold IDM.same_shape. apply bool_decide_eq_true_2.
    apply list_eq. intros i. rewrite !list_lookup_fmap.
    destruct (x_before !! i) as [b|] eqn:Hb; simpl.
    - destruct (lookup_lt_is_Some_2 x_after i) as [a Ha].
      { rewrite <- HB. apply (lookup_lt_Some _ _ _ Hb). }
      rewrite Ha. simpl. rewrite !run_transformer_length, !patch_count. reflexivity.
    - apply lookup_ge_None in Hb.
      rewrite (proj2 (lookup_ge_None x_after i)) by lia. reflexivity. }
  rewrite Hshape. eexists. split; [reflexivity|].
  rewrite length_zip_with, !length_map. lia.
Qed.
Lemma elem_of_range k n : k ∈ range n <-> (0 <= k < n)%Z.
Proof.
  unfold range. rewrite list_elem_of_fmap. split.
  - intros (i & -> & Hi). apply elem_of_seq in Hi. lia.
  - intros Hk. exists (Z.to_nat k). split; [lia|]. apply elem_of_seq. lia.
Qed.

Lemma NoDup_range n : NoDup (range n).
Proof.
  unfold range. apply NoDup_fmap; [intros i j Hij; lia|].
  apply NoDup_ListNoDup, seq_NoDup.
Qed.

Lemma randint_spec low high :
  (low < high)%Z ->
  exists outs, Torch.randint low high = Ok outs /\ NoDup outs /\
               forall n, n ∈ outs <-> (low <= n < high)%Z.
Proof.
  intros Hlt. unfold Torch.randint.
  destruct (low <? high)%Z eqn:Hb; [|apply Z.ltb_ge in Hb; lia].
  eexists. split; [reflexivity|]. split.
  - apply NoDup_fmap; [intros i j Hij; lia | apply NoDup_range].
  - intros n. rewrite list_elem_of_fmap. split.
    + intros (k & -> & Hk). apply elem_of_range in Hk. lia.
    + intros Hn. exists (n - low)%Z. split; [lia|]. apply elem_of_range. lia.
Qed.

(** The loop run [n] times from the initial state, followed by the
    concatenation of the emitted slices. *)
Lemma loop_then_cat (body : Z -> IDM.LoopState V -> result (IDM.LoopState V)) B n :
  (1 <= n)%Z ->
  (forall step T k st, loop_inv B T k st -> (1 <= T)%nat ->
     exists st', body step st = Ok st' /\ loop_inv B (S T) (S k) st') ->
  exists st la,
    IDM.for_range (range n) body (replicate B [mask_token_value], []) = Ok st /\
    Torch.cat_dim1 st.2 = Ok la /\ length la = B /\
    Forall (fun row => Z.of_nat (length row) = n) la.
Proof.
  intros Hn Hbody.
  destruct (for_range_spec (range n) body B Hbody 1 0 _ (init_inv B) ltac:(lia))
    as (st & Hrun & (_ & _ & Hk & Hout)).
  rewrite range_length in Hk. simpl in Hk.
  destruct (cat_dim1_spec B (Z.to_nat n) st.2 ltac:(lia) Hk Hout)
    as (la & Hcat & Hlen & Hrows).
  exists st, la. split; [exact Hrun|]. split; [exact Hcat|]. split; [exact Hlen|].
  eapply Forall_impl; [exact Hrows|]. intros row Hrow. cbn beta in Hrow. lia.
Qed.

Lemma range_lookup n i :
  (i < Z.to_nat n)%nat -> range n !! i = Some (Z.of_nat i).
Proof.
  intros Hi. unfold range. rewrite list_lookup_fmap, lookup_seq_lt by exact Hi.
  reflexivity.
Qed.

(** The draw reduces the random integer modulo the number of outcomes. *)
Lemma sample_randint low high raw :
  (low < high)%Z ->
  exists outs, Torch.randint low high = Ok outs /\
    length outs = Z.to_nat (high - low) /\
    outs !! Z.to_nat (raw mod Z.of_nat (length outs))
      = Some (low + raw mod (high - low))%Z /\
    Torch.sample (Torch.randint low high) raw = Ok (low + raw mod (high - low))%Z.
Proof.
  intros Hlt. unfold Torch.sample, Torch.randint.
  destruct (low <? high)%Z eqn:Hb; [|apply Z.ltb_ge in Hb; lia].
  eexists. split; [reflexivity|]. cbn [Py.bind].
  assert (Hlen : length (map (fun k => (low + k)%Z) (range (high - low)))
                 = Z.to_nat (high - low))
    by (rewrite length_map; apply range_length).
  assert (Hlook : map (fun k => (low + k)%Z) (range (high - low))
                    !! Z.to_nat (raw mod Z.of_nat
                         (length (map (fun k => (low + k)%Z) (range (high - low)))))
                  = Some (low + raw mod (high - low))%Z).
  { rewrite Hlen, Z2Nat.id by lia.
    pose proof (Z.mod_pos_bound raw (high - low) ltac:(lia)) as Hm.
    rewrite list_lookup_fmap, range_lookup by lia. simpl.
    rewrite Z2Nat.id by lia. reflexivity. }
  split; [exact Hlen|]. split; [exact Hlook|]. rewrite Hlook. reflexivity.
Qed.

Lemma view_flat_spec {A} (la : list (list (list A))) :
  la <> [] -> Torch.view_flat la = Ok (map (fun row => concat row) la).
Proof. destruct la; [congruence | reflexivity]. Qed.

(** C7. In evaluation mode [IDM.forward] returns, for every sample of a
    batch that is not empty, exactly [num_eval_tokens] action vectors. In
    training mode the number of tokens is the integer the call
    [torch.randint(min_tokens, max_tokens + 1)] of [forward] draws: its
    equiprobable outcomes are the integers from [min_tokens] to
    [max_tokens], each once; the random integer [raw] selects the one at
    offset [raw] modulo their number, [n = min_tokens + raw % (max_tokens
    - min_tokens + 1)]; and the call then returns exactly [n] action
    vectors for every sample, whatever the images, the decoder, the
    action head and the other random draws are; every integer from
    [min_tokens] to [max_tokens] is the number of tokens of some draw. The
    retention count of the context encoding is taken not to exceed the
    number of patches. *)
Theorem forward_token_count (x_before x_after : list Image) :
  x_before <> [] ->
  length x_before = length x_after ->
  ((1 <= num_eval_tokens)%Z ->
   forall raw draws,
     exists out, forward' false raw draws x_before x_after = Ok out /\
       length (IDM.la out) = length x_before /\
       Forall (fun row => Z.of_nat (length row) = num_eval_tokens) (IDM.la out)) /\
  ((1 <= min_tokens <= max_tokens)%Z ->
   forall k, IDM.top_k top_pct P = Ok k -> (k <= Z.of_nat P)%Z ->
   exists outs, Torch.randint min_tokens (max_tokens + 1) = Ok outs /\
     NoDup outs /\
     (forall n, n ∈ outs <-> (min_tokens <= n <= max_tokens)%Z) /\
     (forall raw draws,
        exists n,
          n = (min_tokens + raw mod (max_tokens - min_tokens + 1))%Z /\
          outs !! Z.to_nat (raw mod Z.of_nat (length outs)) = Some n /\
          Torch.sample (Torch.randint min_tokens (max_tokens + 1)) raw = Ok n /\
          exists out, forward' true raw draws x_before x_after = Ok out /\
            length (IDM.la out) = length x_before /\
            Forall (fun row => Z.of_nat (length row) = n) (IDM.la out)) /\
     (forall n draws, n ∈ outs ->
        exists out,
          forward' true (n - min_tokens) draws x_before x_after = Ok out /\
          Forall (fun row => Z.of_nat (length row) = n) (IDM.la out))).
Proof.
  intros Hne HB. split.
  - intros Hn raw draws. unfold IDM.forward. cbn [negb].
    destruct (encode_eval_spec x_before x_after (draws 0%Z) HB)
      as (src & -> & Hsrc). cbn [Py.bind].
    destruct (loop_then_cat (fun _ => decode_step' src) (length x_before)
                num_eval_tokens Hn) as (st & la & -> & Hcat & Hlen & Hrows).
    { intros step T k st Hinv HT. apply (decode_step_spec src _ T k); assumption. }
    cbn [Py.bind]. rewrite Hcat. cbn [Py.bind].
    rewrite view_flat_spec
      by (intros ->; simpl in Hlen; destruct x_before; [congruence | discriminate]).
    cbn [Py.bind]. eexists. split; [reflexivity|]. simpl. auto.
  - intros [Hmin Hmax] k HP Hpct.
    destruct (randint_spec min_tokens (max_tokens + 1) ltac:(lia))
      as (outs & Houts & Hnd & Hin).
    exists outs. split; [exact Houts|]. split; [exact Hnd|].
    split; [intros n; rewrite Hin; lia|].
    assert (Hruns : forall raw draws,
      exists n,
        n = (min_tokens + raw mod (max_tokens - min_tokens + 1))%Z /\
        outs !! Z.to_nat (raw mod Z.of_nat (length outs)) = Some n /\
        Torch.sample (Torch.randint min_tokens (max_tokens + 1)) raw = Ok n /\
        exists out, forward' true raw draws x_before x_after = Ok out /\
          length (IDM.la out) = length x_before /\
          Forall (fun row => Z.of_nat (length row) = n) (IDM.la out));
      [|split; [exact Hruns|];
        intros n draws Hn; apply Hin in Hn;
        destruct (Hruns (n - min_tokens)%Z draws)
          as (n' & Hn' & _ & _ & out & Hrun & _ & Hrows);
        rewrite Z.mod_small in Hn' by lia;
        replace n' with n in Hrows by lia;
        exists out; split; [exact Hrun | exact Hrows]].
    intros raw draws.
    destruct (sample_randint min_tokens (max_tokens + 1) raw ltac:(lia))
      as (outs' & Houts' & _ & Hlook & Hsample).
    rewrite Houts in Houts'. injection Houts' as <-.
    replace (max_tokens + 1 - min_tokens)%Z
      with (max_tokens - min_tokens + 1)%Z in * by lia.
    set (n := (min_tokens + raw mod (max_tokens - min_tokens + 1))%Z) in *.
    pose proof (Z.mod_pos_bound raw (max_tokens - min_tokens + 1) ltac:(lia)) as Hm.
    exists n. split; [reflexivity|]. split; [exact Hlook|]. split; [exact Hsample|].
    unfold IDM.forward. cbn [negb]. rewrite Hsample. cbn [Py.bind].
    destruct (loop_then_cat
                (fun step_i st =>
                   src <- encode' x_before x_after true (draws step_i) ;;
                   decode_step' src st)
                (length x_before) n ltac:(lia))
      as (st & la & -> & Hcat & Hlen & Hrows).
    { intros step T j st Hinv HT.
      destruct (encode_training_runs transforms patch_and_embed run_transformer
                  drop_token_reshaped interleave top_pct run_transformer_length
                  transforms_length P patch_count x_before x_after (draws step) k
                  HP Hpct HB) as (src & acs & -> & Hsrc & _).
      cbn [Py.bind]. apply (decode_step_spec src _ T j); [assumption..|].
      rewrite Hsrc. symmetry. exact HB. }
    cbn [Py.bind]. rewrite Hcat. cbn [Py.bind].
    eexists. split; [reflexivity|]. simpl. auto.
Qed.
End ForwardFacts.

(** ** The properties at concrete instances *)

Section Witnesses.
Import Examples.

Lemma example_models :
  WorldModel.encoder wm = [1%positive] /\
  WorldModel.ema_encoder wm = [2%positive] /\
  heap !! 1%positive = Some (fresh [1; 2]%R) /\
  heap !! 2%positive = Some (set_requires_grad (fresh [1; 2]%R) false).
Proof. repeat split; reflexivity. Qed.
Lemma update_ema_is_interpolation_witness :
  exists h' pe', WorldModel.update_ema wm 0.9 heap = Ok h' /\
    h' !! 2%positive = Some pe' /\
    data pe' = WorldModel.interpolate 0.9 [1; 2]%R [1; 2]%R.
Proof.
  assert (Hmir : WorldModel.ema_mirror wm heap).
  { split; [apply NoDup_singleton|]. split.
    - intros id Hin Hin'.
      change (id ∈ [2%positive]) in Hin. change (id ∈ [1%positive]) in Hin'.
      apply list_elem_of_singleton in Hin. apply list_elem_of_singleton in Hin'.
      rewrite Hin in Hin'. discriminate.
    - change (Forall2 (fun e p => WorldModel.mirrored heap (e, p))
                [2%positive] [1%positive]).
      constructor; [|constructor].
      exists (set_requires_grad (fresh [1; 2]%R) false), (fresh [1; 2]%R).
      split; [reflexivity|]. split; reflexivity. }
  destruct (update_ema_is_interpolation wm 0.9 heap Hmir) as (h' & Hrun & Hema & _).
  destruct (Hema 0%nat 2%positive 1%positive
              (set_requires_grad (fresh [1; 2]%R) false) (fresh [1; 2]%R)
              eq_refl eq_refl eq_refl eq_refl) as (pe' & Hpe' & Hdata & _).
  exists h', pe'. split; [exact Hrun|]. split; [exact Hpe' | exact Hdata].
Defined.

Lemma ema_moved_only_by_update_ema_witness :
  exists w', Train.train_step unit loss_grad unit adamw (fun st => st)
               idm wm 0 tt world = Ok w' /\
    Train.trace w' = [Train.IdmLabel; Train.WmLabel; Train.OptimizerZeroGrad;
                      Train.LossBackward; Train.OptimizerStep;
                      Train.UpdateEma start_momentum; Train.WmZeroGrad;
                      Train.IdmZeroGrad].
Proof.
  assert (Hshape : forall (st : unit) (id : positive) (p : Param) (g : Tensor),
            length (adamw st id p g) = length (data p)).
  { intros st id p g. unfold adamw. apply length_map. }
  assert (Hmir : WorldModel.ema_mirror wm (Train.heap world)).
  { split; [apply NoDup_singleton|]. split.
    - intros id Hin Hin'.
      change (id ∈ [2%positive]) in Hin. change (id ∈ [1%positive]) in Hin'.
      apply list_elem_of_singleton in Hin. apply list_elem_of_singleton in Hin'.
      rewrite Hin in Hin'. discriminate.
    - change (Forall2 (fun e p => WorldModel.mirrored heap (e, p))
                [2%positive] [1%positive]).
      constructor; [|constructor].
      exists (set_requires_grad (fresh [1; 2]%R) false), (fresh [1; 2]%R).
      split; [reflexivity|]. split; reflexivity. }
  assert (Hfrozen : Train.ema_frozen wm (Train.heap world)).
  { intros id Hin. change (id ∈ [2%positive]) in Hin.
    apply list_elem_of_singleton in Hin. subst id.
    exists (set_requires_grad (fresh [1; 2]%R) false).
    split; [reflexivity|]. split; reflexivity. }
  destruct (proj2 ema_moved_only_by_update_ema unit loss_grad unit adamw
            (fun st => st) Hshape idm wm 0%Z tt world Hmir Hfrozen)
    as (w' & Hrun & _ & _ & _ & Htrace & _).
  exists w'. split; [exact Hrun | exact Htrace].
Defined.

Lemma encode_keeps_top_k_and_fills_drop_token_witness :
  IDM.top_k top_pct 4 = Ok 2%Z /\
  exists src,
    IDM._encode_vision_context transforms patch_and_embed run_transformer
      0%nat pair top_pct [1; 2]%nat [3; 4]%nat true draw = Ok src /\
    length src = 2%nat.
Proof.
  assert (Hrt : forall ps, length (run_transformer ps) = length ps).
  { intros ps. unfold run_transformer. apply length_map. }
  assert (Htr : forall (params : unit) x, length (transforms params x) = length x).
  { intros params x. reflexivity. }
  assert (Hpc : forall img, length (patch_and_embed img) = 4%nat).
  { intros img. reflexivity. }
  assert (Hk : IDM.top_k top_pct 4 = Ok 2%Z).
  { vm_compute. reflexivity. }
  split; [exact Hk|].
  destruct (encode_keeps_top_k_and_fills_drop_token transforms patch_and_embed
              run_transformer 0%nat pair top_pct Hrt Htr 4%nat Hpc
              [1; 2]%nat [3; 4]%nat draw 2%Z Hk ltac:(lia) eq_refl)
    as (_ & src & Hrun & Hlen & _).
  exists src. split; [exact Hrun | exact Hlen].
Defined.

(** C6 (as stated) fails on images of 100 patches. With the retention
    fraction [0.29], the float nearest to 29/100, a training pass keeps 28
    patches and fills the other 72 positions with the drop token (0 here,
    which no kept patch yields), where [max(1, floor(P * top_pct))] is 29
    for the fraction 29/100; with the retention fraction [0.15] it keeps
    15 patches, where the floor of the exact product of 100 and that
    float is 14. *)
Lemma keep_count_differs_from_floor :
  (exists idxs, IDM.kept_idxs pct_029 draw 0 100 = Ok idxs /\
     count_occ Bool.bool_dec (IDM.keep_mask 100 idxs) true = 28%nat) /\
  (exists src row,
     IDM._encode_vision_context transforms hundred_patches run_transformer
       0%nat pair pct_029 [1]%nat [2]%nat true draw = Ok src /\
     src !! 0%nat = Some row /\ length row = 100%nat /\
     count_occ Nat.eq_dec (map snd row) 0%nat = 72%nat) /\
  valid_binary 53 1024 pct_029 = true /\
  Qle_bool (Qabs (Py.float_value pct_029 - (29 # 100)))
           (1 # 36028797018963968) = true /\
  Z.max 1 (Qfloor (inject_Z 100 * (29 # 100))) = 29%Z /\
  (exists idxs, IDM.kept_idxs pct_015 draw 0 100 = Ok idxs /\
     count_occ Bool.bool_dec (IDM.keep_mask 100 idxs) true = 15%nat) /\
  valid_binary 53 1024 pct_015 = true /\
  Qle_bool (Qabs (Py.float_value pct_015 - (15 # 100)))
           (1 # 72057594037927936) = true /\
  Z.max 1 (Qfloor (inject_Z 100 * Py.float_value pct_015)) = 14%Z.
Proof.
  split.
  { eexists. split; [vm_compute; reflexivity | vm_compute; reflexivity]. }
  split.
  { eexists. eexists. split; [vm_compute; reflexivity|].
    split; [reflexivity|]. split; vm_compute; reflexivity. }
  split; [vm_compute; reflexivity|].
  split; [vm_compute; reflexivity|].
  split; [vm_compute; reflexivity|].
  split.
  { eexists. split; [vm_compute; reflexivity | vm_compute; reflexivity]. }
  split; [vm_compute; reflexivity|].
  split; vm_compute; reflexivity.
Qed.

Lemma forward_token_count_witness :
  (exists out,
     IDM.forward transforms patch_and_embed run_transformer 0%nat pair top_pct
       0%nat [decoder_layer] (fun v => v) action_head 2 10 10
       false 0 (fun _ => draw) [1; 2]%nat [3; 4]%nat = Ok out /\
     Forall (fun row => Z.of_nat (length row) = 10%Z) (IDM.la out)) /\
  (exists out,
     IDM.forward transforms patch_and_embed run_transformer 0%nat pair top_pct
       0%nat [decoder_layer] (fun v => v) action_head 2 10 10
       true 12 (fun _ => draw) [1; 2]%nat [3; 4]%nat = Ok out /\
     Forall (fun row => Z.of_nat (length row) = 5%Z) (IDM.la out)).
Proof.
  assert (Hrt : forall ps, length (run_transformer ps) = length ps).
  { intros ps. unfold run_transformer. apply length_map. }
  assert (Htr : forall (params : unit) x, length (transforms params x) = length x).
  { intros params x. reflexivity. }
  assert (Hpc : forall img, length (patch_and_embed img) = 4%nat).
  { intros img. reflexivity. }
  assert (Hk : IDM.top_k top_pct 4 = Ok 2%Z).
  { vm_compute. reflexivity. }
  assert (Hne : [1; 2]%nat <> []).
  { discriminate. }
  destruct (forward_token_count transforms patch_and_embed run_transformer
              0%nat pair top_pct 0%nat [decoder_layer] (fun v => v) action_head
              2 10 10 Hrt Htr 4%nat Hpc [1; 2]%nat [3; 4]%nat Hne eq_refl)
    as [Heval Htrain].
  split.
  - destruct (Heval ltac:(lia) 0%Z (fun _ => draw)) as (out & Hrun & _ & Hrows).
    exists out. split; [exact Hrun | exact Hrows].
  - destruct (Htrain ltac:(lia) 2%Z Hk ltac:(lia)) as (outs & _ & _ & _ & Hn & _).
    destruct (Hn 12%Z (fun _ => draw)) as (n & -> & _ & _ & out & Hrun & _ & Hrows).
    exists out. split; [exact Hrun | exact Hrows].
Defined.

Lemma label_is_per_layer_mse_witness :
  exists loss,
    WorldModel.label ema_patch_embed ema_pos_embed ema_encoder_layers
      (fun a : list unit => a) [] batch = Ok loss /\
    dims1 loss = 3%nat.
Proof.
  assert (Hpos : length ema_pos_embed = (2 * 1)%nat /\
                 Forall (fun row : list R => length row = 2%nat) ema_pos_embed).
  { split; [reflexivity | repeat constructor]. }
  assert (Hps : forall x, dims4 (ema_patch_embed x)
                          = (length x, 2%nat, 2%nat, 1%nat)).
  { intros x. reflexivity. }
  assert (Hls : Forall (fun layer : Tensor3 -> Tensor3 =>
                          forall t, dims3 (layer t) = dims3 t) ema_encoder_layers).
  { repeat constructor. }
  assert (Hds : Forall (fun ly : DoubleCrossDecoder.Layer (list unit) unit =>
                          forall ms ma mask,
                            dims3 (DoubleCrossDecoder.layer_forward ly ms ma mask)
                            = dims3 ms) []).
  { constructor. }
  assert (Hdepth : ema_encoder_layers <> []).
  { discriminate. }
  destruct (label_is_per_layer_mse ema_patch_embed ema_pos_embed ema_encoder_layers
              (fun a : list unit => a) [] 2%nat 1%nat 2%nat Hpos Hps Hls Hds Hdepth
              batch [tt] [1%nat] [2%nat] eq_refl eq_refl eq_refl)
    as (pred & target & loss & _ & _ & Hrun & Hdims & _).
  exists loss. split; [exact Hrun | exact Hdims].
Defined.

Lemma causal_mask_hides_future_witness :
  exists m out out',
    IDM._make_causal_mask 3 = Ok m /\
    TransformerDecoder.forward [decoder_layer] (fun v => v) [1; 2; 3]%nat [] m
      = Ok out /\
    TransformerDecoder.forward [decoder_layer] (fun v => v) [1; 2; 9]%nat [] m
      = Ok out' /\
    out !! 0%nat = out' !! 0%nat /\ out !! 1%nat = out' !! 1%nat.
Proof.
  assert (Hagree : forall j, (j <= 1)%nat -> [1; 2; 3]%nat !! j = [1; 2; 9]%nat !! j).
  { intros [|[|j]] Hj; [reflexivity | reflexivity | lia]. }
  destruct (proj2 (@causal_mask_hides_future nat (list (nat * nat)))
              [decoder_layer] (fun v => v) [] [1; 2; 3]%nat [1; 2; 9]%nat 1%nat
              eq_refl Hagree)
    as (m & out & out' & Hm & Hout & Hout' & _ & _ & Hsame).
  exists m, out, out'. split; [exact Hm|]. split; [exact Hout|].
  split; [exact Hout'|]. split; apply Hsame; lia.
Defined.

Lemma get_unique_params_once_witness :
  1%positive ∈ parameters idm /\ 1%positive ∈ parameters wm /\
  count_occ Pos.eq_dec (get_unique_params idm wm) 1%positive = 1%nat.
Proof.
  assert (Hin : 1%positive ∈ WorldModel.encoder wm).
  { change (1%positive ∈ [1%positive]). apply list_elem_of_singleton. reflexivity. }
  exact (proj2 get_unique_params_once init
           {| cells := ∅; next := 1%positive |} 1%positive Hin).
Defined.
End Witnesses.

(** * Further properties of the code *)

(** ** The learning-rate schedule beyond its end points *)

Section ScheduleMore.
Import Schedule.
Local Open Scope R_scope.

Lemma Rdiv_le_pos a b w : 0 < w -> a <= b -> a / w <= b / w.
Proof.
  intros Hw Hab. unfold Rdiv. apply Rmult_le_compat_r; [|exact Hab].
  left. apply Rinv_0_lt_compat, Hw.
Qed.

Lemma Rdiv_lt_pos a b w : 0 < w -> a < b -> a / w < b / w.
Proof.
  intros Hw Hab. unfold Rdiv. apply Rmult_lt_compat_r; [|exact Hab].
  apply Rinv_0_lt_compat, Hw.
Qed.

Lemma Rdiv_same w : 0 < w -> w / w = 1.
Proof. intros Hw. field. lra. Qed.

(** X1. Every rate the scheduler is asked for lies between the initial and the
    peak rate, also at the step after the last one, which the loop still
    queries; from the warmup boundary on it does not fall below the final
    rate. *)
Theorem lr_within_bounds total_steps step :
  (1 <= total_steps)%Z -> (0 <= step)%Z ->
  exists rate, scheduled_lr total_steps step = Ok rate /\
    INITIAL_LR <= rate <= PEAK_LR /\
    ((warmup_steps total_steps <= step)%Z -> FINAL_LR <= rate).
Proof.
  intros Ht Hs. pose proof (warmup_steps_lt _ Ht) as Hw.
  destruct (Z_lt_le_dec step (warmup_steps total_steps)) as [Hlt|Hge].
  - rewrite lr_warmup_value by lia. eexists. split; [reflexivity|].
    assert (Hwpos : 0 < IZR (warmup_steps total_steps)) by (apply IZR_lt; lia).
    assert (Hq0 : 0 / IZR (warmup_steps total_steps)
                  <= IZR step / IZR (warmup_steps total_steps)).
    { apply Rdiv_le_pos; [exact Hwpos | apply IZR_le; lia]. }
    assert (Hq1 : IZR step / IZR (warmup_steps total_steps)
                  <= IZR (warmup_steps total_steps) / IZR (warmup_steps total_steps)).
    { apply Rdiv_le_pos; [exact Hwpos | apply IZR_le; lia]. }
    rewrite Rdiv_same in Hq1 by exact Hwpos.
    unfold Rdiv at 1 in Hq0. rewrite Rmult_0_l in Hq0.
    set (q := IZR step / IZR (warmup_steps total_steps)) in *.
    unfold INITIAL_LR, PEAK_LR, FINAL_LR. split; [split; lra | intros; lia].
  - rewrite lr_decay_value by assumption. eexists. split; [reflexivity|].
    match goal with |- context [cos ?x] => pose proof (COS_bound x) as Hc;
      set (c := cos x) in * end.
    unfold INITIAL_LR, PEAK_LR, FINAL_LR. split; [split; lra | intros; lra].
Qed.

Lemma lr_within_bounds_witness :
  exists rate, scheduled_lr 1000 1001 = Ok rate /\
    INITIAL_LR <= rate <= PEAK_LR.
Proof.
  destruct (lr_within_bounds 1000 1001 ltac:(lia) ltac:(lia)) as (rate & Hr & Hb & _).
  exists rate. split; [exact Hr | exact Hb].
Defined.

(** X2. During the warmup the rate strictly increases from step to step. *)
Theorem lr_warmup_increasing total_steps step step' :
  (0 <= step < step')%Z -> (step' < warmup_steps total_steps)%Z ->
  exists rate rate',
    scheduled_lr total_steps step = Ok rate /\
    scheduled_lr total_steps step' = Ok rate' /\
    rate < rate'.
Proof.
  intros Hs Hw. rewrite !lr_warmup_value by lia.
  eexists _, _. split; [reflexivity|]. split; [reflexivity|].
  assert (Hwpos : 0 < IZR (warmup_steps total_steps)) by (apply IZR_lt; lia).
  assert (Hq : IZR step / IZR (warmup_steps total_steps)
               < IZR step' / IZR (warmup_steps total_steps)).
  { apply Rdiv_lt_pos; [exact Hwpos | apply IZR_lt; lia]. }
  set (q := IZR step / _) in *. set (q' := IZR step' / _) in *.
  unfold INITIAL_LR, PEAK_LR. lra.
Qed.

Lemma lr_warmup_increasing_witness :
  exists rate rate',
    scheduled_lr 1000 10 = Ok rate /\ scheduled_lr 1000 11 = Ok rate' /\
    rate < rate'.
Proof.
  apply (lr_warmup_increasing 1000 10 11); [lia|].
  vm_compute. reflexivity.
Defined.

(** X3. From the warmup boundary to the last step the rate never increases. *)
Theorem lr_decay_nonincreasing total_steps step step' :
  (1 <= total_steps)%Z ->
  (warmup_steps total_steps <= step <= step')%Z -> (step' <= total_steps)%Z ->
  exists rate rate',
    scheduled_lr total_steps step = Ok rate /\
    scheduled_lr total_steps step' = Ok rate' /\
    rate' <= rate.
Proof.
  intros Ht Hs Hs'. pose proof (warmup_steps_lt _ Ht) as Hw.
  rewrite !lr_decay_value by (try assumption; lia).
  eexists _, _. split; [reflexivity|]. split; [reflexivity|].
  set (w := warmup_steps total_steps) in *.
  assert (Hd : 0 < IZR (total_steps - w)) by (apply IZR_lt; lia).
  assert (Hp0 : 0 <= IZR (step - w) / IZR (total_steps - w)).
  { replace 0 with (0 / IZR (total_steps - w)) by (unfold Rdiv; apply Rmult_0_l).
    apply Rdiv_le_pos; [exact Hd | apply IZR_le; lia]. }
  assert (Hpp : IZR (step - w) / IZR (total_steps - w)
                <= IZR (step' - w) / IZR (total_steps - w)).
  { apply Rdiv_le_pos; [exact Hd | apply IZR_le; lia]. }
  assert (Hp1 : IZR (step' - w) / IZR (total_steps - w) <= 1).
  { rewrite <- (Rdiv_same (IZR (total_steps - w))) by exact Hd.
    apply Rdiv_le_pos; [exact Hd | apply IZR_le; lia]. }
  set (p := IZR (step - w) / _) in *. set (p' := IZR (step' - w) / _) in *.
  pose proof PI_RGT_0 as Hpi.
  assert (Hcos : cos (PI * p') <= cos (PI * p)).
  { apply cos_decr_1; try nra. }
  unfold PEAK_LR, FINAL_LR. lra.
Qed.

Lemma lr_decay_nonincreasing_witness :
  exists rate rate',
    scheduled_lr 1000 150 = Ok rate /\ scheduled_lr 1000 1000 = Ok rate' /\
    rate' <= rate.
Proof.
  apply (lr_decay_nonincreasing 1000 150 1000); [lia | | lia].
  vm_compute. split; discriminate.
Defined.

(** X4. With [total_steps = 0] the schedule has no value at any step: both
    branches divide by zero. *)
Theorem lr_undefined_without_steps step :
  lr_lambda 0 step = Raise ZeroDivisionError /\
  scheduled_lr 0 step = Raise ZeroDivisionError.
Proof.
  assert (H : lr_lambda 0 step = Raise ZeroDivisionError).
  { unfold lr_lambda. change (warmup_steps 0) with 0%Z.
    destruct (step <? 0)%Z; reflexivity. }
  split; [exact H|]. unfold scheduled_lr. rewrite H. reflexivity.
Qed.
End ScheduleMore.

(** ** The EMA update at its extremes *)

Section EmaMore.
Import WorldModel.
Local Open Scope R_scope.

Lemma interpolate_1 (s o : Tensor) :
  length s = length o -> interpolate 1 s o = s.
Proof.
  unfold interpolate. revert o. induction s as [|x s IH]; intros [|y o] Hlen;
    try discriminate; [reflexivity|].
  simpl. f_equal; [lra | apply IH; simpl in Hlen; lia].
Qed.

Lemma interpolate_0 (s o : Tensor) :
  length s = length o -> interpolate 0 s o = o.
Proof.
  unfold interpolate. revert o. induction s as [|x s IH]; intros [|y o] Hlen;
    try discriminate; [reflexivity|].
  simpl. f_equal; [lra | apply IH; simpl in Hlen; lia].
Qed.

Lemma interpolate_same m (s : Tensor) : interpolate m s s = s.
Proof.
  unfold interpolate. induction s as [|x s IH]; [reflexivity|].
  simpl. f_equal; [lra | exact IH].
Qed.

Lemma interpolate_lookup m (s o : list R) k x y :
  s !! k = Some x -> o !! k = Some y ->
  (interpolate m s o : list R) !! k = Some (m * x + (1 - m) * y).
Proof.
  intros Hx Hy. unfold interpolate.
  rewrite (lookup_zip_with (fun s0 o0 : R => m * s0 + (1 - m) * o0) s o k), Hx.
  simpl. rewrite Hy. reflexivity.
Qed.

Lemma set_data_same p : set_data p (data p) = p.
Proof. destruct p. reflexivity. Qed.

(** A heap in which [update_ema] rewrites every shadow cell with the
    cell it already holds is left as it is. *)
Lemma update_ema_unchanged (wm : WorldModel.t) (m : R) (h : Store) :
  ema_mirror wm h ->
  (forall i e p pe pp,
     ema_encoder wm !! i = Some e -> encoder wm !! i = Some p ->
     h !! e = Some pe -> h !! p = Some pp ->
     interpolate m (data pe) (data pp) = data pe) ->
  update_ema wm m h = Ok h.
Proof.
  intros Hmir Hsame.
  destruct (update_ema_spec wm m h Hmir) as (h' & Hrun & Hema & Hother).
  rewrite Hrun. f_equal. apply map_eq. intros id.
  destruct (decide (id ∈ ema_encoder wm)) as [Hin|Hout]; [|apply Hother, Hout].
  apply list_elem_of_lookup in Hin as [i Hi].
  destruct Hmir as (_ & _ & Hpairs).
  destruct (Forall2_lookup_l _ _ _ _ _ Hpairs Hi) as (p & Hp & pe & pp & Hpe & Hpp & _).
  cbn [fst snd] in Hpe, Hpp.
  rewrite (Hema i id p pe pp Hi Hp Hpe Hpp), (Hsame i id p pe pp Hi Hp Hpe Hpp).
  rewrite set_data_same. symmetry. exact Hpe.
Qed.

(** X5. With momentum 1 [update_ema] changes nothing at all; with momentum
    0 every shadow tensor becomes a copy of its online tensor. *)
Theorem update_ema_extreme_momentum (wm : WorldModel.t) (h : Store) :
  ema_mirror wm h ->
  update_ema wm 1 h = Ok h /\
  exists h', update_ema wm 0 h = Ok h' /\
    forall i e p pe pp,
      ema_encoder wm !! i = Some e -> encoder wm !! i = Some p ->
      h !! e = Some pe -> h !! p = Some pp ->
      h' !! e = Some (set_data pe (data pp)).
Proof.
  intros Hmir. split.
  - apply update_ema_unchanged; [exact Hmir|].
    intros i e p pe pp He Hp Hpe Hpp. apply interpolate_1.
    destruct Hmir as (_ & _ & Hpairs).
    destruct (Forall2_lookup_lr _ _ _ _ _ _ Hpairs He Hp)
      as (pe0 & pp0 & Hpe0 & Hpp0 & Hlen). cbn [fst snd] in Hpe0, Hpp0.
    congruence.
  - destruct (update_ema_spec wm 0 h Hmir) as (h' & Hrun & Hema & _).
    exists h'. split; [exact Hrun|].
    intros i e p pe pp He Hp Hpe Hpp.
    rewrite (Hema i e p pe pp He Hp Hpe Hpp). do 2 f_equal.
    apply interpolate_0.
    destruct Hmir as (_ & _ & Hpairs).
    destruct (Forall2_lookup_lr _ _ _ _ _ _ Hpairs He Hp)
      as (pe0 & pp0 & Hpe0 & Hpp0 & Hlen). cbn [fst snd] in Hpe0, Hpp0.
    congruence.
Qed.

(** X6. For a momentum between 0 and 1 every entry of an updated shadow
    tensor lies between the old shadow entry and the online entry. *)
Theorem update_ema_between (wm : WorldModel.t) (m : R) (h h' : Store) :
  ema_mirror wm h -> 0 <= m <= 1 ->
  update_ema wm m h = Ok h' ->
  forall i e p pe pp k x y,
    ema_encoder wm !! i = Some e -> encoder wm !! i = Some p ->
    h !! e = Some pe -> h !! p = Some pp ->
    data pe !! k = Some x -> data pp !! k = Some y ->
    exists pe' z, h' !! e = Some pe' /\ data pe' !! k = Some z /\
                  Rmin x y <= z <= Rmax x y.
Proof.
  intros Hmir Hm Hrun i e p pe pp k x y He Hp Hpe Hpp Hx Hy.
  destruct (update_ema_spec wm m h Hmir) as (h1 & Hrun1 & Hema & _).
  rewrite Hrun in Hrun1. injection Hrun1 as <-.
  eexists _, _. split; [exact (Hema i e p pe pp He Hp Hpe Hpp)|].
  split; [simpl; apply (interpolate_lookup m _ _ k x y Hx Hy)|].
  unfold Rmin, Rmax. destruct (Rle_dec x y); nra.
Qed.

(** X7. When every shadow tensor equals its online tensor, as right after
    construction, [update_ema] changes nothing, whatever the momentum. *)
Theorem update_ema_in_sync (wm : WorldModel.t) (m : R) (h : Store) :
  ema_mirror wm h ->
  (forall i e p pe pp,
     ema_encoder wm !! i = Some e -> encoder wm !! i = Some p ->
     h !! e = Some pe -> h !! p = Some pp -> data pe = data pp) ->
  update_ema wm m h = Ok h.
Proof.
  intros Hmir Hsync. apply update_ema_unchanged; [exact Hmir|].
  intros i e p pe pp He Hp Hpe Hpp.
  rewrite <- (Hsync i e p pe pp He Hp Hpe Hpp). apply interpolate_same.
Qed.
End EmaMore.

(** ** The positional table and the construction of the encoder *)

Section PosEmbedFacts.
Import VisionEncoder.
Local Open Scope Z_scope.

Lemma arange_spec n :
  0 <= n -> exists ks, arange n = Ok ks /\ length ks = Z.to_nat n.
Proof.
  intros Hn. unfold arange.
  destruct (n <? 0) eqn:Hb; [apply Z.ltb_lt in Hb; lia|].
  eexists. split; [reflexivity|].
  unfold range. rewrite !length_map, length_seq. reflexivity.
Qed.

Lemma arange_negative n : n < 0 -> arange n = Raise RuntimeError.
Proof.
  intros Hn. unfold arange.
  destruct (n <? 0) eqn:Hb; [reflexivity | apply Z.ltb_ge in Hb; lia].
Qed.

Lemma _get_1d_sincos_pos_embed_spec d pos :
  0 <= d -> d mod 2 = 0 ->
  exists rows, _get_1d_sincos_pos_embed d pos = Ok rows /\
    length rows = length pos /\
    Forall (fun row => length row = Z.to_nat d) rows /\
    unit_bounded rows.
Proof.
  intros Hd Heven. unfold _get_1d_sincos_pos_embed, mod_, floordiv, assert.
  cbn [Z.eqb Py.bind]. rewrite Heven. cbn [Z.eqb Py.bind].
  destruct (arange_spec (d / 2)) as (ks & -> & Hks); [apply Z.div_pos; lia|].
  cbn [Py.bind]. eexists. split; [reflexivity|].
  split; [apply length_map|]. split.
  - apply Forall_forall. intros row Hrow.
    apply list_elem_of_fmap in Hrow as (p & -> & _).
    rewrite length_app, !length_map, Hks.
    assert (d = 2 * (d / 2)) by (apply Z.div_exact; lia). lia.
  - apply Forall_forall. intros row Hrow.
    apply list_elem_of_fmap in Hrow as (p & -> & _).
    apply Forall_app. split; apply Forall_forall; intros v Hv;
      apply list_elem_of_fmap in Hv as (a & -> & _);
      [apply SIN_bound | apply COS_bound].
Qed.

Lemma _get_1d_sincos_pos_embed_odd d pos :
  d mod 2 <> 0 ->
  _get_1d_sincos_pos_embed d pos
    = Raise (AssertionError "Embed dimension must be even for sine and cosine.").
Proof.
  intros Hodd. unfold _get_1d_sincos_pos_embed, mod_, assert.
  cbn [Z.eqb Py.bind].
  destruct (d mod 2 =? 0) eqn:Hb; [apply Z.eqb_eq in Hb; contradiction|].
  reflexivity.
Qed.

Lemma meshgrid_flat_length (h w : list R) :
  length (meshgrid_flat h w).1 = (length h * length w)%nat /\
  length (meshgrid_flat h w).2 = (length h * length w)%nat.
Proof.
  unfold meshgrid_flat. simpl. split.
  - induction h as [|x h IH]; simpl; [reflexivity|].
    rewrite length_app, length_map, IH. reflexivity.
  - induction h as [|x h IH]; simpl; [reflexivity|].
    rewrite length_app, IH. reflexivity.
Qed.

(** The table of a grid: one row per patch, [embed_dim] entries per row,
    every entry a sine or a cosine. *)
Lemma _get_2d_sincos_pos_embed_spec embed_dim grid_size :
  0 <= embed_dim -> embed_dim mod 4 = 0 -> 0 <= grid_size ->
  exists table, _get_2d_sincos_pos_embed embed_dim grid_size = Ok table /\
    length table = Z.to_nat (grid_size ^ 2) /\
    Forall (fun row => length row = Z.to_nat embed_dim) table /\
    unit_bounded table.
Proof.
  intros He H4 Hg.
  assert (Heven : embed_dim mod 2 = 0).
  { rewrite <- (Z.mod_mod_divide embed_dim 4 2) by (exists 2; lia).
    rewrite H4. reflexivity. }
  assert (Hhalf : (embed_dim / 2) mod 2 = 0).
  { assert (embed_dim = 4 * (embed_dim / 4)) by (apply Z.div_exact; lia).
    assert (Hq : embed_dim / 2 = 2 * (embed_dim / 4)).
    { symmetry. apply Z.div_unique_exact; lia. }
    rewrite Hq, Z.mul_comm. apply Z.mod_mul. lia. }
  unfold _get_2d_sincos_pos_embed, mod_, floordiv, assert.
  cbn [Z.eqb Py.bind]. rewrite Heven. cbn [Z.eqb Py.bind].
  destruct (arange_spec grid_size Hg) as (ks & -> & Hks). cbn [Py.bind].
  pose proof (meshgrid_flat_length ks ks) as [Hmh Hmw].
  destruct (meshgrid_flat ks ks) as [gh gw]. cbn [fst snd Py.bind] in *.
  destruct (_get_1d_sincos_pos_embed_spec (embed_dim / 2) gh)
    as (ph & -> & Hph & Hrh & Hbh); [apply Z.div_pos; lia | exact Hhalf |].
  destruct (_get_1d_sincos_pos_embed_spec (embed_dim / 2) gw)
    as (pw & -> & Hpw & Hrw & Hbw); [apply Z.div_pos; lia | exact Hhalf |].
  cbn [Py.bind]. eexists. split; [reflexivity|]. split; [|split].
  - rewrite length_zip_with, Hph, Hpw, Hmh, Hmw, Hks. nia.
  - apply Forall_forall. intros row Hrow.
    apply elem_of_lookup_zip_with in Hrow as (i & a & b & -> & Ha & Hb).
    rewrite length_app. rewrite Forall_forall in Hrh, Hrw.
    rewrite (Hrh a), (Hrw b) by (apply list_elem_of_lookup; eauto).
    assert (embed_dim = 2 * (embed_dim / 2)) by (apply Z.div_exact; lia). lia.
  - apply Forall_forall. intros row Hrow.
    apply elem_of_lookup_zip_with in Hrow as (i & a & b & -> & Ha & Hb).
    unfold unit_bounded in Hbh, Hbw. rewrite Forall_forall in Hbh, Hbw.
    apply Forall_app. split; [apply Hbh | apply Hbw]; apply list_elem_of_lookup; eauto.
Qed.

Lemma _get_1d_sincos_pos_embed_eq d pos :
  0 <= d -> d mod 2 = 0 ->
  _get_1d_sincos_pos_embed d pos = Ok (map (sincos_code d) pos).
Proof.
  intros Hd Heven. unfold _get_1d_sincos_pos_embed, mod_, floordiv, assert.
  cbn [Z.eqb Py.bind]. rewrite Heven. cbn [Z.eqb Py.bind].
  unfold arange.
  destruct (d / 2 <? 0) eqn:Hb.
  { apply Z.ltb_lt in Hb. pose proof (Z.div_pos d 2). lia. }
  cbn [Py.bind]. f_equal. apply map_ext. intros p.
  unfold sincos_code. rewrite !map_map. reflexivity.
Qed.

Lemma meshgrid_flat_lookup (h w : list R) (r c : nat) x y :
  h !! r = Some x -> w !! c = Some y ->
  (meshgrid_flat h w).1 !! (r * length w + c)%nat = Some x /\
  (meshgrid_flat h w).2 !! (r * length w + c)%nat = Some y.
Proof.
  unfold meshgrid_flat. cbn [fst snd].
  revert r. induction h as [|a h IH]; intros r Hx Hy; [discriminate|].
  pose proof (lookup_lt_Some _ _ _ Hy) as Hc.
  destruct r as [|r]; cbn [flat_map].
  - injection Hx as ->. cbn [Nat.mul Nat.add]. split.
    + rewrite lookup_app_l by (rewrite length_map; exact Hc).
      rewrite list_lookup_fmap, Hy. reflexivity.
    + rewrite lookup_app_l by exact Hc. exact Hy.
  - cbn in Hx. destruct (IH r Hx Hy) as [IH1 IH2]. split.
    + rewrite lookup_app_r by (rewrite length_map; lia).
      rewrite length_map.
      replace (S r * length w + c - length w)%nat with (r * length w + c)%nat by lia.
      exact IH1.
    + rewrite lookup_app_r by lia.
      replace (S r * length w + c - length w)%nat with (r * length w + c)%nat by lia.
      exact IH2.
Qed.

Lemma arange_lookup n r :
  0 <= r < n -> exists ks, arange n = Ok ks /\ length ks = Z.to_nat n /\
                           ks !! Z.to_nat r = Some (IZR r).
Proof.
  intros Hr. destruct (arange_spec n) as (ks & Hks & Hlen); [lia|].
  exists ks. split; [exact Hks|]. split; [exact Hlen|].
  unfold arange in Hks. destruct (n <? 0); [discriminate|].
  injection Hks as <-. unfold range.
  rewrite !list_lookup_fmap, lookup_seq_lt by lia.
  cbn. rewrite Z2Nat.id by lia. reflexivity.
Qed.

Lemma pos_embed_half_even embed_dim :
  embed_dim mod 4 = 0 -> embed_dim mod 2 = 0 /\ (embed_dim / 2) mod 2 = 0.
Proof.
  intros H4.
  assert (H : embed_dim = 4 * (embed_dim / 4)) by (apply Z.div_exact; lia).
  assert (Hq : embed_dim / 2 = 2 * (embed_dim / 4)).
  { symmetry. apply Z.div_unique_exact; lia. }
  split.
  - rewrite H. replace (4 * (embed_dim / 4)) with ((2 * (embed_dim / 4)) * 2) by lia.
    apply Z.mod_mul. lia.
  - rewrite Hq, Z.mul_comm. apply Z.mod_mul. lia.
Qed.

Lemma pos_embed_half_odd embed_dim :
  embed_dim mod 2 = 0 -> embed_dim mod 4 <> 0 -> (embed_dim / 2) mod 2 <> 0.
Proof.
  intros H2 H4 Hh. apply H4.
  assert (H : embed_dim = 2 * (embed_dim / 2)) by (apply Z.div_exact; lia).
  assert (Hq : embed_dim / 2 = 2 * (embed_dim / 2 / 2)) by (apply Z.div_exact; lia).
  rewrite H, Hq.
  replace (2 * (2 * (embed_dim / 2 / 2))) with ((embed_dim / 2 / 2) * 4) by lia.
  apply Z.mod_mul. lia.
Qed.

Lemma pos_embed_not_multiple_of_4 embed_dim grid_size :
  0 <= grid_size -> embed_dim mod 4 <> 0 ->
  _get_2d_sincos_pos_embed embed_dim grid_size
    = Raise (AssertionError "Embed dimension must be even for sine and cosine.").
Proof.
  intros Hg H4. unfold _get_2d_sincos_pos_embed, mod_, floordiv, assert.
  cbn [Z.eqb Py.bind].
  destruct (embed_dim mod 2 =? 0) eqn:Heven; [|reflexivity].
  apply Z.eqb_eq in Heven. cbn [Py.bind].
  destruct (arange_spec grid_size Hg) as (ks & -> & _). cbn [Py.bind].
  destruct (meshgrid_flat ks ks) as [gh gw].
  rewrite _get_1d_sincos_pos_embed_odd by (apply pos_embed_half_odd; assumption).
  reflexivity.
Qed.

(** X8. The positional table exists exactly for an embedding dimension that
    is a multiple of 4: the dimension is halved between the row and the
    column index, and each half is halved again between sines and cosines,
    so an even dimension that is not a multiple of 4 fails the inner
    assertion, with the message of the outer one. *)
Theorem pos_embed_needs_multiple_of_4 embed_dim grid_size :
  0 <= grid_size -> 0 <= embed_dim ->
  (embed_dim mod 4 = 0
   <-> exists table, _get_2d_sincos_pos_embed embed_dim grid_size = Ok table) /\
  (embed_dim mod 4 <> 0 ->
   _get_2d_sincos_pos_embed embed_dim grid_size
     = Raise (AssertionError "Embed dimension must be even for sine and cosine.")).
Proof.
  intros Hg He. split; [split|].
  - intros H4.
    destruct (_get_2d_sincos_pos_embed_spec embed_dim grid_size He H4 Hg)
      as (table & Hok & _).
    exists table. exact Hok.
  - intros [table Hok].
    destruct (Z.eq_dec (embed_dim mod 4) 0) as [|Hn]; [assumption|].
    rewrite (pos_embed_not_multiple_of_4 embed_dim grid_size Hg Hn) in Hok.
    discriminate.
  - apply pos_embed_not_multiple_of_4. exact Hg.
Qed.

Lemma pos_embed_needs_multiple_of_4_witness :
  _get_2d_sincos_pos_embed 6 4
    = Raise (AssertionError "Embed dimension must be even for sine and cosine.").
Proof.
  apply (pos_embed_needs_multiple_of_4 6 4); [lia | lia | vm_compute; discriminate].
Defined.

(** X9. For an embedding dimension that is a non-negative multiple of 4 the
    positional table has one row per patch of the grid and [embed_dim]
    entries per row, all between -1 and 1; patches are numbered row by row,
    and the row of the patch at grid position (r, c) is the sine-cosine code
    of r on the first half of the entries followed by that of c. *)
Theorem pos_embed_table embed_dim grid_size :
  0 <= embed_dim -> embed_dim mod 4 = 0 -> 0 <= grid_size ->
  exists table, _get_2d_sincos_pos_embed embed_dim grid_size = Ok table /\
    length table = Z.to_nat (grid_size ^ 2) /\
    Forall (fun row => length row = Z.to_nat embed_dim) table /\
    unit_bounded table /\
    forall r c, 0 <= r < grid_size -> 0 <= c < grid_size ->
      table !! Z.to_nat (r * grid_size + c)
        = Some (sincos_code (embed_dim / 2) (IZR r)
                ++ sincos_code (embed_dim / 2) (IZR c)).
Proof.
  intros He H4 Hg.
  destruct (_get_2d_sincos_pos_embed_spec embed_dim grid_size He H4 Hg)
    as (table & Htable & Hlen & Hrows & Hbound).
  exists table. repeat (split; [assumption|]).
  intros r c Hr Hc.
  destruct (pos_embed_half_even embed_dim H4) as [Heven Hhalf].
  revert Htable. unfold _get_2d_sincos_pos_embed, mod_, floordiv, assert.
  cbn [Z.eqb Py.bind]. rewrite Heven. cbn [Z.eqb Py.bind].
  destruct (arange_lookup grid_size r Hr) as (ks & Hok & Hks & Hkr).
  destruct (arange_lookup grid_size c Hc) as (ks' & Hks' & _ & Hkc).
  rewrite Hok in Hks'. injection Hks' as <-. rewrite Hok. cbn [Py.bind].
  destruct (meshgrid_flat_lookup ks ks _ _ _ _ Hkr Hkc) as [Hgh Hgw].
  destruct (meshgrid_flat ks ks) as [gh gw]. cbn [fst snd] in Hgh, Hgw.
  rewrite !_get_1d_sincos_pos_embed_eq by (try apply Z.div_pos; lia).
  cbn [Py.bind]. intros [= <-].
  replace (Z.to_nat (r * grid_size + c))
    with (Z.to_nat r * length ks + Z.to_nat c)%nat by (rewrite Hks; nia).
  rewrite lookup_zip_with, !list_lookup_fmap, Hgh, Hgw. reflexivity.
Qed.

Lemma pos_embed_table_witness :
  exists table, _get_2d_sincos_pos_embed 8 2 = Ok table /\
    length table = Z.to_nat (2 ^ 2) /\
    Forall (fun row => length row = Z.to_nat 8) table /\
    unit_bounded table /\
    forall r c, 0 <= r < 2 -> 0 <= c < 2 ->
      table !! Z.to_nat (r * 2 + c)
        = Some (sincos_code (8 / 2) (IZR r) ++ sincos_code (8 / 2) (IZR c)).
Proof.
  apply (pos_embed_table 8 2); [lia | reflexivity | lia].
Defined.

Lemma pos_embed_ok_inv embed_dim grid_size table :
  _get_2d_sincos_pos_embed embed_dim grid_size = Ok table ->
  0 <= grid_size /\ 0 <= embed_dim /\ embed_dim mod 4 = 0.
Proof.
  intros Hok.
  assert (Hg : 0 <= grid_size).
  { destruct (Z.le_gt_cases 0 grid_size) as [|Hneg]; [assumption|].
    revert Hok. unfold _get_2d_sincos_pos_embed, mod_, assert.
    cbn [Z.eqb Py.bind].
    destruct (embed_dim mod 2 =? 0); [|discriminate]. cbn [Py.bind].
    rewrite arange_negative by lia. discriminate. }
  assert (H4 : embed_dim mod 4 = 0).
  { destruct (Z.eq_dec (embed_dim mod 4) 0) as [|Hn]; [assumption|].
    rewrite (pos_embed_not_multiple_of_4 embed_dim grid_size Hg Hn) in Hok.
    discriminate. }
  split; [exact Hg|]. split; [|exact H4].
  destruct (Z.le_gt_cases 0 embed_dim) as [|Hneg]; [assumption|].
  destruct (pos_embed_half_even embed_dim H4) as [Heven Hhalf].
  revert Hok. unfold _get_2d_sincos_pos_embed, mod_, floordiv, assert.
  cbn [Z.eqb Py.bind]. rewrite Heven. cbn [Z.eqb Py.bind].
  destruct (arange_spec grid_size Hg) as (ks & -> & _). cbn [Py.bind].
  destruct (meshgrid_flat ks ks) as [gh gw].
  unfold _get_1d_sincos_pos_embed at 1. unfold mod_, floordiv, assert.
  cbn [Z.eqb Py.bind]. rewrite Hhalf. cbn [Z.eqb Py.bind].
  rewrite arange_negative; [discriminate|].
  assert (embed_dim / 2 < 0) by (apply Z.div_lt_upper_bound; lia).
  apply Z.div_lt_upper_bound; lia.
Qed.
End PosEmbedFacts.

(** ** Construction and forward pass of the vision encoder *)

Section EncoderFacts.
Import VisionEncoder.
Local Open Scope Z_scope.

Lemma mapM_const {A B} (y : B) (l : list A) :
  mapM (fun _ => Ok y) l = Ok (replicate (length l) y).
Proof.
  induction l as [|x l IH]; [reflexivity|].
  cbn [mapM Py.bind length replicate]. rewrite IH. reflexivity.
Qed.

(** X10. What holds of every encoder [VisionEncoder.__init__] returns: the
    patch size divides the image size, the grid has [img_size // patch_size]
    patches a side and [num_patches] is its square, the embedding dimension
    is a non-negative multiple of 4, the positional table has one row of
    [embed_dim] entries per patch, and there are [depth] layers. *)
Theorem init_invariants (T : Torch)
    img_size patch_size in_chans embed_dim depth num_heads (enc : t T) :
  __init__ T img_size patch_size in_chans embed_dim depth num_heads = Ok enc ->
  patch_size <> 0 /\ img_size mod patch_size = 0 /\
  VisionEncoder.grid_size T enc = img_size / patch_size /\
  0 <= VisionEncoder.grid_size T enc /\
  VisionEncoder.num_patches T enc = VisionEncoder.grid_size T enc ^ 2 /\
  VisionEncoder.embed_dim T enc = embed_dim /\
  0 <= embed_dim /\ embed_dim mod 4 = 0 /\
  length (VisionEncoder.pos_embed T enc)
    = Z.to_nat (VisionEncoder.num_patches T enc) /\
  Forall (fun row => length row = Z.to_nat embed_dim)
         (VisionEncoder.pos_embed T enc) /\
  length (VisionEncoder.encoder_layers T enc) = Z.to_nat depth.
Proof.
  unfold __init__, mod_, floordiv, assert.
  destruct (patch_size =? 0) eqn:Hp; [discriminate|]. apply Z.eqb_neq in Hp.
  cbn [Py.bind].
  destruct (img_size mod patch_size =? 0) eqn:Hm; [|discriminate].
  apply Z.eqb_eq in Hm. cbn [Py.bind].
  destruct (Conv2d_new T in_chans embed_dim patch_size patch_size) as [conv|];
    [|discriminate]. cbn [Py.bind].
  destruct (_get_2d_sincos_pos_embed embed_dim (img_size / patch_size))
    as [table|] eqn:Htable; [|discriminate]. cbn [Py.bind].
  destruct (mapM _ (range depth)) as [layers|] eqn:Hlayers; [|discriminate].
  cbn [Py.bind]. intros [= <-]. cbn.
  destruct (pos_embed_ok_inv _ _ _ Htable) as (Hg & He & H4).
  destruct (_get_2d_sincos_pos_embed_spec embed_dim _ He H4 Hg)
    as (table' & Htable' & Hlen & Hrows & _).
  rewrite Htable in Htable'. injection Htable' as <-.
  repeat (split; [first [assumption | reflexivity]|]).
  apply mapM_length in Hlayers. rewrite Hlayers. apply range_length.
Qed.

(** X11. A configuration with a patch size dividing the image size, an
    embedding dimension that is a non-negative multiple of 4, and arguments
    the library accepts for the convolution and for one encoder layer
    builds an encoder; its layers are [depth] results of the same
    constructor call, none for a depth of 0 or less, in which case the layer
    constructor is not consulted. *)
Theorem init_succeeds (T : Torch)
    img_size patch_size in_chans embed_dim depth num_heads conv layer :
  patch_size <> 0 -> img_size mod patch_size = 0 -> 0 <= img_size / patch_size ->
  0 <= embed_dim -> embed_dim mod 4 = 0 ->
  Conv2d_new T in_chans embed_dim patch_size patch_size = Ok conv ->
  (1 <= depth ->
   TransformerEncoderLayer_new T embed_dim num_heads (embed_dim * 4) = Ok layer) ->
  exists enc,
    __init__ T img_size patch_size in_chans embed_dim depth num_heads = Ok enc /\
    VisionEncoder.patch_embed T enc = conv /\
    VisionEncoder.encoder_layers T enc = replicate (Z.to_nat depth) layer.
Proof.
  intros Hp Hm Hg He H4 Hconv Hlayer.
  unfold __init__, mod_, floordiv, assert.
  destruct (patch_size =? 0) eqn:Hp0; [apply Z.eqb_eq in Hp0; contradiction|].
  cbn [Py.bind]. rewrite Hm. cbn [Z.eqb Py.bind]. rewrite Hconv. cbn [Py.bind].
  destruct (_get_2d_sincos_pos_embed_spec embed_dim _ He H4 Hg)
    as (table & -> & _). cbn [Py.bind].
  destruct (Z.le_gt_cases 1 depth) as [Hd|Hd].
  - rewrite (Hlayer Hd), mapM_const. cbn [Py.bind].
    eexists. split; [reflexivity|]. cbn. split; [reflexivity|].
    rewrite range_length. reflexivity.
  - unfold range. replace (Z.to_nat depth) with 0%nat by lia.
    cbn [seq map mapM Py.bind]. eexists. split; [reflexivity|].
    cbn. split; reflexivity.
Qed.
End EncoderFacts.

Section EncoderForward.
Import VisionEncoder.
Variable Images : Type.
Variable patch_embed : Images -> Tensor4.
Variable pos_embed : list (list R).
Variable encoder_layers : list (Tensor3 -> Tensor3).

Lemma layer_outputs_lookup layers : forall x d,
  d < length layers ->
  layer_outputs layers x !! d
    = Some (foldl (fun t layer => layer t) x (take (S d) layers)).
Proof.
  induction layers as [|layer layers IH]; intros x d Hd; [cbn in Hd; lia|].
  destruct d as [|d]; [reflexivity|].
  cbn [layer_outputs]. change ((layer x :: layer_outputs layers (layer x)) !! S d)
    with (layer_outputs layers (layer x) !! d).
  rewrite IH by (cbn in Hd; lia). reflexivity.
Qed.

Lemma layer_outputs_dims layers : forall x,
  Forall (fun layer => forall t, dims3 (layer t) = dims3 t) layers ->
  Forall (fun y => dims3 y = dims3 x) (layer_outputs layers x).
Proof.
  induction layers as [|layer layers IH]; intros x Hl; [constructor|].
  apply Forall_cons_1 in Hl as [Hlayer Hl]. cbn [layer_outputs].
  constructor; [apply Hlayer|].
  eapply Forall_impl; [apply IH, Hl|]. cbn. intros y ->. apply Hlayer.
Qed.

Lemma layer_outputs_length layers : forall x,
  length (layer_outputs layers x) = length layers.
Proof.
  induction layers as [|layer layers IH]; intros x; [reflexivity|].
  cbn [layer_outputs length]. rewrite IH. reflexivity.
Qed.

(** X12. The forward pass of the encoder, for a positional table of the
    shape of the patch grid and layers that preserve the shape of their
    input: the result has shape (B, depth, patches, embed_dim), patch p of
    the embedded input is the convolution output at grid position
    (p // W_p, p % W_p) plus row p of the positional table, and slice d of
    the result is the activation after the first d + 1 layers, so every
    intermediate layer is kept beside the last. *)
Theorem forward_stacks_every_layer (x : Images) B E H_p W_p :
  dims4 (patch_embed x) = (B, E, H_p, W_p) ->
  length pos_embed = H_p * W_p ->
  Forall (fun row => length row = E) pos_embed ->
  Forall (fun layer => forall t, dims3 (layer t) = dims3 t) encoder_layers ->
  encoder_layers <> [] ->
  exists emb out,
    patch_and_embed patch_embed pos_embed x = Ok emb /\
    forward patch_embed pos_embed encoder_layers x = Ok out /\
    dims3 emb = (B, H_p * W_p, E) /\
    (forall b p e,
       at3 emb b p e = (at4 (patch_embed x) b e (p / W_p) (p mod W_p)
                        + nth e (nth p pos_embed []) 0)%R) /\
    dims4 out = (B, length encoder_layers, H_p * W_p, E) /\
    forall d, d < length encoder_layers -> forall b p e,
      at4 out b d p e
        = at3 (foldl (fun t layer => layer t) emb (take (S d) encoder_layers)) b p e.
Proof.
  intros Hdims Hlen Hrows Hlayers Hne.
  assert (Hpe : exists emb,
    patch_and_embed patch_embed pos_embed x = Ok emb /\
    dims3 emb = (B, H_p * W_p, E) /\
    forall b p e,
      at3 emb b p e = (at4 (patch_embed x) b e (p / W_p) (p mod W_p)
                       + nth e (nth p pos_embed []) 0)%R).
  { unfold patch_and_embed, add_pos_embed. rewrite Hdims. cbn [dims3].
    destruct (decide _) as [_|Hbad]; [|exfalso; apply Hbad; split; assumption].
    cbn [Py.bind]. eexists. split; [reflexivity|]. split; reflexivity. }
  destruct Hpe as (emb & Hemb & Hdemb & Hat).
  unfold forward. rewrite Hemb. cbn [Py.bind]. unfold run_transformer.
  pose proof (layer_outputs_dims encoder_layers emb Hlayers) as Hd3.
  pose proof (layer_outputs_length encoder_layers emb) as Hn.
  pose proof (layer_outputs_lookup encoder_layers emb) as Hlook.
  destruct (layer_outputs encoder_layers emb) as [|y outs] eqn:Houts.
  { destruct encoder_layers; [contradiction | discriminate Hn]. }
  unfold stack_dim1.
  assert (Hy : dims3 y = (B, H_p * W_p, E)).
  { apply Forall_cons_1 in Hd3 as [Hy _]. rewrite Hy. exact Hdemb. }
  destruct (decide _) as [_|Hbad].
  2:{ exfalso. apply Hbad. eapply Forall_impl; [exact Hd3|].
      cbn. intros z Hz. congruence. }
  rewrite Hy. cbn [Py.bind]. exists emb. eexists.
  split; [reflexivity|]. split; [reflexivity|]. split; [exact Hdemb|].
  split; [exact Hat|].
  split; [cbn [dims4]; rewrite Hn; reflexivity|].
  intros d Hd b p e. cbn [at4]. rewrite (Hlook d Hd). reflexivity.
Qed.

(** X13. An encoder without layers, which [__init__] builds for a depth of
    0, raises on every input; on an input the patch embedding accepts the
    error is the [ValueError] of [torch.cat], which is given an empty
    list. An encoder given images whose patch grid has not the number of
    patches of its positional table, neither number being 1, raises a
    [RuntimeError]. *)
Theorem forward_raises (x : Images) :
  (encoder_layers = [] ->
   (exists e, forward patch_embed pos_embed encoder_layers x = Raise e) /\
   forall emb, patch_and_embed patch_embed pos_embed x = Ok emb ->
     forward patch_embed pos_embed encoder_layers x = Raise ValueError) /\
  (forall B E H_p W_p,
     dims4 (patch_embed x) = (B, E, H_p, W_p) ->
     length pos_embed <> H_p * W_p -> length pos_embed <> 1 -> H_p * W_p <> 1 ->
     forward patch_embed pos_embed encoder_layers x = Raise RuntimeError).
Proof.
  split.
  - intros ->. unfold forward.
    destruct (patch_and_embed patch_embed pos_embed x) as [emb|e] eqn:Hemb.
    + split; [exists ValueError; reflexivity|]. intros emb' _. reflexivity.
    + split; [exists e; reflexivity|]. intros emb' Hemb'. discriminate.
  - intros B E H_p W_p Hdims Hbad _ _.
    unfold forward, patch_and_embed, add_pos_embed. rewrite Hdims. cbn [dims3].
    destruct (decide _) as [[Hlen Hrows]|_]; [|reflexivity].
    exfalso. exact (Hbad Hlen).
Qed.
End EncoderForward.

(** ** The data path of the forward model *)

Section FlatIndex.
(** Row-major offsets and their coordinates. *)
Lemma divmod_unique (a b q r : nat) :
  r < b -> a = b * q + r -> a / b = q /\ a mod b = r.
Proof.
  intros Hr Ha. split.
  - symmetry. exact (Nat.div_unique a b q r Hr Ha).
  - symmetry. exact (Nat.mod_unique a b q r Hr Ha).
Qed.

Lemma ravel4_unravel (t : Tensor4) (B P D E b p d e : nat) :
  dims4 t = (B, P, D, E) -> p < P -> d < D -> e < E ->
  ravel4 t (((b * P + p) * D + d) * E + e) = at4 t b p d e.
Proof.
  intros Hdims Hp Hd He. unfold ravel4. rewrite Hdims.
  set (n := ((b * P + p) * D + d) * E + e).
  destruct (divmod_unique n E ((b * P + p) * D + d) e He) as [Hq1 Hr1];
    [unfold n; lia|].
  destruct (divmod_unique ((b * P + p) * D + d) D (b * P + p) d Hd) as [Hq2 Hr2];
    [lia|].
  destruct (divmod_unique (b * P + p) P b p Hp) as [Hq3 Hr3]; [lia|].
  assert (HDE : 0 < D * E) by nia.
  destruct (divmod_unique n (D * E) (b * P + p) (d * E + e)) as [Hq4 _];
    [nia | unfold n; nia |].
  assert (HPDE : d * E + e + p * (D * E) < P * D * E) by nia.
  destruct (divmod_unique n (P * D * E) b (p * (D * E) + d * E + e)) as [Hq5 _];
    [nia | unfold n; nia |].
  rewrite Hq5, Hq4, Hr3, Hq1, Hr2, Hr1. reflexivity.
Qed.

Lemma ravel3_unravel (t : Tensor3) (B P K b p k : nat) :
  dims3 t = (B, P, K) -> p < P -> k < K ->
  ravel3 t ((b * P + p) * K + k) = at3 t b p k.
Proof.
  intros Hdims Hp Hk. unfold ravel3. rewrite Hdims.
  set (n := (b * P + p) * K + k).
  destruct (divmod_unique n K (b * P + p) k Hk) as [Hq1 Hr1]; [unfold n; lia|].
  destruct (divmod_unique (b * P + p) P b p Hp) as [Hq2 Hr2]; [lia|].
  destruct (divmod_unique n (P * K) b (p * K + k)) as [Hq3 _];
    [nia | unfold n; nia |].
  rewrite Hq3, Hq1, Hr2, Hr1. reflexivity.
Qed.
End FlatIndex.

Section ForwardModelFacts.
Variables Image Act Mask ActEmb : Type.
Variable ema_patch_embed : list Image -> Tensor4.
Variable ema_pos_embed : list (list R).
Variable ema_encoder_layers : list (Tensor3 -> Tensor3).
Variable action_encoder_fn : list Act -> ActEmb.
Variable decoder_layers : list (DoubleCrossDecoder.Layer ActEmb Mask).

Abbreviation ema' :=
  (WorldModel.ema_encoder_fn ema_patch_embed ema_pos_embed ema_encoder_layers).
Abbreviation wm_forward' :=
  (WorldModel.forward ema_patch_embed ema_pos_embed ema_encoder_layers
     action_encoder_fn decoder_layers).
Abbreviation wm_label' :=
  (WorldModel.label ema_patch_embed ema_pos_embed ema_encoder_layers
     action_encoder_fn decoder_layers).

Lemma decoder_forward_dims (layers : list (DoubleCrossDecoder.Layer ActEmb Mask)) :
  Forall (fun ly => forall ms ma mask,
            dims3 (DoubleCrossDecoder.layer_forward ly ms ma mask) = dims3 ms)
         layers ->
  forall ms ma mask,
    dims3 (DoubleCrossDecoder.forward layers ms ma mask) = dims3 ms.
Proof.
  unfold DoubleCrossDecoder.forward.
  induction layers as [|ly rest IH]; intros Hall ms ma mask; [reflexivity|].
  apply Forall_cons_1 in Hall as [Hly Hrest]. cbn [foldl].
  rewrite IH by exact Hrest. apply Hly.
Qed.

(** X14. The layout of [WorldModel.forward]: the layerwise embedding of a
    patch is flattened layer by layer into one vector of depth * embed_dim
    coordinates (coordinate d * E + e holds entry e of layer d), the decoder
    runs on these vectors, and its output is cut back into layers the same
    way. The result has the shape of the encoder's output; with a decoder
    of no layers it is the encoder's output, entry for entry. *)
Theorem forward_layout (before_obs : list Image) (action : list Act)
    (action_mask : option Mask) (s : Tensor4) (D P E : nat) :
  WorldModel.ema_encoder_fn ema_patch_embed ema_pos_embed ema_encoder_layers
    before_obs = Ok s ->
  dims4 s = (length before_obs, D, P, E) ->
  Forall (fun ly => forall ms ma mask,
            dims3 (DoubleCrossDecoder.layer_forward ly ms ma mask) = dims3 ms)
         decoder_layers ->
  exists flat out,
    WorldModel.forward ema_patch_embed ema_pos_embed ema_encoder_layers
     action_encoder_fn decoder_layers before_obs action action_mask = Ok out /\
    dims4 out = dims4 s /\
    dims3 flat = (length before_obs, P, D * E) /\
    forall b d p e, d < D -> p < P -> e < E ->
      at3 flat b p (d * E + e) = at4 s b d p e /\
      at4 out b d p e
        = at3 (DoubleCrossDecoder.forward decoder_layers flat
                 (action_encoder_fn action) action_mask) b p (d * E + e) /\
      (decoder_layers = [] -> at4 out b d p e = at4 s b d p e).
Proof.
  intros Hs Hdims Hdec.
  unfold WorldModel.forward. rewrite Hs. cbn [Py.bind]. rewrite Hdims.
  unfold reshape3, numel4, permute_0213. rewrite Hdims. cbn [dims4].
  destruct (decide _) as [_|Hno]; [|exfalso; apply Hno; cbn; ring]. cbn [Py.bind].
  set (flat := {| dims3 := (length before_obs, P, D * E); at3 := _ |}).
  unfold view4, numel3. rewrite decoder_forward_dims by exact Hdec.
  cbn [dims3].
  destruct (decide _) as [_|Hno]; [|exfalso; apply Hno; cbn; ring]. cbn [Py.bind].
  exists flat. eexists. split; [reflexivity|]. cbn [dims4 at4].
  split; [reflexivity|]. split; [reflexivity|].
  intros b d p e Hd Hp He.
  assert (Hk : d * E + e < D * E) by nia.
  assert (Hflat : at3 flat b p (d * E + e) = at4 s b d p e).
  { unfold flat. cbn [at3].
    replace ((b * P + p) * (D * E) + (d * E + e))
      with (((b * P + p) * D + d) * E + e) by lia.
    rewrite (ravel4_unravel _ (length before_obs) P D E) by (assumption || reflexivity).
    reflexivity. }
  assert (Hout : forall r : Tensor3, dims3 r = (length before_obs, P, D * E) ->
            ravel3 r (((b * P + p) * D + d) * E + e) = at3 r b p (d * E + e)).
  { intros r Hr.
    replace (((b * P + p) * D + d) * E + e)
      with ((b * P + p) * (D * E) + (d * E + e)) by lia.
    apply (ravel3_unravel r (length before_obs) P (D * E)); assumption. }
  split; [exact Hflat|]. split.
  - apply Hout. rewrite decoder_forward_dims by exact Hdec. reflexivity.
  - intros ->. cbn [DoubleCrossDecoder.forward foldl].
    rewrite Hout by reflexivity. exact Hflat.
Qed.

Lemma mapM_raises {A B} (f : A -> result B) (err : exn) (l : list A) :
  (forall x e, x ∈ l -> f x = Raise e -> e = err) ->
  (exists x, x ∈ l /\ failed (f x)) ->
  mapM f l = Raise err.
Proof.
  induction l as [|x l IH]; intros Hall [y [Hy Hfail]].
  - apply elem_of_nil in Hy. contradiction.
  - cbn [mapM]. destruct (f x) as [v|e] eqn:Hfx.
    + cbn [Py.bind]. rewrite IH; [reflexivity | |].
      * intros x' e' Hx'. apply Hall. right. exact Hx'.
      * apply elem_of_cons in Hy as [->|Hy]; [rewrite Hfx in Hfail; contradiction|].
        exists y. split; assumption.
    + cbn [Py.bind]. f_equal. apply (Hall x e); [left | exact Hfx].
Qed.

Lemma index_raises {A} (l : list A) (i : Z) e :
  index l i = Raise e -> e = IndexError.
Proof.
  unfold index. destruct (_ && _); [|intros [= <-]; reflexivity].
  destruct (l !! _); [discriminate | intros [= <-]; reflexivity].
Qed.

Lemma index_out_of_range {A} (l : list A) (i : Z) :
  (i < - Z.of_nat (length l) \/ Z.of_nat (length l) <= i)%Z ->
  index l i = Raise IndexError.
Proof.
  intros Hout. unfold index.
  destruct (i <? 0)%Z eqn:Hneg;
    [apply Z.ltb_lt in Hneg | apply Z.ltb_ge in Hneg].
  - destruct ((0 <=? _) && _)%Z eqn:Hb; [|reflexivity].
    apply andb_true_iff in Hb as [H1 H2].
    apply Z.leb_le in H1. apply Z.ltb_lt in H2. lia.
  - destruct ((0 <=? _) && _)%Z eqn:Hb; [|reflexivity].
    apply andb_true_iff in Hb as [H1 H2].
    apply Z.leb_le in H1. apply Z.ltb_lt in H2. lia.
Qed.

Lemma obs_at_short (batch : Batch.t Image Act Mask) (k : Z) :
  (exists sample, sample ∈ Batch.obs batch /\
     (k < - Z.of_nat (length sample) \/ Z.of_nat (length sample) <= k)%Z) ->
  Batch.obs_at batch k = Raise IndexError.
Proof.
  intros (sample & Hin & Hshort). unfold Batch.obs_at.
  apply mapM_raises.
  - intros x e _ Hx. exact (index_raises _ _ _ Hx).
  - exists sample. split; [exact Hin|].
    rewrite index_out_of_range by exact Hshort. exact I.
Qed.

(** X15. [WorldModel.label] on a batch that cannot be labelled: without an
    [la] entry it raises KeyError before anything is read from the
    observations; with one, a sample holding fewer than two observations
    makes it raise IndexError, whatever the networks are. *)
Theorem label_raises (batch : Batch.t Image Act Mask) :
  (Batch.la batch = None ->
   WorldModel.label ema_patch_embed ema_pos_embed ema_encoder_layers
     action_encoder_fn decoder_layers batch = Raise KeyError) /\
  (Batch.la batch <> None ->
   (exists sample, sample ∈ Batch.obs batch /\ length sample < 2) ->
   WorldModel.label ema_patch_embed ema_pos_embed ema_encoder_layers
     action_encoder_fn decoder_layers batch = Raise IndexError).
Proof.
  split.
  - intros Hla. unfold WorldModel.label. rewrite Hla. reflexivity.
  - intros Hla (sample & Hin & Hshort). unfold WorldModel.label.
    destruct (Batch.la batch) as [la|]; [|contradiction]. cbn [Py.bind].
    rewrite obs_at_short; [reflexivity|].
    exists sample. split; [exact Hin | lia].
Qed.

Lemma sum_n_nonneg (n : nat) (f : nat -> R) :
  (forall i, i < n -> (0 <= f i)%R) -> (0 <= sum_n n f)%R.
Proof.
  induction n as [|n IH]; intros Hf; cbn [sum_n]; [lra|].
  pose proof (Hf n (Nat.lt_succ_diag_r n)).
  assert (0 <= sum_n n f)%R by (apply IH; intros i Hi; apply Hf; lia).
  lra.
Qed.

Lemma sum_n_zero_iff (n : nat) (f : nat -> R) :
  (forall i, i < n -> (0 <= f i)%R) ->
  sum_n n f = 0%R <-> forall i, i < n -> f i = 0%R.
Proof.
  induction n as [|n IH]; intros Hf; cbn [sum_n].
  - split; [intros _ i Hi; lia | reflexivity].
  - pose proof (Hf n (Nat.lt_succ_diag_r n)) as Hn.
    assert (Hf' : forall i, i < n -> (0 <= f i)%R) by (intros i Hi; apply Hf; lia).
    pose proof (sum_n_nonneg n f Hf') as Hs.
    specialize (IH Hf'). split.
    + intros Hsum i Hi.
      destruct (decide (i = n)) as [->|Hne]; [lra|].
      apply IH; [lra | lia].
    + intros Hall.
      assert (sum_n n f = 0%R) as -> by (apply IH; intros i Hi; apply Hall; lia).
      rewrite (Hall n) by lia. lra.
Qed.

(** X16. The loss [WorldModel.label] returns for a non-empty batch is never
    negative, and the entry of layer d is zero exactly when the prediction
    and the EMA encoding of the observation at offset -1 agree on every
    entry of that layer. *)
Theorem label_loss_nonneg (batch : Batch.t Image Act Mask)
    la xb xa pred target (B D P E : nat) :
  Batch.la batch = Some la ->
  Batch.obs_at batch (-2) = Ok xb ->
  Batch.obs_at batch (-1) = Ok xa ->
  WorldModel.forward ema_patch_embed ema_pos_embed ema_encoder_layers
     action_encoder_fn decoder_layers xb la (Batch.la_mask batch) = Ok pred ->
  WorldModel.ema_encoder_fn ema_patch_embed ema_pos_embed ema_encoder_layers xa
    = Ok target ->
  dims4 pred = (B, D, P, E) -> dims4 target = (B, D, P, E) ->
  0 < B * P * E ->
  exists loss, WorldModel.label ema_patch_embed ema_pos_embed ema_encoder_layers
     action_encoder_fn decoder_layers batch = Ok loss /\
    forall d,
      (0 <= at1 loss d)%R /\
      (at1 loss d = 0%R <->
       forall b p e, b < B -> p < P -> e < E ->
         at4 pred b d p e = at4 target b d p e).
Proof.
  intros Hla Hb Ha Hpred Htarget Hdp Hdt Hpos.
  unfold WorldModel.label. rewrite Hla, Hb, Ha. cbn [Py.bind].
  rewrite Hpred. cbn [Py.bind]. rewrite Htarget. cbn [Py.bind].
  unfold mse_loss_none. rewrite Hdp, Hdt.
  destruct (decide _) as [_|Hno]; [|contradiction]. cbn [Py.bind].
  eexists. split; [reflexivity|]. intros d.
  unfold mean_023. cbn [dims4 at4 at1].
  set (sq := fun b p e => ((at4 pred b d p e - at4 target b d p e) ^ 2)%R).
  assert (Hsq : forall b p e, (0 <= sq b p e)%R)
    by (intros b p e; unfold sq; apply pow2_ge_0).
  assert (Hin : forall b p, (0 <= sum_n E (fun e => sq b p e))%R)
    by (intros b p; apply sum_n_nonneg; intros e _; apply Hsq).
  assert (Hmid : forall b, (0 <= sum_n P (fun p => sum_n E (fun e => sq b p e)))%R)
    by (intros b; apply sum_n_nonneg; intros p _; apply Hin).
  assert (Htot : (0 <= sum_n B (fun b => sum_n P (fun p => sum_n E (fun e => sq b p e))))%R)
    by (apply sum_n_nonneg; intros b _; apply Hmid).
  assert (Hn : (0 < INR (B * P * E))%R) by (apply lt_0_INR; exact Hpos).
  change (sum_n B (fun b => sum_n P (fun p => sum_n E (fun e =>
            ((at4 pred b d p e - at4 target b d p e) ^ 2)%R))))
    with (sum_n B (fun b => sum_n P (fun p => sum_n E (fun e => sq b p e)))).
  set (total := sum_n B _) in *.
  split.
  - apply Rmult_le_pos; [exact Htot|]. left. apply Rinv_0_lt_compat. exact Hn.
  - assert (Hzero : (total / INR (B * P * E) = 0)%R <-> total = 0%R).
    { split; intros Hz.
      - apply (Rmult_eq_reg_r (/ INR (B * P * E))).
        + rewrite Rmult_0_l. exact Hz.
        + apply Rinv_neq_0_compat. lra.
      - rewrite Hz. unfold Rdiv. apply Rmult_0_l. }
    rewrite Hzero. unfold total.
    rewrite sum_n_zero_iff by (intros b _; apply Hmid).
    split.
    + intros Hall b p e Hb' Hp' He'.
      specialize (Hall b Hb').
      rewrite sum_n_zero_iff in Hall by (intros p0 _; apply Hin).
      specialize (Hall p Hp').
      rewrite sum_n_zero_iff in Hall by (intros e0 _; apply Hsq).
      specialize (Hall e He'). unfold sq in Hall.
      assert (Hd0 : (at4 pred b d p e - at4 target b d p e = 0)%R).
      { destruct (Req_dec (at4 pred b d p e - at4 target b d p e) 0) as [|Hne];
          [assumption|].
        exfalso. apply (pow_nonzero _ 2) in Hne. contradiction. }
      lra.
    + intros Hall b Hb'.
      apply sum_n_zero_iff; [intros p0 _; apply Hin|]. intros p Hp'.
      apply sum_n_zero_iff; [intros e0 _; apply Hsq|]. intros e He'.
      unfold sq. rewrite (Hall b p e Hb' Hp' He'). lra.
Qed.
End ForwardModelFacts.

(** ** The training step on arbitrary models *)

Section TrainMore.
Variable TrainBatch : Type.
Variable loss_grad : Store -> TrainBatch -> positive -> option Tensor.
Variable OptState : Type.
Variable adamw : OptState -> positive -> Param -> Tensor -> Tensor.
Variable adamw_advance : OptState -> OptState.

Abbreviation train_step'' :=
  (Train.train_step TrainBatch loss_grad OptState adamw adamw_advance).

(** A loop over cells with a body that keeps a field keeps the field of
    every cell, and makes no cell. *)
Lemma modify_field {A} (proj : Param -> A) (f : positive -> Param -> Param) ids :
  (forall id q, proj (f id q) = proj q) ->
  forall (h : Store) id, proj <$> modify f ids h !! id = proj <$> h !! id.
Proof.
  intros Hf. unfold modify.
  induction ids as [|x ids IH]; intros h id; [reflexivity|].
  cbn [foldl]. rewrite IH.
  destruct (h !! x) as [p|] eqn:Hx; [|reflexivity].
  destruct (decide (id = x)) as [->|Hne].
  - rewrite lookup_insert_eq, Hx. cbn. rewrite Hf. reflexivity.
  - rewrite lookup_insert_ne by congruence. reflexivity.
Qed.

Lemma backward_field {A} (proj : Param -> A) g (h : Store) id :
  (forall q t, proj (set_grad q t) = proj q) ->
  proj <$> backward g h !! id = proj <$> h !! id.
Proof.
  intros Hproj. rewrite backward_lookup.
  destruct (h !! id) as [p|]; [|reflexivity]. cbn.
  destruct (requires_grad p); [|reflexivity].
  destruct (g id); [rewrite Hproj|]; reflexivity.
Qed.

Lemma update_ema_loop_field {A} (proj : Param -> A) m pairs :
  (forall q d, proj (set_data q d) = proj q) ->
  forall (h h' : Store), WorldModel.update_ema_loop m pairs h = Ok h' ->
  forall id, proj <$> h' !! id = proj <$> h !! id.
Proof.
  intros Hproj. induction pairs as [|[e p] pairs IH]; intros h h' Hrun id.
  - injection Hrun as <-. reflexivity.
  - cbn [WorldModel.update_ema_loop WorldModel.update_ema_step] in Hrun.
    destruct (h !! e) as [pe|] eqn:He; [|discriminate].
    destruct (h !! p) as [pp|]; [|discriminate].
    destruct (add_ _ _) as [d|]; [|discriminate]. cbn [Py.bind] in Hrun.
    rewrite (IH _ _ Hrun).
    destruct (decide (id = e)) as [->|Hne].
    + rewrite lookup_insert_eq, He. cbn. rewrite Hproj. reflexivity.
    + rewrite lookup_insert_ne by congruence. reflexivity.
Qed.

Lemma update_ema_loop_notin m pairs :
  forall (h h' : Store), WorldModel.update_ema_loop m pairs h = Ok h' ->
  forall id, id ∉ pairs.*1 -> h' !! id = h !! id.
Proof.
  induction pairs as [|[e p] pairs IH]; intros h h' Hrun id Hid.
  - injection Hrun as <-. reflexivity.
  - cbn [WorldModel.update_ema_loop WorldModel.update_ema_step] in Hrun.
    destruct (h !! e) as [pe|] eqn:He; [|discriminate].
    destruct (h !! p) as [pp|]; [|discriminate].
    destruct (add_ _ _) as [d|]; [|discriminate]. cbn [Py.bind] in Hrun.
    rewrite fmap_cons in Hid. apply not_elem_of_cons in Hid as [Hne Hid].
    cbn [fst] in Hne. rewrite (IH _ _ Hrun id Hid).
    rewrite lookup_insert_ne by congruence. reflexivity.
Qed.

(** A cell the loop has visited holds an image of the body. *)
Lemma modify_hit (f : positive -> Param -> Param) ids :
  forall (h : Store) id p', id ∈ ids -> modify f ids h !! id = Some p' ->
  exists q, p' = f id q.
Proof.
  unfold modify. induction ids as [|x ids IH]; intros h id p' Hin Hp'.
  - apply elem_of_nil in Hin. contradiction.
  - cbn [foldl] in Hp'.
    destruct (decide (id ∈ ids)) as [Hrest|Hrest]; [exact (IH _ id p' Hrest Hp')|].
    apply elem_of_cons in Hin as [->|Hin]; [|contradiction].
    pose proof (modify_lookup_notin f ids
                  (match h !! x with Some p => <[x := f x p]> h | None => h end)
                  x Hrest) as Hskip.
    unfold modify in Hskip. rewrite Hskip in Hp'.
    destruct (h !! x) as [p|] eqn:Hx.
    + rewrite lookup_insert_eq in Hp'. injection Hp' as <-. exists p. reflexivity.
    + rewrite Hx in Hp'. discriminate.
Qed.

(** The heap after a training step that returns. *)
Lemma train_step_heap idm wm index batch (w w' : Train.World OptState) :
  train_step'' idm wm index batch w = Ok w' ->
  let pg := Train.param_groups (Train.optimizer w) in
  let h1 := zero_grad pg (Train.heap w) in
  let h2 := backward (loss_grad (Train.heap w) batch) h1 in
  let h3 := modify (Train.step_one OptState adamw (Train.state (Train.optimizer w)))
              pg h2 in
  exists h4, WorldModel.update_ema wm start_momentum h3 = Ok h4 /\
    Train.heap w' = zero_grad (parameters idm) (zero_grad (parameters wm) h4) /\
    Train.optimizer w'
      = Train.Build_Optimizer OptState pg
          (adamw_advance (Train.state (Train.optimizer w))) /\
    Train.trace w'
      = Train.trace w ++ [Train.IdmLabel; Train.WmLabel; Train.OptimizerZeroGrad;
                          Train.LossBackward; Train.OptimizerStep;
                          Train.UpdateEma start_momentum;
                          Train.WmZeroGrad; Train.IdmZeroGrad].
Proof.
  intros Hrun pg h1 h2 h3. unfold Train.train_step in Hrun.
  cbn [Train.heap Train.emit Train.optimizer Train.trace Train.optimizer_step
       Train.loss_backward Train.optimizer_zero_grad Train.param_groups
       Train.state] in Hrun.
  fold pg in Hrun. fold h1 in Hrun. fold h2 in Hrun. fold h3 in Hrun.
  destruct (WorldModel.update_ema wm start_momentum h3) as [h4|] eqn:Hema;
    [|discriminate].
  cbn [Py.bind] in Hrun. injection Hrun as <-.
  exists h4. split; [reflexivity|].
  cbn [Train.heap Train.optimizer Train.trace].
  split; [reflexivity|]. split; [reflexivity|].
  unfold Train.optimizer_step, Train.loss_backward, Train.optimizer_zero_grad,
    Train.emit.
  cbn [Train.trace Train.heap Train.optimizer]. rewrite <- !app_assoc. reflexivity.
Qed.

(** X17. After a training step that returns, no parameter of either model
    holds a gradient, whatever it held before; every cell of the heap has
    kept its [requires_grad] flag and no cell has appeared or gone; the
    optimizer holds the parameters it was given and has advanced its
    state once. *)
Theorem train_step_clears_gradients idm wm index batch (w w' : Train.World OptState) :
  Train.train_step TrainBatch loss_grad OptState adamw adamw_advance
    idm wm index batch w = Ok w' ->
  (forall id p', id ∈ parameters idm \/ id ∈ parameters wm ->
     Train.heap w' !! id = Some p' -> grad p' = None) /\
  (forall id, requires_grad <$> Train.heap w' !! id
              = requires_grad <$> Train.heap w !! id) /\
  Train.param_groups (Train.optimizer w') = Train.param_groups (Train.optimizer w) /\
  Train.state (Train.optimizer w') = adamw_advance (Train.state (Train.optimizer w)).
Proof.
  intros Hrun.
  destruct (train_step_heap idm wm index batch w w' Hrun)
    as (h4 & Hema & -> & -> & _).
  split; [|split; [|split; reflexivity]].
  - intros id p' Hin Hp'.
    destruct (decide (id ∈ parameters idm)) as [Hidm|Hidm].
    + destruct (modify_hit _ _ _ id p' Hidm Hp') as (q & ->). reflexivity.
    + destruct Hin as [Hin|Hin]; [contradiction|].
      unfold zero_grad at 1 in Hp'. rewrite modify_lookup_notin in Hp' by exact Hidm.
      destruct (modify_hit _ _ _ id p' Hin Hp') as (q & ->). reflexivity.
  - intros id. unfold zero_grad.
    rewrite !(modify_field requires_grad) by reflexivity.
    rewrite (update_ema_loop_field requires_grad _ _ (fun _ _ => eq_refl) _ _ Hema).
    rewrite (modify_field requires_grad).
    2:{ intros x q. unfold Train.step_one. destruct (grad q); reflexivity. }
    rewrite (backward_field requires_grad) by reflexivity.
    apply (modify_field requires_grad). reflexivity.
Qed.

(** X18. A training step moves the data of a cell only if the cell is a
    parameter of the EMA encoder, or if it was handed to the optimizer,
    has [requires_grad] set and receives a gradient from the loss: frozen
    parameters outside the EMA encoder, parameters outside the graph of
    the loss and cells the optimizer does not know keep their value, even
    with a stale gradient from before the step. *)
Theorem train_step_moves_only_trained idm wm index batch
    (w w' : Train.World OptState) id p p' :
  Train.train_step TrainBatch loss_grad OptState adamw adamw_advance
    idm wm index batch w = Ok w' ->
  Train.heap w !! id = Some p -> Train.heap w' !! id = Some p' ->
  data p' <> data p ->
  id ∈ WorldModel.ema_encoder wm \/
  (id ∈ Train.param_groups (Train.optimizer w) /\ requires_grad p = true /\
   loss_grad (Train.heap w) batch id <> None).
Proof.
  intros Hrun Hp Hp' Hmoved.
  destruct (train_step_heap idm wm index batch w w' Hrun)
    as (h4 & Hema & Hheap & _).
  destruct (decide (id ∈ WorldModel.ema_encoder wm)) as [|Hnotema]; [left; assumption|].
  right.
  set (pg := Train.param_groups (Train.optimizer w)) in *.
  set (h1 := zero_grad pg (Train.heap w)) in *.
  set (h2 := backward (loss_grad (Train.heap w) batch) h1) in *.
  set (h3 := modify _ pg h2) in *.
  (* the data after the step is the data after [optimizer.step()] *)
  assert (Hd3 : data <$> h3 !! id = Some (data p')).
  { rewrite <- (update_ema_loop_notin _ _ _ _ Hema id).
    - rewrite <- (modify_field data (fun _ q => set_grad q None) (parameters wm))
        by reflexivity.
      rewrite <- (modify_field data (fun _ q => set_grad q None) (parameters idm))
        by reflexivity.
      fold (zero_grad (parameters wm) h4).
      fold (zero_grad (parameters idm) (zero_grad (parameters wm) h4)).
      rewrite <- Hheap, Hp'. reflexivity.
    - intros Hin. apply Hnotema.
      apply list_elem_of_fmap in Hin as ([e q] & -> & Hin).
      apply elem_of_zip_l in Hin. exact Hin. }
  assert (Hd2 : data <$> h2 !! id = Some (data p)).
  { unfold h2. rewrite (backward_field data) by reflexivity.
    unfold h1, zero_grad. rewrite (modify_field data) by reflexivity.
    rewrite Hp. reflexivity. }
  assert (Hstep : h3 !! id <> h2 !! id).
  { intros Heq. rewrite Heq, Hd2 in Hd3. injection Hd3 as Hd3.
    apply Hmoved. symmetry. exact Hd3. }
  destruct (decide (id ∈ pg)) as [Hpg|Hpg].
  2:{ exfalso. apply Hstep. unfold h3. apply modify_lookup_notin. exact Hpg. }
  split; [exact Hpg|].
  (* after [optimizer.zero_grad()] the cell holds no gradient *)
  destruct (h1 !! id) as [p1|] eqn:Hp1.
  2:{ exfalso. apply Hstep. unfold h3.
      assert (Hn2 : h2 !! id = None).
      { unfold h2. rewrite backward_lookup, Hp1. reflexivity. }
      pose proof (modify_lookup_is_Some
                    (Train.step_one OptState adamw (Train.state (Train.optimizer w)))
                    pg h2 id) as Hsome.
      rewrite Hn2 in *. apply eq_None_not_Some. intros Hs.
      apply Hsome in Hs. destruct Hs as [? Hs]. discriminate. }
  destruct (modify_hit _ _ _ id p1 Hpg Hp1) as (q & Hq).
  assert (Hg1 : grad p1 = None) by (rewrite Hq; reflexivity).
  assert (Hrg1 : requires_grad p1 = requires_grad p).
  { pose proof (modify_field requires_grad (fun _ q => set_grad q None) pg
                  (fun _ _ => eq_refl) (Train.heap w) id) as Hf.
    fold (zero_grad pg (Train.heap w)) in Hf. fold h1 in Hf.
    rewrite Hp1, Hp in Hf. injection Hf as Hf. exact Hf. }
  assert (Hfixed : h2 !! id = Some p1 -> False).
  { intros H2. apply Hstep. unfold h3. rewrite H2.
    apply modify_lookup_fixed; [exact H2|].
    unfold Train.step_one. rewrite Hg1. reflexivity. }
  assert (H2 : h2 !! id
               = Some (if requires_grad p1
                       then match loss_grad (Train.heap w) batch id with
                            | Some gi => set_grad p1 (Some (accumulate (grad p1) gi))
                            | None => p1
                            end
                       else p1)).
  { unfold h2. rewrite backward_lookup, Hp1. reflexivity. }
  rewrite <- Hrg1.
  destruct (requires_grad p1); [|exfalso; exact (Hfixed H2)].
  split; [reflexivity|].
  intros Hnone. rewrite Hnone in H2. exact (Hfixed H2).
Qed.

End TrainMore.

(** ** The models the script builds *)

Section ConstructionMore.

(** [alloc_all] hands out the identities from the next fresh one on. *)
Lemma alloc_all_ids ps : forall h ids h',
  alloc_all ps h = (ids, h') ->
  (next h <= next h')%positive /\
  forall id, id ∈ ids <-> (next h <= id < next h')%positive.
Proof.
  induction ps as [|p ps IH]; intros h ids h' Halloc; cbn [alloc_all] in Halloc.
  - injection Halloc as <- <-. split; [lia|].
    intros id. rewrite elem_of_nil. lia.
  - unfold alloc in Halloc.
    destruct (alloc_all ps _) as [ids1 h2] eqn:Hrec.
    injection Halloc as <- <-.
    destruct (IH _ _ _ Hrec) as [Hle Hids]. cbn [next] in Hle, Hids.
    split; [lia|]. intros id. rewrite elem_of_cons, Hids. lia.
Qed.

(** X20. The two models [create_dynamics_models] builds start in sync:
    the parameter of the EMA encoder at every position is a frozen copy,
    on a cell of its own, of the initial tensor the online encoder holds at
    that position with [requires_grad] set; so [update_ema] on the models
    as built returns the heap it was given, whatever the momentum. *)
Theorem created_models_start_in_sync init h :
  heap_wf h ->
  let '((idm, wm), h') := create_dynamics_models init h in
  length (WorldModel.encoder wm) = length (encoder_init init) /\
  length (WorldModel.ema_encoder wm) = length (encoder_init init) /\
  (forall i e p,
     WorldModel.ema_encoder wm !! i = Some e -> WorldModel.encoder wm !! i = Some p ->
     e <> p /\
     exists t, encoder_init init !! i = Some t /\
       cells h' !! e = Some (frozen t) /\ cells h' !! p = Some (fresh t)) /\
  forall m, WorldModel.update_ema wm m (cells h') = Ok (cells h').
Proof.
  intros Hwf. unfold create_dynamics_models.
  destruct (WorldModel.__init__ _ _ _ h) as [wm h1] eqn:Hwm.
  pose proof (WorldModel_init_built _ _ _ _ _ _ Hwf Hwm) as Hb1.
  unfold WorldModel.get_encoder, WorldModel.get_ema_encoder.
  destruct (IDM.__init__ _ _ _ _ _ _ h1) as [idm h2] eqn:Hidm.
  destruct (IDM_init_built _ _ _ _ _ _ _ _ _ _ Hb1 Hidm)
    as ((Hwf2 & Hl1 & Hl2 & Hnd & Hdisj & _ & Henc & Hema) & _ & _).
  assert (Hcells : forall i e p,
            WorldModel.ema_encoder wm !! i = Some e ->
            WorldModel.encoder wm !! i = Some p ->
            e <> p /\
            exists t, encoder_init init !! i = Some t /\
              cells h2 !! e = Some (frozen t) /\ cells h2 !! p = Some (fresh t)).
  { intros i e p He Hp. split.
    - intros ->. apply (Hdisj p); apply list_elem_of_lookup; eauto.
    - destruct (lookup_lt_is_Some_2 (encoder_init init) i) as [t Ht].
      { rewrite <- Hl1. apply (lookup_lt_Some _ _ _ Hp). }
      exists t. rewrite (Hema i e He), (Henc i p Hp), Ht. auto. }
  split; [exact Hl1|]. split; [exact Hl2|]. split; [exact Hcells|].
  intros m. apply update_ema_unchanged.
  - split; [exact Hnd|]. split; [exact Hdisj|].
    apply Forall2_same_length_lookup. split; [congruence|].
    intros i e p He Hp.
    destruct (Hcells i e p He Hp) as (_ & t & _ & Hce & Hcp).
    exists (frozen t), (fresh t). auto.
  - intros i e p pe pp He Hp Hpe Hpp.
    destruct (Hcells i e p He Hp) as (_ & t & _ & Hce & Hcp).
    rewrite Hce in Hpe. rewrite Hcp in Hpp.
    injection Hpe as <-. injection Hpp as <-. apply interpolate_same.
Qed.

(** X21. The optimizer of the script is given exactly the parameters the
    construction of the two models has allocated, each once: the online
    encoder, the frozen EMA copy, the action encoder and the decoder of the
    forward model, and the transformer, the two tokens and the action head
    of the inverse model. *)
Theorem optimizer_gets_every_parameter init h :
  let '((idm, wm), h') := create_dynamics_models init h in
  NoDup (get_unique_params idm wm) /\
  (forall id, id ∈ get_unique_params idm wm
              <-> (next h <= id < next h')%positive) /\
  (forall id, id ∈ WorldModel.ema_encoder wm -> id ∈ get_unique_params idm wm) /\
  (forall id, id ∈ [IDM.mask_token idm; IDM.drop_token idm] ->
              id ∈ get_unique_params idm wm /\ id ∉ parameters wm).
Proof.
  unfold create_dynamics_models, WorldModel.__init__, IDM.__init__,
    WorldModel.get_encoder, WorldModel.get_ema_encoder, deepcopy.
  destruct (alloc_all (map fresh (encoder_init init)) h) as [enc h1] eqn:H1.
  destruct (alloc_all (omap _ enc) h1) as [ema h2] eqn:H2.
  set (h3 := {| cells := requires_grad_ false ema (cells h2); next := next h2 |}).
  destruct (alloc_all (map fresh (action_encoder_init init)) h3) as [ae h4] eqn:H4.
  destruct (alloc_all (map fresh (decoder_init init)) h4) as [dec h5] eqn:H5.
  cbn [WorldModel.encoder WorldModel.ema_encoder].
  set (h6 := {| cells := requires_grad_ false ema (cells h5); next := next h5 |}).
  destruct (alloc_all (map fresh (transformer_init init)) h6) as [trs h7] eqn:H7.
  unfold alloc. cbn [next cells].
  destruct (alloc_all (map fresh (action_head_init init)) _) as [ahs h10] eqn:H10.
  destruct (alloc_all_ids _ _ _ _ H1) as [L1 I1].
  destruct (alloc_all_ids _ _ _ _ H2) as [L2 I2].
  destruct (alloc_all_ids _ _ _ _ H4) as [L4 I4].
  destruct (alloc_all_ids _ _ _ _ H5) as [L5 I5].
  destruct (alloc_all_ids _ _ _ _ H7) as [L7 I7].
  destruct (alloc_all_ids _ _ _ _ H10) as [L10 I10].
  subst h3 h6. cbn [next] in *.
  assert (Hmem : forall id,
            id ∈ get_unique_params
                   {| IDM.mask_token := next h7; IDM.drop_token := Pos.succ (next h7);
                      IDM.encoder := enc; IDM.ema_encoder := ema;
                      IDM.transformer := trs; IDM.action_head := ahs |}
                   {| WorldModel.encoder := enc; WorldModel.ema_encoder := ema;
                      WorldModel.action_encoder := ae; WorldModel.decoder := dec |}
            <-> (next h <= id < next h10)%positive).
  { intros id. rewrite elem_of_get_unique_params.
    unfold parameters, IDM_NNModule, WorldModel_NNModule,
      IDM.parameters, WorldModel.parameters.
    cbn [IDM.mask_token IDM.drop_token IDM.encoder IDM.ema_encoder
         IDM.transformer IDM.action_head WorldModel.encoder
         WorldModel.ema_encoder WorldModel.action_encoder WorldModel.decoder].
    rewrite !elem_of_remove_dups, !elem_of_cons, !elem_of_app.
    rewrite I1, I2, I4, I5, I7, I10. lia. }
  split; [apply get_unique_params_NoDup|]. split; [exact Hmem|]. split.
  - intros id Hid. apply Hmem. apply I2 in Hid. lia.
  - intros id Hid. cbn [IDM.mask_token IDM.drop_token] in Hid. split.
    + apply Hmem. apply elem_of_cons in Hid as [->|Hid]; [lia|].
      apply list_elem_of_singleton in Hid as ->. lia.
    + unfold parameters, WorldModel_NNModule, WorldModel.parameters.
      cbn [WorldModel.encoder WorldModel.ema_encoder WorldModel.action_encoder
           WorldModel.decoder].
      rewrite elem_of_remove_dups, !elem_of_app, I1, I2, I4, I5.
      apply elem_of_cons in Hid as [->|Hid]; [lia|].
      apply list_elem_of_singleton in Hid as ->. lia.
Qed.
End ConstructionMore.

(** ** Labelling with the inverse dynamics model *)

Section LabelMore.
Variables Image Act Mask : Type.
Variable self : list Image -> list Image -> result (list Act).
Variable normalize_obs : Image -> Image.

Lemma split_rows_spec (c : nat) : forall (fuel : nat) (rows : list (list Image)),
  1 <= c -> length rows <= fuel ->
  concat (IDM.split_rows Image fuel c rows) = rows /\
  Forall (fun ch => 1 <= length ch <= c) (IDM.split_rows Image fuel c rows) /\
  forall k ch, IDM.split_rows Image fuel c rows !! k = Some ch ->
               ch = take c (drop (k * c) rows).
Proof.
  induction fuel as [|fuel IH]; intros rows Hc Hlen.
  - destruct rows as [|r rows]; [|cbn in Hlen; lia].
    cbn. split; [reflexivity|]. split; [constructor|]. intros k ch Hk. discriminate.
  - destruct rows as [|r rows].
    { cbn. split; [reflexivity|]. split; [constructor|]. intros k ch Hk. discriminate. }
    cbn [IDM.split_rows].
    destruct (IH (drop c (r :: rows)) Hc) as (Hcat & Hsz & Hlook).
    { rewrite length_drop. cbn [length] in *. lia. }
    split; [|split].
    + cbn [concat]. rewrite Hcat. apply take_drop.
    + constructor; [|exact Hsz].
      rewrite length_take. cbn [length]. lia.
    + intros [|k] ch Hk.
      * injection Hk as <-. reflexivity.
      * change ((take c (r :: rows)
                 :: IDM.split_rows Image fuel c (drop c (r :: rows))) !! S k)
          with (IDM.split_rows Image fuel c (drop c (r :: rows)) !! k) in Hk.
        rewrite (Hlook k ch Hk), drop_drop. reflexivity.
Qed.

Lemma split_of_rows (data : Batch.t Image Act Mask) (chunksize : Z) :
  (1 <= chunksize)%Z -> Batch.obs data <> [] ->
  IDM.split Image Act Mask data chunksize
  = Ok (map (fun rows => Batch.Build_t rows None None)
          (IDM.split_rows Image (length (Batch.obs data)) (Z.to_nat chunksize)
             (Batch.obs data))).
Proof.
  intros Hc Hne. unfold IDM.split.
  destruct (chunksize <=? 0)%Z eqn:Hb; [apply Z.leb_le in Hb; lia|].
  destruct (Batch.obs data) as [|row rows]; [congruence | reflexivity].
Qed.

(** X22. [data.split(chunksize)] as [label_chunked] uses it, for a chunk
    size of at least 1 and a batch that is not empty: the chunks are
    consecutive pieces of the batch, chunk k holding the samples from
    offset k * chunksize on; no chunk is empty or longer than the chunk
    size, and their concatenation is the batch in its order. *)
Theorem split_is_partition (data : Batch.t Image Act Mask) (chunksize : Z) :
  (1 <= chunksize)%Z -> Batch.obs data <> [] ->
  exists chunks, IDM.split Image Act Mask data chunksize = Ok chunks /\
    chunks <> [] /\
    concat (map Batch.obs chunks) = Batch.obs data /\
    Forall (fun ch => 1 <= length (Batch.obs ch) <= Z.to_nat chunksize) chunks /\
    forall k ch, chunks !! k = Some ch ->
      Batch.obs ch
        = take (Z.to_nat chunksize) (drop (k * Z.to_nat chunksize) (Batch.obs data)).
Proof.
  intros Hc Hne. rewrite (split_of_rows data chunksize Hc Hne).
  destruct (split_rows_spec (Z.to_nat chunksize) (length (Batch.obs data))
              (Batch.obs data)) as (Hcat & Hsz & Hlook); [lia | lia |].
  eexists. split; [reflexivity|]. split; [|split; [|split]].
  - intros Hnil. apply map_eq_nil in Hnil. rewrite Hnil in Hcat.
    apply Hne. symmetry. exact Hcat.
  - rewrite map_map. cbn [Batch.obs]. rewrite map_id. exact Hcat.
  - apply Forall_fmap. eapply Forall_impl; [exact Hsz|]. intros ch Hch. exact Hch.
  - intros k ch Hk. rewrite list_lookup_fmap in Hk.
    destruct (IDM.split_rows _ _ _ _ !! k) as [rows|] eqn:Hrows; [|discriminate].
    injection Hk as <-. cbn [Batch.obs]. exact (Hlook k rows Hrows).
Qed.

Lemma mapM_ok_map {A B} (f : A -> result B) (g : A -> B) (l : list A) :
  Forall (fun x => f x = Ok (g x)) l -> mapM f l = Ok (map g l).
Proof.
  induction 1 as [|x l Hx _ IH]; [reflexivity|].
  cbn [mapM map]. rewrite Hx. cbn [Py.bind]. rewrite IH. reflexivity.
Qed.

Lemma mapM_raise_inv {A B} (f : A -> result B) (l : list A) e :
  mapM f l = Raise e -> exists x, x ∈ l /\ f x = Raise e.
Proof.
  induction l as [|x l IH]; [discriminate|].
  cbn [mapM]. destruct (f x) as [y|e'] eqn:Hx; cbn [Py.bind].
  - destruct (mapM f l) as [ys|e'] eqn:Hl; [discriminate|].
    cbn [Py.bind]. intros [= ->].
    destruct (IH eq_refl) as (x' & Hin & Hx').
    exists x'. split; [right; exact Hin | exact Hx'].
  - intros [= ->]. exists x. split; [left | exact Hx].
Qed.

Lemma mapM_index_raises {A} (rows : list (list A)) (k : Z) e :
  mapM (fun sample => index sample k) rows = Raise e -> e = IndexError.
Proof.
  intros H. apply mapM_raise_inv in H as (x & _ & Hx).
  exact (index_raises _ _ _ Hx).
Qed.

Lemma mapM_concat {A B} (f : A -> result B) (ls : list (list A)) :
  mapM f (concat ls) = fmap (fun out => concat out) (mapM (mapM f) ls).
Proof.
  unfold fmap. induction ls as [|l ls IH]; [reflexivity|].
  cbn [concat mapM]. 
  assert (Happ : forall l1 l2, mapM f (l1 ++ l2)
            = (ys1 <- mapM f l1 ;; ys2 <- mapM f l2 ;; Ok (ys1 ++ ys2))).
  { induction l1 as [|x l1 IH1]; intros l2.
    - cbn [app mapM Py.bind]. destruct (mapM f l2); reflexivity.
    - cbn [app mapM]. destruct (f x); [|reflexivity]. cbn [Py.bind].
      rewrite IH1. destruct (mapM f l1); [|reflexivity]. cbn [Py.bind].
      destruct (mapM f l2); reflexivity. }
  rewrite Happ, IH. destruct (mapM f l); [|reflexivity]. cbn [Py.bind].
  destruct (mapM (mapM f) ls); reflexivity.
Qed.

Lemma mapM_fmap {A B C} (g : A -> B) (f : B -> result C) (l : list A) :
  mapM f (map g l) = mapM (fun x => f (g x)) l.
Proof.
  induction l as [|x l IH]; [reflexivity|].
  cbn [map mapM]. rewrite IH. reflexivity.
Qed.

Lemma mapM_ext {A B} (f g : A -> result B) (l : list A) :
  (forall x, f x = g x) -> mapM f l = mapM g l.
Proof.
  intros Hfg. induction l as [|x l IH]; [reflexivity|].
  cbn [mapM]. rewrite Hfg, IH. reflexivity.
Qed.

(** What [_label] computes for one sample when the network treats the
    samples of a batch one by one. *)
Lemma _label_per_sample (f : Image -> Image -> Act) :
  (forall xb xa, length xb = length xa -> self xb xa = Ok (zip_with f xb xa)) ->
  forall (rows : list (list Image)) (la : option (list Act)) (m : option Mask),
    IDM._label self normalize_obs (Batch.Build_t rows la m)
    = mapM (fun sample =>
              a <- index sample (-2) ;;
              b <- index sample (-1) ;;
              Ok (f (normalize_obs b) (normalize_obs a))) rows.
Proof.
  intros Hself rows la m. unfold IDM._label, Batch.obs_at, fmap. cbn [Batch.obs].
  set (i2 := fun sample : list Image => index sample (-2)).
  set (i1 := fun sample : list Image => index sample (-1)).
  set (h := fun sample : list Image =>
              (a <- i2 sample ;; b <- i1 sample ;;
               Ok (f (normalize_obs b) (normalize_obs a)))).
  match goal with |- ?L = _ => change (L = mapM h rows) end.
  assert (Hgen : (x2 <- mapM i2 rows ;; x1 <- mapM i1 rows ;;
                  Ok (zip_with f (map normalize_obs x1) (map normalize_obs x2)))
                 = mapM h rows).
  { induction rows as [|s rows IH]; [reflexivity|].
    cbn [mapM]. unfold h at 1.
    destruct (i2 s) as [a|e] eqn:Ha; cbn [Py.bind]; [|reflexivity].
    destruct (mapM i2 rows) as [x2|e] eqn:H2; cbn [Py.bind].
    - destruct (i1 s) as [b|e] eqn:Hb; cbn [Py.bind]; [|reflexivity].
      rewrite <- IH. cbn [Py.bind].
      destruct (mapM i1 rows) as [x1|e]; reflexivity.
    - pose proof (mapM_index_raises _ _ _ H2) as ->.
      destruct (i1 s) as [b|e] eqn:Hb; cbn [Py.bind].
      + rewrite <- IH. reflexivity.
      + rewrite (index_raises _ _ _ Hb). reflexivity. }
  rewrite <- Hgen.
  destruct (mapM i2 rows) as [x2|e] eqn:H2; cbn [Py.bind]; [|reflexivity].
  destruct (mapM i1 rows) as [x1|e] eqn:H1; cbn [Py.bind]; [|reflexivity].
  rewrite Hself; [reflexivity|]. rewrite !length_map.
  rewrite (mapM_length _ _ _ H1), (mapM_length _ _ _ H2). reflexivity.
Qed.

(** X23. For a network that treats the samples of a batch one by one,
    chunking is invisible: [label_chunked] returns what one call of its
    [_label] on the whole batch gives, written to the batch, for every
    chunk size of at least 1, and raises what that call raises. *)
Theorem label_chunked_chunk_invariant (f : Image -> Image -> Act)
    (data : Batch.t Image Act Mask) (chunksize : Z) :
  (forall xb xa, length xb = length xa -> self xb xa = Ok (zip_with f xb xa)) ->
  (1 <= chunksize)%Z -> Batch.obs data <> [] ->
  IDM.label_chunked self normalize_obs data chunksize
  = (preds <- IDM._label self normalize_obs data ;;
     Ok (Batch.update data preds)).
Proof.
  intros Hself Hc Hne. unfold IDM.label_chunked.
  rewrite (split_of_rows data chunksize Hc Hne). cbn [Py.bind].
  destruct (split_rows_spec (Z.to_nat chunksize) (length (Batch.obs data))
              (Batch.obs data)) as (Hcat & _ & _); [lia | lia |].
  set (chunks := IDM.split_rows Image _ _ _) in *.
  rewrite mapM_fmap.
  rewrite (mapM_ext _ _ _ (fun rows => _label_per_sample f Hself rows None None)).
  destruct data as [rows la m]. cbn [Batch.obs] in *.
  rewrite (_label_per_sample f Hself rows la m).
  match goal with
  | |- context [mapM ?h rows] =>
      replace (mapM h rows) with (mapM h (concat chunks))
        by (rewrite Hcat; reflexivity)
  end.
  rewrite mapM_concat. unfold fmap.
  destruct (mapM _ chunks) as [outs|e] eqn:Houts; cbn [Py.bind]; [|reflexivity].
  unfold IDM.cat.
  destruct outs as [|o outs]; [|reflexivity].
  apply mapM_length in Houts. destruct chunks; [|discriminate Houts].
  cbn in Hcat. congruence.
Qed.

Lemma update_update (batch : Batch.t Image Act Mask) a :
  Batch.update (Batch.update batch a) a = Batch.update batch a.
Proof. reflexivity. Qed.

End LabelMore.

(** ** Inference with the inverse dynamics model *)

Section ForwardMore.
Context {Image Patch Ctx Src AugParams V : Type}.
Variable transforms : AugParams -> list Image -> list Image.
Variable patch_and_embed : Image -> list Patch.
Variable run_transformer : list Patch -> list Ctx.
Variable drop_token_reshaped : Ctx.
Variable interleave : Ctx -> Ctx -> Src.
Variable top_pct : Py.float.
Variable mask_token_value : V.
Variable decoder_layers : list (TransformerDecoder.Layer V (list Src)).
Variable decoder_norm : V -> V.
Variable action_head_value : V -> list R.
Variables min_tokens max_tokens num_eval_tokens : Z.

Abbreviation decode_step'' :=
  (IDM.decode_step decoder_layers decoder_norm action_head_value).

Lemma range_nonpos n : (n <= 0)%Z -> range n = [].
Proof. intros Hn. unfold range. replace (Z.to_nat n) with 0%nat by lia. reflexivity. Qed.

(** X25. [IDM.forward] without tokens to emit raises the [ValueError] of
    [torch.cat], which is given an empty list: in evaluation mode when
    [num_eval_tokens] is 0 or less and the context encoding returns; in
    training mode when the drawn token count is 0 or less, which
    [min_tokens <= 0] allows. In training mode it raises a [RuntimeError]
    when [max_tokens < min_tokens], where [torch.randint] has nothing to
    draw from. *)
Theorem forward_raises_without_tokens raw draws (x_before x_after : list Image) :
  ((num_eval_tokens <= 0)%Z ->
   forall src,
     IDM._encode_vision_context transforms patch_and_embed run_transformer
       drop_token_reshaped interleave top_pct x_before x_after false (draws 0%Z)
     = Ok src ->
     IDM.forward transforms patch_and_embed run_transformer drop_token_reshaped
       interleave top_pct mask_token_value decoder_layers decoder_norm
       action_head_value min_tokens max_tokens num_eval_tokens
       false raw draws x_before x_after = Raise ValueError) /\
  ((min_tokens <= max_tokens)%Z ->
   (min_tokens + raw mod (max_tokens - min_tokens + 1) <= 0)%Z ->
   Torch.sample (Torch.randint min_tokens (max_tokens + 1)) raw
   = Ok (min_tokens + raw mod (max_tokens - min_tokens + 1))%Z /\
   IDM.forward transforms patch_and_embed run_transformer drop_token_reshaped
     interleave top_pct mask_token_value decoder_layers decoder_norm
     action_head_value min_tokens max_tokens num_eval_tokens
     true raw draws x_before x_after = Raise ValueError) /\
  ((max_tokens < min_tokens)%Z ->
   IDM.forward transforms patch_and_embed run_transformer drop_token_reshaped
     interleave top_pct mask_token_value decoder_layers decoder_norm
     action_head_value min_tokens max_tokens num_eval_tokens
     true raw draws x_before x_after = Raise RuntimeError).
Proof.
  split; [|split].
  - intros Hn src Hsrc. unfold IDM.forward. cbn [negb].
    rewrite Hsrc. cbn [Py.bind]. rewrite range_nonpos by exact Hn. reflexivity.
  - intros Hrange Hn.
    destruct (sample_randint min_tokens (max_tokens + 1) raw ltac:(lia))
      as (outs & _ & _ & _ & Hsample).
    replace (max_tokens + 1 - min_tokens)%Z
      with (max_tokens - min_tokens + 1)%Z in Hsample by lia.
    split; [exact Hsample|].
    unfold IDM.forward. cbn [negb]. rewrite Hsample. cbn [Py.bind].
    rewrite range_nonpos by exact Hn. reflexivity.
  - intros Hempty. unfold IDM.forward, Torch.sample, Torch.randint. cbn [negb].
    destruct (min_tokens <? max_tokens + 1)%Z eqn:Hb;
      [apply Z.ltb_lt in Hb; lia|].
    reflexivity.
Qed.

(** Every action vector emitted so far has [A] entries. *)
Lemma decode_step_actions (A : nat) memory (st st' : IDM.LoopState V) :
  (forall v, length (action_head_value v) = A) ->
  decode_step'' memory st = Ok st' ->
  Forall (Forall (Forall (fun a => length a = A))) st.2 ->
  Forall (Forall (Forall (fun a => length a = A))) st'.2.
Proof.
  intros Hhead Hstep Hinv. destruct st as [tgt out]. unfold IDM.decode_step in Hstep.
  destruct (IDM._make_causal_mask _) as [m|]; [|discriminate]. cbn [Py.bind] in Hstep.
  destruct (mapM _ (zip tgt memory)) as [decoder_out|]; [|discriminate].
  cbn [Py.bind] in Hstep. injection Hstep as <-. cbn [snd] in *.
  apply Forall_app. split; [exact Hinv|]. constructor; [|constructor].
  apply Forall_fmap, Forall_forall. intros row _.
  apply Forall_fmap, Forall_forall. intros v _. apply Hhead.
Qed.

Lemma for_range_actions (A : nat) steps
    (body : Z -> IDM.LoopState V -> result (IDM.LoopState V)) :
  (forall step st st', body step st = Ok st' ->
     Forall (Forall (Forall (fun a => length a = A))) st.2 ->
     Forall (Forall (Forall (fun a => length a = A))) st'.2) ->
  forall st st', IDM.for_range steps body st = Ok st' ->
    Forall (Forall (Forall (fun a => length a = A))) st.2 ->
    Forall (Forall (Forall (fun a => length a = A))) st'.2.
Proof.
  intros Hbody. induction steps as [|step rest IH]; intros st st' Hrun Hinv.
  - injection Hrun as <-. exact Hinv.
  - cbn [IDM.for_range] in Hrun.
    destruct (body step st) as [st1|] eqn:Hstep; [|discriminate].
    cbn [Py.bind] in Hrun.
    exact (IH st1 st' Hrun (Hbody step st st1 Hstep Hinv)).
Qed.

Lemma cat_dim1_actions (A : nat) (out_tokens : list (list (list (list R)))) la :
  Torch.cat_dim1 out_tokens = Ok la ->
  Forall (Forall (Forall (fun a => length a = A))) out_tokens ->
  Forall (Forall (fun a => length a = A)) la.
Proof.
  unfold Torch.cat_dim1. destruct out_tokens as [|t rest]; [discriminate|].
  intros [= <-] Hall. apply Forall_cons_1 in Hall as [Ht Hrest].
  revert t Ht. induction rest as [|a rest IH]; intros t Ht; [exact Ht|].
  apply Forall_cons_1 in Hrest as [Ha Hrest]. cbn [foldl].
  apply IH; [exact Hrest|].
  apply Forall_forall. intros row Hrow.
  apply elem_of_lookup_zip_with in Hrow as (i & x & y & -> & Hx & Hy).
  rewrite Forall_forall in Ht, Ha.
  apply Forall_app. split; [apply Ht | apply Ha]; apply list_elem_of_lookup; eauto.
Qed.

Lemma length_concat_uniform {X} (A : nat) (row : list (list X)) :
  Forall (fun a => length a = A) row -> length (concat row) = (length row * A)%nat.
Proof.
  induction 1 as [|a row Ha _ IH]; [reflexivity|].
  cbn [concat length]. rewrite length_app, IH, Ha. lia.
Qed.

Hypothesis run_transformer_length : forall ps,
  length (run_transformer ps) = length ps.
Variable P : nat.
Hypothesis patch_count : forall img, length (patch_and_embed img) = P.

(** X26. In evaluation mode [IDM.forward] on a batch that is not empty
    also returns [la_flat], the actions of every sample laid end to end:
    one row per sample, of
    [num_eval_tokens * action_dim] entries when the action head gives
    [action_dim] entries, row b being the concatenation of the action
    vectors of sample b in the order they were emitted. *)
Theorem forward_eval_la_flat (action_dim : nat) n draws (x_before x_after : list Image) :
  (forall v, length (action_head_value v) = action_dim) ->
  x_before <> [] -> length x_before = length x_after ->
  (1 <= num_eval_tokens)%Z ->
  exists out flat,
    IDM.forward transforms patch_and_embed run_transformer drop_token_reshaped
     interleave top_pct mask_token_value decoder_layers decoder_norm
     action_head_value min_tokens max_tokens num_eval_tokens
     false n draws x_before x_after = Ok out /\
    IDM.la_flat out = Some flat /\
    length flat = length x_before /\
    Forall (fun row => Z.of_nat (length row)
                       = (num_eval_tokens * Z.of_nat action_dim)%Z) flat /\
    forall b, flat !! b = (fun row => concat row) <$> IDM.la out !! b.
Proof.
  intros Hhead Hne HB Hn. unfold IDM.forward. cbn [negb].
  destruct (encode_eval_spec transforms patch_and_embed run_transformer
              drop_token_reshaped interleave top_pct run_transformer_length
              P patch_count x_before x_after (draws 0%Z) HB)
    as (src & -> & Hsrc). cbn [Py.bind].
  destruct (loop_then_cat mask_token_value (fun _ => decode_step'' src)
              (length x_before) num_eval_tokens Hn)
    as (st & la & Hrun & Hcat & Hlen & Hrows).
  { intros step T k st Hinv HT.
    apply (decode_step_spec decoder_layers decoder_norm action_head_value
             src _ T k); assumption. }
  rewrite Hrun. cbn [Py.bind]. rewrite Hcat. cbn [Py.bind].
  rewrite view_flat_spec
    by (intros ->; simpl in Hlen; destruct x_before; [congruence | discriminate]).
  cbn [Py.bind].
  assert (Hact : Forall (Forall (fun a => length a = action_dim)) la).
  { apply (cat_dim1_actions action_dim st.2 la Hcat).
    apply (for_range_actions action_dim (range num_eval_tokens)
             (fun _ => decode_step'' src)
             (fun step st0 st1 => decode_step_actions action_dim src st0 st1 Hhead)
             _ st Hrun).
    constructor. }
  eexists. eexists. split; [reflexivity|]. cbn [IDM.la_flat IDM.la].
  split; [reflexivity|]. split; [rewrite length_map; exact Hlen|]. split.
  - apply Forall_fmap, Forall_forall. intros row Hrow. cbn.
    rewrite Forall_forall in Hact, Hrows.
    rewrite (length_concat_uniform action_dim) by (apply Hact, Hrow).
    specialize (Hrows row Hrow). cbn beta in Hrows. lia.
  - intros b. apply list_lookup_fmap.
Qed.

(** X27. In evaluation mode [_encode_vision_context] neither augments nor
    drops: the context of sample b interleaves, patch by patch, the
    layerwise embeddings of its own two images, and no random draw enters.
    Two batches of different sizes, of images with at least one patch,
    make it raise. *)
Theorem encode_eval_per_sample (x_before x_after : list Image) draw :
  (length x_before = length x_after ->
   exists src, IDM._encode_vision_context transforms patch_and_embed run_transformer
     drop_token_reshaped interleave top_pct x_before x_after false draw = Ok src /\
     length src = length x_before /\
     (forall b ib ia, x_before !! b = Some ib -> x_after !! b = Some ia ->
        src !! b = Some (zip_with interleave
                           (run_transformer (patch_and_embed ib))
                           (run_transformer (patch_and_embed ia)))) /\
     Forall (fun row => length row = P) src /\
     forall draw', IDM._encode_vision_context transforms patch_and_embed run_transformer
     drop_token_reshaped interleave top_pct x_before x_after false draw' = Ok src) /\
  (length x_before <> length x_after -> 1 <= P ->
   IDM._encode_vision_context transforms patch_and_embed run_transformer
     drop_token_reshaped interleave top_pct x_before x_after false draw
   = Raise RuntimeError).
Proof.
  split.
  - intros HB.
    destruct (encode_eval_spec transforms patch_and_embed run_transformer
                drop_token_reshaped interleave top_pct run_transformer_length
                P patch_count x_before x_after draw HB) as (src & Hsrc & Hlen).
    exists src. split; [exact Hsrc|]. split; [exact Hlen|].
    unfold IDM._encode_vision_context in *. cbn [Py.bind] in *.
    destruct (IDM.same_shape _ _); [|discriminate]. injection Hsrc as <-.
    split; [|split].
    + intros b ib ia Hb Ha.
      rewrite lookup_zip_with, !list_lookup_fmap, Hb, Ha. reflexivity.
    + apply Forall_forall. intros row Hrow.
      apply elem_of_lookup_zip_with in Hrow as (i & x & y & -> & Hx & Hy).
      rewrite !list_lookup_fmap in Hx, Hy.
      destruct (x_before !! i) as [ib|]; [|discriminate].
      destruct (x_after !! i) as [ia|]; [|discriminate].
      injection Hx as <-. injection Hy as <-.
      rewrite length_zip_with, !run_transformer_length, !patch_count. lia.
    + intros draw'. reflexivity.
  - intros HB _. unfold IDM._encode_vision_context. cbn [Py.bind].
    destruct (IDM.same_shape _ _) eqn:Hshape; [|reflexivity].
    exfalso. apply HB. unfold IDM.same_shape in Hshape.
    apply bool_decide_eq_true_1 in Hshape.
    apply (f_equal length) in Hshape. rewrite !length_map in Hshape. exact Hshape.
Qed.

Hypothesis transforms_length : forall params x,
  length (transforms params x) = length x.

(** X28. In training mode [_encode_vision_context] on a batch that is not
    empty raises when the retention count [max(1, int(P * top_pct))]
    exceeds the number of patches, as it does for images without patches
    and for a retention fraction above 1 with enough patches: [topk] is
    asked for more entries than a row has. *)
Theorem encode_training_raises (x_before x_after : list Image) draw (k : Z) :
  x_after <> [] -> length x_before = length x_after ->
  IDM.top_k top_pct P = Ok k -> (Z.of_nat P < k)%Z ->
  IDM._encode_vision_context transforms patch_and_embed run_transformer
     drop_token_reshaped interleave top_pct x_before x_after true draw = Raise RuntimeError.
Proof.
  intros Hne _ Htop Hk. unfold IDM._encode_vision_context, IDM.aug_fn.
  assert (Hafter : exists img rest,
            transforms (IDM.aug_params draw) x_after = img :: rest).
  { destruct (transforms (IDM.aug_params draw) x_after) as [|img rest] eqn:Ht;
      [|eauto].
    apply (f_equal length) in Ht. rewrite transforms_length in Ht.
    destruct x_after; [contradiction | discriminate]. }
  destruct Hafter as (img & rest & ->).
  cbn [map imap mapM].
  unfold IDM.kept_idxs at 1, Torch.topk_smallest.
  rewrite patch_count, Htop. cbn [Py.bind].
  rewrite length_map, length_seq.
  destruct ((k <? 0) || (Z.of_nat P <? k))%Z eqn:Hb; [reflexivity|].
  apply orb_false_iff in Hb as [_ Hb]. apply Z.ltb_ge in Hb. lia.
Qed.
End ForwardMore.

(** ** The two causal masks *)

Section MaskMore.
Lemma triu_full_fmap {A B} (g : A -> B) (zero v : A) (d : Z) (n : nat) :
  map (map g) (Mask.triu zero d (Mask.full n n v))
  = Mask.triu (g zero) d (Mask.full n n (g v)).
Proof.
  unfold Mask.triu, Mask.full. apply list_eq. intros i.
  rewrite list_lookup_fmap, !list_lookup_imap.
  destruct (decide (i < n)) as [Hi|Hi].
  - rewrite !lookup_replicate_2 by exact Hi. cbn. f_equal.
    apply list_eq. intros j.
    rewrite list_lookup_fmap, !list_lookup_imap.
    destruct (decide (j < n)) as [Hj|Hj].
    + rewrite !lookup_replicate_2 by exact Hj. cbn.
      destruct (d <=? _)%Z; reflexivity.
    + assert (Hn : forall (X : Type) (x : X), replicate n x !! j = None)
        by (intros X x; apply lookup_replicate_None; lia).
      rewrite !Hn. reflexivity.
  - assert (Hn : forall (X : Type) (x : X), replicate n x !! i = None)
      by (intros X x; apply lookup_replicate_None; lia).
    rewrite !Hn. reflexivity.
Qed.

(** X29. The boolean mask of [generate_causal_mask] and the additive mask
    of [IDM._make_causal_mask] forbid the same positions: for every size
    the first is the second with minus infinity read as True and 0 as
    False, and both raise for a negative size. For a size L of 0 or more
    the masks are square with L rows. *)
Theorem causal_masks_agree (L : Z) :
  generate_causal_mask L
    = fmap (map (map Mask.to_bool)) (IDM._make_causal_mask L) /\
  ((L < 0)%Z -> IDM._make_causal_mask L = Raise RuntimeError) /\
  ((0 <= L)%Z ->
   exists m, IDM._make_causal_mask L = Ok m /\
     length m = Z.to_nat L /\ Forall (fun row => length row = Z.to_nat L) m).
Proof.
  unfold generate_causal_mask, IDM._make_causal_mask, fmap.
  split; [|split].
  - destruct (L <? 0)%Z; [reflexivity|]. cbn [Py.bind]. f_equal.
    rewrite !triu_full_fmap. reflexivity.
  - intros Hneg. destruct (L <? 0)%Z eqn:Hb; [reflexivity|].
    apply Z.ltb_ge in Hb. lia.
  - intros Hpos. destruct (L <? 0)%Z eqn:Hb; [apply Z.ltb_lt in Hb; lia|].
    eexists. split; [reflexivity|]. unfold Mask.triu, Mask.full.
    split; [rewrite length_imap, length_replicate; reflexivity|].
    apply Forall_forall. intros row Hrow.
    apply list_elem_of_lookup in Hrow as [i Hi].
    rewrite list_lookup_imap in Hi.
    destruct (replicate (Z.to_nat L) _ !! i) as [r|] eqn:Hr; [|discriminate].
    apply lookup_replicate in Hr as [-> _]. injection Hi as <-.
    rewrite length_imap, length_replicate. reflexivity.
Qed.
End MaskMore.

(** ** The further properties on concrete instances *)

Section MoreWitnesses.
Import Examples MoreExamples.

Lemma example_mirror : WorldModel.ema_mirror wm heap.
Proof.
  split; [apply NoDup_singleton|]. split.
  - intros id Hin Hin'.
    change (id ∈ [2%positive]) in Hin. change (id ∈ [1%positive]) in Hin'.
    apply list_elem_of_singleton in Hin. apply list_elem_of_singleton in Hin'.
    rewrite Hin in Hin'. discriminate.
  - change (Forall2 (fun e p => WorldModel.mirrored heap (e, p))
              [2%positive] [1%positive]).
    constructor; [|constructor].
    exists (set_requires_grad (fresh [1; 2]%R) false), (fresh [1; 2]%R).
    split; [reflexivity|]. split; reflexivity.
Qed.

Lemma example_frozen : Train.ema_frozen wm heap.
Proof.
  intros id Hin. change (id ∈ [2%positive]) in Hin.
  apply list_elem_of_singleton in Hin. subst id.
  exists (set_requires_grad (fresh [1; 2]%R) false).
  split; [reflexivity|]. split; reflexivity.
Qed.

Lemma drifted_mirror : WorldModel.ema_mirror wm drifted.
Proof.
  split; [apply NoDup_singleton|]. split.
  - intros id Hin Hin'.
    change (id ∈ [2%positive]) in Hin. change (id ∈ [1%positive]) in Hin'.
    apply list_elem_of_singleton in Hin. apply list_elem_of_singleton in Hin'.
    rewrite Hin in Hin'. discriminate.
  - change (Forall2 (fun e p => WorldModel.mirrored drifted (e, p))
              [2%positive] [1%positive]).
    constructor; [|constructor].
    exists (set_requires_grad (fresh [1; 2]%R) false), (fresh [3; 4]%R).
    split; [reflexivity|]. split; reflexivity.
Qed.

Lemma update_ema_extreme_momentum_witness :
  WorldModel.update_ema wm 1 drifted = Ok drifted /\
  exists h', WorldModel.update_ema wm 0 drifted = Ok h' /\
    h' !! 2%positive
      = Some (set_data (set_requires_grad (fresh [1; 2]%R) false) [3; 4]%R).
Proof.
  destruct (update_ema_extreme_momentum wm drifted drifted_mirror)
    as (H1 & h' & H0 & Hcopy).
  split; [exact H1|]. exists h'. split; [exact H0|].
  exact (Hcopy 0%nat 2%positive 1%positive
           (set_requires_grad (fresh [1; 2]%R) false) (fresh [3; 4]%R)
           eq_refl eq_refl eq_refl eq_refl).
Defined.

Lemma update_ema_between_witness :
  exists h' pe' z,
    WorldModel.update_ema wm (1 / 2) drifted = Ok h' /\
    h' !! 2%positive = Some pe' /\ data pe' !! 0%nat = Some z /\
    (Rmin 1 3 <= z <= Rmax 1 3)%R.
Proof.
  destruct (update_ema_spec wm (1 / 2) drifted drifted_mirror) as (h' & Hrun & _).
  destruct (update_ema_between wm (1 / 2) drifted h' drifted_mirror ltac:(lra) Hrun
              0%nat 2%positive 1%positive
              (set_requires_grad (fresh [1; 2]%R) false) (fresh [3; 4]%R)
              0%nat 1%R 3%R eq_refl eq_refl eq_refl eq_refl eq_refl eq_refl)
    as (pe' & z & Hpe' & Hz & Hbound).
  exists h', pe', z. auto.
Defined.

Lemma update_ema_in_sync_witness :
  WorldModel.update_ema wm (9 / 10) heap = Ok heap.
Proof.
  apply (update_ema_in_sync wm (9 / 10) heap example_mirror).
  intros i e p pe pp He Hp Hpe Hpp.
  change ([2%positive] !! i = Some e) in He.
  change ([1%positive] !! i = Some p) in Hp.
  destruct i as [|i]; [|discriminate].
  injection He as <-. injection Hp as <-.
  change (Some (set_requires_grad (fresh [1; 2]%R) false) = Some pe) in Hpe.
  change (Some (fresh [1; 2]%R) = Some pp) in Hpp.
  injection Hpe as <-. injection Hpp as <-. reflexivity.
Defined.

Lemma init_invariants_witness :
  exists enc, small_encoder = Ok enc /\
    VisionEncoder.num_patches _ enc = 4%Z /\
    length (VisionEncoder.pos_embed _ enc) = 4%nat /\
    length (VisionEncoder.encoder_layers _ enc) = 1%nat.
Proof.
  assert (Hrun : exists enc, small_encoder = Ok enc).
  { unfold small_encoder. eexists. reflexivity. }
  destruct Hrun as [enc Hrun]. exists enc. split; [exact Hrun|].
  destruct (init_invariants VisionEncoder.torch 4 2 3 4 1 1 enc Hrun)
    as (_ & _ & Hgrid & _ & Hnum & _ & _ & _ & Hpos & _ & Hlayers).
  rewrite Hgrid in Hnum. split; [exact Hnum|].
  rewrite Hnum in Hpos. split; [exact Hpos | exact Hlayers].
Defined.

Lemma init_succeeds_witness :
  exists enc, small_encoder = Ok enc /\
    VisionEncoder.patch_embed _ enc = (3, 4, 2, 2)%Z /\
    VisionEncoder.encoder_layers _ enc = [(4, 1, 16)%Z].
Proof.
  apply (init_succeeds VisionEncoder.torch 4 2 3 4 1 1 (3, 4, 2, 2)%Z (4, 1, 16)%Z);
    [lia | reflexivity | vm_compute; discriminate | lia | reflexivity
     | reflexivity | intros _; reflexivity].
Defined.

Lemma forward_stacks_every_layer_witness :
  exists emb out,
    VisionEncoder.patch_and_embed ema_patch_embed ema_pos_embed [1; 2]%nat = Ok emb /\
    VisionEncoder.forward ema_patch_embed ema_pos_embed ema_encoder_layers
      [1; 2]%nat = Ok out /\
    dims4 out = (2, 3, 2, 2)%nat.
Proof.
  destruct (forward_stacks_every_layer (list nat) ema_patch_embed ema_pos_embed
              ema_encoder_layers [1; 2]%nat 2%nat 2%nat 2%nat 1%nat)
    as (emb & out & Hemb & Hout & _ & _ & Hdims & _).
  - reflexivity.
  - reflexivity.
  - repeat constructor.
  - repeat constructor.
  - discriminate.
  - exists emb, out. split; [exact Hemb|]. split; [exact Hout | exact Hdims].
Defined.

Lemma forward_raises_witness :
  VisionEncoder.forward ema_patch_embed ema_pos_embed [] [1; 2]%nat
    = Raise ValueError.
Proof.
  destruct (VisionEncoder.patch_and_embed ema_patch_embed ema_pos_embed
              [1; 2]%nat) as [emb|e] eqn:Hemb.
  - apply (proj2 (proj1 (forward_raises (list nat) ema_patch_embed ema_pos_embed
                           [] [1; 2]%nat) eq_refl) emb).
    exact Hemb.
  - exfalso. unfold VisionEncoder.patch_and_embed, VisionEncoder.add_pos_embed in Hemb.
    cbn in Hemb. destruct (decide _) as [_|Hn]; [discriminate|].
    apply Hn. split; [reflexivity | repeat constructor].
Defined.

Lemma example_pos_shape :
  length ema_pos_embed = (2 * 1)%nat /\
  Forall (fun row : list R => length row = 2%nat) ema_pos_embed.
Proof. split; [reflexivity | repeat constructor]. Qed.

Lemma example_layer_shape :
  Forall (fun layer : Tensor3 -> Tensor3 => forall t, dims3 (layer t) = dims3 t)
         ema_encoder_layers.
Proof. repeat constructor. Qed.

Lemma forward_layout_witness :
  exists s out,
    WorldModel.ema_encoder_fn ema_patch_embed ema_pos_embed ema_encoder_layers
      [1]%nat = Ok s /\
    WorldModel.forward ema_patch_embed ema_pos_embed ema_encoder_layers
      (fun a : list unit => a) (@nil (DoubleCrossDecoder.Layer (list unit) unit))
      [1]%nat [tt] None = Ok out /\
    at4 out 0 2 1 1 = at4 s 0 2 1 1.
Proof.
  destruct (ema_encoder_shape ema_patch_embed ema_pos_embed ema_encoder_layers
              2%nat 1%nat 2%nat example_pos_shape (fun x => eq_refl)
              example_layer_shape ltac:(discriminate) [1]%nat)
    as (s & Hs & Hdims).
  destruct (forward_layout nat unit unit (list unit) ema_patch_embed ema_pos_embed
              ema_encoder_layers (fun a : list unit => a) [] [1]%nat [tt] None
              s 3%nat 2%nat 2%nat Hs Hdims ltac:(constructor))
    as (flat & out & Hout & _ & _ & Hent).
  exists s, out. split; [exact Hs|]. split; [exact Hout|].
  destruct (Hent 0%nat 2%nat 1%nat 1%nat ltac:(lia) ltac:(lia) ltac:(lia))
    as (_ & _ & Hid).
  exact (Hid eq_refl).
Defined.

Lemma label_raises_witness :
  WorldModel.label ema_patch_embed ema_pos_embed ema_encoder_layers
    (fun a : list (nat * nat) => a) [] three_samples = Raise KeyError /\
  WorldModel.label ema_patch_embed ema_pos_embed ema_encoder_layers
    (fun a : list (nat * nat) => a) [] short_batch = Raise IndexError.
Proof.
  split.
  - apply (proj1 (label_raises nat (nat * nat) unit (list (nat * nat))
                    ema_patch_embed ema_pos_embed ema_encoder_layers
                    (fun a => a) [] three_samples)).
    reflexivity.
  - apply (proj2 (label_raises nat (nat * nat) unit (list (nat * nat))
                    ema_patch_embed ema_pos_embed ema_encoder_layers
                    (fun a => a) [] short_batch)).
    + discriminate.
    + exists [1]%nat. split; [left | cbn; lia].
Defined.

Lemma label_loss_nonneg_witness :
  exists loss,
    WorldModel.label ema_patch_embed ema_pos_embed ema_encoder_layers
      (fun a : list unit => a) [] batch = Ok loss /\
    (0 <= at1 loss 0)%R.
Proof.
  assert (Hds : Forall (fun ly : DoubleCrossDecoder.Layer (list unit) unit =>
                          forall ms ma mask,
                            dims3 (DoubleCrossDecoder.layer_forward ly ms ma mask)
                            = dims3 ms) []).
  { constructor. }
  destruct (forward_shape ema_patch_embed ema_pos_embed ema_encoder_layers
              (fun a : list unit => a) [] 2%nat 1%nat 2%nat example_pos_shape
              (fun x => eq_refl) example_layer_shape Hds ltac:(discriminate)
              [1]%nat [tt] None) as (pred & Hpred & Hdp).
  destruct (ema_encoder_shape ema_patch_embed ema_pos_embed ema_encoder_layers
              2%nat 1%nat 2%nat example_pos_shape (fun x => eq_refl)
              example_layer_shape ltac:(discriminate) [2]%nat)
    as (target & Htarget & Hdt).
  destruct (label_loss_nonneg nat unit unit (list unit) ema_patch_embed ema_pos_embed
              ema_encoder_layers (fun a : list unit => a) [] batch
              [tt] [1]%nat [2]%nat pred target 1%nat 3%nat 2%nat 2%nat
              eq_refl eq_refl eq_refl Hpred Htarget Hdp Hdt ltac:(cbn; lia))
    as (loss & Hloss & Hnonneg).
  exists loss. split; [exact Hloss|]. exact (proj1 (Hnonneg 0%nat)).
Defined.

Lemma example_adamw_shape (st : unit) (id : positive) (p : Param) (g : Tensor) :
  length (adamw st id p g) = length (data p).
Proof. unfold adamw. apply length_map. Qed.

Lemma example_step_runs :
  exists w', Train.train_step unit loss_grad unit adamw (fun st => st)
               idm wm 0 tt world = Ok w'.
Proof.
  destruct (train_step_spec unit loss_grad unit adamw (fun st => st)
              example_adamw_shape idm wm 0%Z tt world example_mirror example_frozen)
    as (w' & Hrun & _).
  exists w'. exact Hrun.
Qed.

Lemma train_step_clears_gradients_witness :
  exists w', Train.train_step unit loss_grad unit adamw (fun st => st)
               idm wm 0 tt world = Ok w' /\
    forall p', Train.heap w' !! 1%positive = Some p' -> grad p' = None.
Proof.
  destruct example_step_runs as [w' Hrun]. exists w'. split; [exact Hrun|].
  destruct (train_step_clears_gradients unit loss_grad unit adamw (fun st => st)
              idm wm 0%Z tt world w' Hrun) as (Hgrad & _).
  intros p'. apply (Hgrad 1%positive p'). right.
  apply (bool_decide_eq_true_1 (1%positive ∈ parameters wm)). reflexivity.
Defined.

Lemma train_step_moves_only_trained_witness :
  1%positive ∈ WorldModel.ema_encoder wm \/
  (1%positive ∈ Train.param_groups (Train.optimizer world) /\
   requires_grad (fresh [1; 2]%R) = true /\
   loss_grad (Train.heap world) tt 1%positive <> None).
Proof.
  destruct example_step_runs as [w' Hrun].
  destruct (train_step_heap unit loss_grad unit adamw (fun st => st)
              idm wm 0%Z tt world w' Hrun) as (h4 & Hema & Hheap & _).
  assert (Hdata : data <$> Train.heap w' !! 1%positive
                  = Some (map (fun x => (x / 2)%R) [1; 2]%R)).
  { rewrite Hheap. unfold zero_grad.
    rewrite !(modify_field data) by reflexivity.
    rewrite (update_ema_loop_notin _ _ _ _ Hema 1%positive).
    - reflexivity.
    - change (1%positive ∉ [2%positive]). intros Hin.
      apply list_elem_of_singleton in Hin. discriminate. }
  destruct (Train.heap w' !! 1%positive) as [p'|] eqn:Hp'; [|discriminate].
  injection Hdata as Hdata.
  apply (train_step_moves_only_trained unit loss_grad unit adamw (fun st => st)
           idm wm 0%Z tt world w' 1%positive (fresh [1; 2]%R) p' Hrun eq_refl Hp').
  rewrite Hdata. cbn [map data fresh]. intros Heq.
  injection Heq as H1 _. lra.
Defined.

Lemma created_models_start_in_sync_witness :
  WorldModel.update_ema wm (1 / 2) heap = Ok heap.
Proof.
  assert (Hwf : heap_wf {| cells := ∅; next := 1%positive |}).
  { intros id p Hp. cbn in Hp. rewrite lookup_empty in Hp. discriminate. }
  pose proof (created_models_start_in_sync init _ Hwf) as Hsync.
  unfold heap, wm, models.
  destruct (create_dynamics_models init {| cells := ∅; next := 1%positive |})
    as [[i w] h'].
  destruct Hsync as (_ & _ & _ & Hsync). exact (Hsync (1 / 2)%R).
Defined.

Lemma split_is_partition_witness :
  exists chunks, IDM.split nat (nat * nat) unit three_samples 2 = Ok chunks /\
    map Batch.obs chunks = [[[1; 2]; [3; 4]]; [[5; 6]]]%nat.
Proof.
  destruct (split_is_partition nat (nat * nat) unit three_samples 2 ltac:(lia)
              ltac:(discriminate)) as (chunks & Hsplit & _).
  exists chunks. split; [exact Hsplit|].
  cbv in Hsplit. injection Hsplit as <-. reflexivity.
Defined.

Lemma label_chunked_chunk_invariant_witness :
  IDM.label_chunked pairing (fun img => img) three_samples 2
  = (preds <- IDM._label pairing (fun img => img) three_samples ;;
     Ok (Batch.update three_samples preds)).
Proof.
  apply (label_chunked_chunk_invariant nat (nat * nat) unit pairing
           (fun img => img) pair three_samples 2);
    [intros xb xa _; reflexivity | lia | discriminate].
Defined.


Lemma forward_raises_without_tokens_witness :
  IDM.forward transforms patch_and_embed run_transformer 0%nat pair top_pct
    0%nat [decoder_layer] (fun v => v) action_head 2 10 0
    false 0 (fun _ => draw) [1; 2]%nat [3; 4]%nat = Raise ValueError /\
  IDM.forward transforms patch_and_embed run_transformer 0%nat pair top_pct
    0%nat [decoder_layer] (fun v => v) action_head (-1) 1 10
    true 4 (fun _ => draw) [1; 2]%nat [3; 4]%nat = Raise ValueError /\
  IDM.forward transforms patch_and_embed run_transformer 0%nat pair top_pct
    0%nat [decoder_layer] (fun v => v) action_head 5 3 10
    true 4 (fun _ => draw) [1; 2]%nat [3; 4]%nat = Raise RuntimeError.
Proof.
  split; [|split].
  - apply (proj1 (forward_raises_without_tokens transforms patch_and_embed
                    run_transformer 0%nat pair top_pct 0%nat [decoder_layer]
                    (fun v => v) action_head 2 10 0 0 (fun _ => draw)
                    [1; 2]%nat [3; 4]%nat) ltac:(lia)
             (zip_with (zip_with pair)
                (map run_transformer (map patch_and_embed [1; 2]%nat))
                (map run_transformer (map patch_and_embed [3; 4]%nat)))).
    reflexivity.
  - apply (proj1 (proj2 (forward_raises_without_tokens transforms patch_and_embed
                           run_transformer 0%nat pair top_pct 0%nat [decoder_layer]
                           (fun v => v) action_head (-1) 1 10 4 (fun _ => draw)
                           [1; 2]%nat [3; 4]%nat))); [lia | reflexivity].
  - apply (proj2 (proj2 (forward_raises_without_tokens transforms patch_and_embed
                           run_transformer 0%nat pair top_pct 0%nat [decoder_layer]
                           (fun v => v) action_head 5 3 10 4 (fun _ => draw)
                           [1; 2]%nat [3; 4]%nat))).
    lia.
Defined.

Lemma example_run_transformer_length (ps : list nat) :
  length (run_transformer ps) = length ps.
Proof. unfold run_transformer. apply length_map. Qed.

Lemma forward_eval_la_flat_witness :
  exists out flat,
    IDM.forward transforms patch_and_embed run_transformer 0%nat pair top_pct
      0%nat [decoder_layer] (fun v => v) action_head 2 10 10
      false 0 (fun _ => draw) [1; 2]%nat [3; 4]%nat = Ok out /\
    IDM.la_flat out = Some flat /\
    Forall (fun row => Z.of_nat (length row) = 10%Z) flat.
Proof.
  destruct (forward_eval_la_flat transforms patch_and_embed run_transformer
              0%nat pair top_pct 0%nat [decoder_layer] (fun v => v) action_head
              2 10 10 example_run_transformer_length 4%nat (fun img => eq_refl)
              1%nat 0%Z (fun _ => draw) [1; 2]%nat [3; 4]%nat
              (fun v => eq_refl) ltac:(discriminate) eq_refl ltac:(lia))
    as (out & flat & Hrun & Hflat & _ & Hrows & _).
  exists out, flat. split; [exact Hrun|]. split; [exact Hflat | exact Hrows].
Defined.

Lemma encode_eval_per_sample_witness :
  exists src,
    IDM._encode_vision_context transforms patch_and_embed run_transformer
      0%nat pair top_pct [1; 2]%nat [3; 4]%nat false draw = Ok src /\
    src !! 1%nat = Some (zip_with pair (run_transformer (patch_and_embed 2%nat))
                           (run_transformer (patch_and_embed 4%nat))).
Proof.
  destruct (proj1 (encode_eval_per_sample transforms patch_and_embed run_transformer
                     0%nat pair top_pct example_run_transformer_length 4%nat
                     (fun img => eq_refl) [1; 2]%nat [3; 4]%nat draw) eq_refl)
    as (src & Hrun & _ & Hsample & _).
  exists src. split; [exact Hrun|].
  exact (Hsample 1%nat 2%nat 4%nat eq_refl eq_refl).
Defined.

Lemma encode_training_raises_witness :
  IDM.top_k big_pct 4 = Ok 6%Z /\
  IDM._encode_vision_context transforms patch_and_embed run_transformer
    0%nat pair big_pct [1; 2]%nat [3; 4]%nat true draw = Raise RuntimeError.
Proof.
  assert (Hk : IDM.top_k big_pct 4 = Ok 6%Z).
  { vm_compute. reflexivity. }
  split; [exact Hk|].
  apply (encode_training_raises transforms patch_and_embed run_transformer
           0%nat pair big_pct 4%nat (fun img => eq_refl) (fun params x => eq_refl)
           [1; 2]%nat [3; 4]%nat draw 6%Z);
    [discriminate | reflexivity | exact Hk | lia].
Defined.
End MoreWitnesses.
